(** * clipity: shallow embedding of [utils.ts], the setup view's installer
    and the download form's submit handler.

    Strings are sequences of UTF-16 code units, as in JavaScript; a code unit
    is an [N].  Numbers are IEEE binary64 values: a finite number is the
    rational it stands for, and the three non-finite values are kept apart.
    Every arithmetic operation and every conversion from text computes the
    exact result and rounds it to the nearest binary64, a tie going to the
    even significand, with gradual underflow and overflow to an infinity
    ([round64]).  The sign of zero is not part of the model; nothing in the
    code observes it. *)

From Stdlib Require Import String Ascii.
From Stdlib Require Import Bool Arith ZArith NArith QArith Qabs Qround Qreduction
  Qpower.
From Stdlib Require Qcanon.
From Stdlib Require Import Lia List.
Import ListNotations.
Close Scope Q_scope.
Open Scope string_scope.
Open Scope list_scope.

(** ** JavaScript strings *)

Module JS.

Definition char := N.
Definition str := list char.

(** A literal of the source, for the code units below 256. *)
Definition lit (s : string) : str :=
  map N_of_ascii (list_ascii_of_string s).

Definition ch (s : string) : char :=
  match s with
  | String a _ => N_of_ascii a
  | EmptyString => 0%N
  end.

Fixpoint str_eqb (a b : str) : bool :=
  match a, b with
  | [], [] => true
  | x :: a', y :: b' => N.eqb x y && str_eqb a' b'
  | _, _ => false
  end.

(** Truthiness of a string: only the empty string is falsy. *)
Definition truthy (s : str) : bool :=
  match s with [] => false | _ :: _ => true end.

(** [WhiteSpace] and [LineTerminator] code points, the set removed by
    [String.prototype.trim] and skipped by [Number] and [parseFloat]. *)
Definition isWhiteSpace (c : char) : bool :=
  ((9 <=? c) && (c <=? 13) || (c =? 32) || (c =? 160) || (c =? 5760)
   || (8192 <=? c) && (c <=? 8202) || (c =? 8232) || (c =? 8233)
   || (c =? 8239) || (c =? 8287) || (c =? 12288) || (c =? 65279))%N.

Fixpoint dropWhile (p : char -> bool) (s : str) : str :=
  match s with
  | [] => []
  | c :: t => if p c then dropWhile p t else s
  end.

Fixpoint takeWhile (p : char -> bool) (s : str) : str :=
  match s with
  | [] => []
  | c :: t => if p c then c :: takeWhile p t else []
  end.

Definition trimStart (s : str) : str := dropWhile isWhiteSpace s.
Definition trimEnd (s : str) : str := rev (dropWhile isWhiteSpace (rev s)).
Definition trim (s : str) : str := trimEnd (trimStart s).

(** [s.split(sep)] for a separator of one code unit. *)
Fixpoint split (sep : char) (s : str) : list str :=
  match s with
  | [] => [[]]
  | c :: t =>
      if (c =? sep)%N then [] :: split sep t
      else match split sep t with
           | w :: ws => (c :: w) :: ws
           | [] => [[c]]
           end
  end.

(** [s.slice(0, n)] *)
Definition slice0 (n : nat) (s : str) : str := firstn n s.

(** [s.padStart(n, fill)] *)
Definition padStart (n : nat) (fill s : str) : str :=
  let k := (n - length s)%nat in
  firstn k (concat (repeat fill k)) ++ s.

Fixpoint isPrefix (p s : str) : bool :=
  match p, s with
  | [], _ => true
  | x :: p', y :: s' => (x =? y)%N && isPrefix p' s'
  | _ :: _, [] => false
  end.

(** ** JavaScript numbers *)

Inductive number : Type :=
| NaN
| PosInf
| NegInf
| Fin (q : Q).

(** An integer, for the constants of the source and for the results of
    [Math.floor] and [Math.round]. *)
Definition ofZ (z : Z) : number := Fin (inject_Z z).

(** [2^e <= n/d], for positive [n] and [d]. *)
Definition pow2le (e n d : Z) : bool :=
  (d * 2 ^ Z.max e 0 <=? n * 2 ^ Z.max (- e) 0)%Z.

(** The binary exponent of [n/d]: the [e] with [2^e <= n/d < 2^(e+1)]. *)
Definition ilog2 (n d : Z) : Z :=
  let e0 := (Z.log2 n - Z.log2 d)%Z in
  if pow2le e0 n d then e0 else (e0 - 1)%Z.

(** [n/d] to the nearest integer, a tie going to the even one. *)
Definition divHalfEven (n d : Z) : Z :=
  let q := (n / d)%Z in
  match (2 * (n mod d) ?= d)%Z with
  | Lt => q
  | Gt => (q + 1)%Z
  | Eq => if Z.even q then q else (q + 1)%Z
  end.

(** The binary64 nearest to the positive fraction [n/d], with the sign of
    [sg].  The unit in the last place is [2^g], 52 binary places below the
    leading one and never below [2^-1074]; the significand [m] is [n/d] in
    that unit, rounded; from [2^1024] on the result is an infinity. *)
Definition roundPos (sg n d : Z) : number :=
  let e := ilog2 n d in
  let g := Z.max (e - 52) (-1074) in
  let up := (2 ^ Z.max g 0)%Z in
  let dn := (2 ^ Z.max (- g) 0)%Z in
  let m := divHalfEven (n * dn) (d * up) in
  if (2 ^ 1024 * dn <=? m * up)%Z
  then (if (0 <? sg)%Z then PosInf else NegInf)
  else Fin (Qred (Z.sgn sg * (m * up) # Z.to_pos dn)).

(** Rounding of an exact result to binary64. *)
Definition round64 (q : Q) : number :=
  if (Z.abs (Qnum q) =? 0)%Z then Fin 0
  else roundPos (Qnum q) (Z.abs (Qnum q)) (Zpos (Qden q)).

(** The finite result of an operation: its exact value, rounded.  Results
    are kept in lowest terms, so that equal numbers are equal terms. *)
Definition fin (q : Q) : number := round64 q.

Definition isNaN (x : number) : bool :=
  match x with NaN => true | _ => false end.

Definition Qsgn (q : Q) : Z := Z.sgn (Qnum q).

Definition add (a b : number) : number :=
  match a, b with
  | NaN, _ | _, NaN => NaN
  | PosInf, NegInf | NegInf, PosInf => NaN
  | PosInf, _ | _, PosInf => PosInf
  | NegInf, _ | _, NegInf => NegInf
  | Fin x, Fin y => fin (x + y)
  end.

Definition infOfSign (z : Z) : number :=
  match z with
  | Z0 => NaN
  | Zpos _ => PosInf
  | Zneg _ => NegInf
  end.

Definition sign (a : number) : Z :=
  match a with
  | NaN => 0
  | PosInf => 1
  | NegInf => -1
  | Fin q => Qsgn q
  end.

Definition mul (a b : number) : number :=
  match a, b with
  | NaN, _ | _, NaN => NaN
  | Fin x, Fin y => fin (x * y)
  | _, _ => infOfSign (sign a * sign b)
  end.

Definition div (a b : number) : number :=
  match a, b with
  | NaN, _ | _, NaN => NaN
  | Fin x, Fin y =>
      if Qeq_bool y 0 then infOfSign (Qsgn x) else fin (x / y)
  | Fin _, _ => Fin 0
  | _, Fin y => infOfSign (sign a * (if Qeq_bool y 0 then 1 else Qsgn y))
  | _, _ => NaN
  end.

(** Truncation towards zero. *)
Definition Qtrunc (q : Q) : Z := Z.quot (Qnum q) (Zpos (Qden q)).

(** The remainder operator [%]: the result has the sign of the dividend. *)
Definition rem (a b : number) : number :=
  match a, b with
  | NaN, _ | _, NaN => NaN
  | PosInf, _ | NegInf, _ => NaN
  | Fin x, PosInf | Fin x, NegInf => Fin x
  | Fin x, Fin y =>
      if Qeq_bool y 0 then NaN
      else fin (x - y * inject_Z (Qtrunc (x / y)))
  end.

(** [a >= b] and [a > b]; every comparison with NaN is false. *)
Definition ge (a b : number) : bool :=
  match a, b with
  | NaN, _ | _, NaN => false
  | PosInf, _ => true
  | _, NegInf => true
  | NegInf, _ => false
  | _, PosInf => false
  | Fin x, Fin y => Qle_bool y x
  end.

Definition gt (a b : number) : bool :=
  match a, b with
  | NaN, _ | _, NaN => false
  | PosInf, PosInf => false
  | PosInf, _ => true
  | NegInf, _ => false
  | Fin _, NegInf => true
  | Fin _, PosInf => false
  | Fin x, Fin y => negb (Qle_bool x y)
  end.

Definition Math_floor (a : number) : number :=
  match a with
  | Fin q => ofZ (Qfloor q)
  | _ => a
  end.

(** [Math.round]: the nearest integer, a tie going up. *)
Definition Math_round (a : number) : number :=
  match a with
  | Fin q => ofZ (Qfloor (q + (1 # 2)))
  | _ => a
  end.

Definition Math_max (a b : number) : number :=
  match a, b with
  | NaN, _ | _, NaN => NaN
  | _, _ => if ge a b then a else b
  end.

(** *** Decimal digits *)

Definition isDigit (c : char) : bool := ((48 <=? c) && (c <=? 57))%N.

Definition digitVal (c : char) : Z := Z.of_N c - 48.

Definition digitsVal (ds : str) : Z :=
  fold_left (fun acc c => 10 * acc + digitVal c)%Z ds 0%Z.

Definition digitChar (d : Z) : char := Z.to_N (48 + d).

Fixpoint digitsOf (fuel : nat) (n : Z) : str :=
  match fuel with
  | O => []
  | S f =>
      if (n <? 10)%Z then [digitChar n]
      else digitsOf f (n / 10) ++ [digitChar (n mod 10)]
  end.

(** The decimal digits of a non-negative integer, without leading zeros. *)
Definition decimal (n : Z) : str :=
  digitsOf (S (Z.to_nat (Z.log2 n))) n.

(** Up to [fuel] digits of the fraction [r] (with [0 <= r < 1]). *)
Fixpoint fracDigits (fuel : nat) (r : Q) : str :=
  match fuel with
  | O => []
  | S f =>
      if Qeq_bool r 0 then []
      else let d := Qfloor (r * 10) in
           digitChar d :: fracDigits f (Qred (r * 10 - inject_Z d))
  end.

(** [String(x)], also the conversion inside a template literal.  An integer
    prints in plain decimal, which is what JavaScript does below 10^21; this
    is the only finite case [formatDuration] reaches, every number it prints
    being a result of [Math.floor].  For other finite values the model prints
    the exact expansion, cut after 20 fractional digits. *)
Definition ToString (x : number) : str :=
  match x with
  | NaN => lit "NaN"
  | PosInf => lit "Infinity"
  | NegInf => lit "-Infinity"
  | Fin q =>
      let a := Qabs q in
      let ip := Qfloor a in
      let fp := fracDigits 20 (Qred (a - inject_Z ip)) in
      (if Qle_bool 0 q then [] else lit "-")
        ++ decimal ip
        ++ match fp with [] => [] | _ => ch "." :: fp end
  end.

(** *** Numeric literals in strings *)

Definition isHexDigit (c : char) : bool :=
  (isDigit c || (65 <=? c) && (c <=? 70) || (97 <=? c) && (c <=? 102))%N.

Definition hexVal (c : char) : Z :=
  if isDigit c then digitVal c
  else if (c <=? 70)%N then Z.of_N c - 55
  else Z.of_N c - 87.

Definition radixVal (radix : Z) (ds : str) : Z :=
  fold_left (fun acc c => radix * acc + hexVal c)%Z ds 0%Z.

(** [ExponentPart]: [e] or [E], an optional sign, one digit or more.  An
    ill-formed exponent is not consumed. *)
Definition scanExponent (s : str) : Z * str :=
  match s with
  | e :: t =>
      if ((e =? 101) || (e =? 69))%N then
        let '(sg, u) :=
          match t with
          | c :: u =>
              if (c =? 43)%N then (1%Z, u)
              else if (c =? 45)%N then ((-1)%Z, u)
              else (1%Z, t)
          | [] => (1%Z, t)
          end in
        match takeWhile isDigit u with
        | [] => (0%Z, s)
        | ds => ((sg * digitsVal ds)%Z, dropWhile isDigit u)
        end
      else (0%Z, s)
  | [] => (0%Z, s)
  end.

(** The longest prefix that is a [StrUnsignedDecimalLiteral] other than
    [Infinity], with its value and what follows it. *)
Definition scanUnsignedDecimal (s : str) : option (Q * str) :=
  let ip := takeWhile isDigit s in
  let r1 := dropWhile isDigit s in
  let '(fp, r2) :=
    match r1 with
    | c :: t =>
        if (c =? 46)%N then (takeWhile isDigit t, dropWhile isDigit t)
        else ([], r1)
    | [] => ([], r1)
    end in
  match ip ++ fp with
  | [] => None
  | ds =>
      let '(e, r3) := scanExponent r2 in
      Some ((inject_Z (digitsVal ds)
             * Qpower (inject_Z 10) (e - Z.of_nat (length fp)))%Q, r3)
  end.

(** The longest prefix that is a [StrDecimalLiteral]. *)
Definition scanDecimal (s : str) : option (number * str) :=
  let '(neg, t) :=
    match s with
    | c :: u =>
        if (c =? 43)%N then (false, u)
        else if (c =? 45)%N then (true, u)
        else (false, s)
    | [] => (false, s)
    end in
  if isPrefix (lit "Infinity") t
  then Some (if neg then NegInf else PosInf, skipn 8 t)
  else match scanUnsignedDecimal t with
       | Some (q, r) => Some (fin (if neg then Qopp q else q), r)
       | None => None
       end.

(** [0x], [0o] and [0b] literals; they take no sign. *)
Definition radixLiteral (t : str) : option number :=
  match t with
  | z :: x :: ds =>
      if (z =? 48)%N then
        let lit_of (radix : Z) (ok : char -> bool) :=
          Some (match ds with
                | [] => NaN
                | _ => if forallb ok ds
                       then fin (inject_Z (radixVal radix ds)) else NaN
                end) in
        if ((x =? 120) || (x =? 88))%N then lit_of 16%Z isHexDigit
        else if ((x =? 111) || (x =? 79))%N
        then lit_of 8%Z (fun c => (48 <=? c) && (c <=? 55))%N
        else if ((x =? 98) || (x =? 66))%N
        then lit_of 2%Z (fun c => (48 <=? c) && (c <=? 49))%N
        else None
      else None
  | _ => None
  end.

(** [Number(s)] on a string: [StringToNumber]. *)
Definition Number (s : str) : number :=
  match trim s with
  | [] => Fin 0
  | t =>
      match radixLiteral t with
      | Some v => v
      | None =>
          match scanDecimal t with
          | Some (v, []) => v
          | _ => NaN
          end
      end
  end.

(** [parseFloat(s)]: the longest decimal literal at the start of [s]. *)
Definition parseFloat (s : str) : number :=
  match scanDecimal (trimStart s) with
  | Some (v, _) => v
  | None => NaN
  end.

End JS.

Import JS.

Declare Scope js_scope.
Delimit Scope js_scope with js.
Notation "a + b" := (JS.add a b) : js_scope.
Notation "a * b" := (JS.mul a b) : js_scope.
Notation "a / b" := (JS.div a b) : js_scope.
Notation "a 'mod' b" := (JS.rem a b) : js_scope.
Notation "a >= b" := (JS.ge a b) : js_scope.
Notation "a > b" := (JS.gt a b) : js_scope.

(** ** Regular expressions

    The three patterns of [downloadVideo] use literal characters, [\d], [.],
    the greedy quantifiers [+], [*] and [?] on one character, and one capture
    group.  [matchRe] is the backtracking matcher of ECMAScript for that
    fragment, in continuation-passing style: a greedy quantifier first tries to
    take one more character and falls back on the continuation. *)

Module Regex.

Inductive cls : Type :=
| Lit (c : char)
| DigitCls
| AnyCls.

Definition isLineTerminator (c : char) : bool :=
  ((c =? 10) || (c =? 13) || (c =? 8232) || (c =? 8233))%N.

Definition inCls (k : cls) (c : char) : bool :=
  match k with
  | Lit a => (c =? a)%N
  | DigitCls => isDigit c
  | AnyCls => negb (isLineTerminator c)
  end.

Inductive atom : Type :=
| One (k : cls)
| Opt (k : cls)
| Star (k : cls)
| Plus (k : cls).

Definition re := list atom.

Definition orElse {A} (a b : option A) : option A :=
  match a with
  | Some _ => a
  | None => b
  end.

Section Matcher.
Variable A : Type.

Fixpoint star (k : cls) (s : str) (cont : str -> option A) : option A :=
  match s with
  | c :: t => if inCls k c then orElse (star k t cont) (cont s) else cont s
  | [] => cont s
  end.

Fixpoint matchRe (r : re) (s : str) (cont : str -> option A) : option A :=
  match r with
  | [] => cont s
  | One k :: r' =>
      match s with
      | c :: t => if inCls k c then matchRe r' t cont else None
      | [] => None
      end
  | Opt k :: r' =>
      match s with
      | c :: t =>
          if inCls k c then orElse (matchRe r' t cont) (matchRe r' s cont)
          else matchRe r' s cont
      | [] => matchRe r' s cont
      end
  | Star k :: r' => star k s (fun s' => matchRe r' s' cont)
  | Plus k :: r' =>
      match s with
      | c :: t =>
          if inCls k c then star k t (fun s' => matchRe r' s' cont) else None
      | [] => None
      end
  end.
End Matcher.

Arguments star {A} k s cont.
Arguments matchRe {A} r s cont.

(** A pattern with one capture group: [before(group)after]. *)
Record pattern : Type := {
  before : re;
  group : re;
  after : re
}.

(** A match that starts at the first character of [s]; the result is the
    text of the capture group. *)
Definition matchAt (p : pattern) (s : str) : option str :=
  matchRe (before p) s (fun s1 =>
    matchRe (group p) s1 (fun s2 =>
      matchRe (after p) s2 (fun _ =>
        Some (firstn (length s1 - length s2) s1)))).

(** [s.match(p)], reduced to what the callers read: [None] for [null], and
    element 1 of the match array otherwise.  The leftmost start wins. *)
Fixpoint exec (p : pattern) (s : str) : option str :=
  match matchAt p s with
  | Some c => Some c
  | None =>
      match s with
      | [] => None
      | _ :: t => exec p t
      end
  end.

Definition lits (s : str) : re := map (fun c => One (Lit c)) s.

End Regex.

Import Regex.

(** [pctMatch]: a group of [\d+], [\.?] and [\d*] in sequence, then [%]. *)
Definition pctRe : pattern :=
  {| before := [];
     group := [Plus DigitCls; Opt (Lit (ch ".")); Star DigitCls];
     after := [One (Lit (ch "%"))] |}.

(** [/\[download\] Destination: (.+)/] *)
Definition destRe : pattern :=
  {| before := lits (lit "[download] Destination: ");
     group := [Plus AnyCls];
     after := [] |}.

Definition quote : char := 34%N.

(** [/\[Merger\] Merging formats into "(.+)"/] *)
Definition mergerRe : pattern :=
  {| before := lits (lit "[Merger] Merging formats into " ++ [quote]);
     group := [Plus AnyCls];
     after := [One (Lit quote)] |}.

(** ** path.join (POSIX) *)

Module Path.

Definition sep : char := ch "/".

Fixpoint intercalate (d : str) (l : list str) : str :=
  match l with
  | [] => []
  | [x] => x
  | x :: rest => x ++ d ++ intercalate d rest
  end.

(** One segment of [normalizeString]; [st] is the stack of kept segments,
    the last one first. *)
Definition pushSegment (allowAboveRoot : bool) (st : list str) (seg : str)
  : list str :=
  if str_eqb seg [] || str_eqb seg (lit ".") then st
  else if str_eqb seg (lit "..") then
    match st with
    | top :: below =>
        if str_eqb top (lit "..") then
          if allowAboveRoot then seg :: st else st
        else below
    | [] => if allowAboveRoot then [seg] else []
    end
  else seg :: st.

Definition normalizeString (path : str) (allowAboveRoot : bool) : str :=
  intercalate [sep]
    (rev (fold_left (pushSegment allowAboveRoot) (split sep path) [])).

Definition normalize (path : str) : str :=
  match path with
  | [] => lit "."
  | c :: _ =>
      let isAbsolute := (c =? sep)%N in
      let trailingSeparator := (last path 0 =? sep)%N in
      let p := normalizeString path (negb isAbsolute) in
      match p with
      | [] =>
          if isAbsolute then lit "/"
          else if trailingSeparator then lit "./" else lit "."
      | _ =>
          let p' := if trailingSeparator then p ++ [sep] else p in
          if isAbsolute then sep :: p' else p'
      end
  end.

Definition join (args : list str) : str :=
  match filter truthy args with
  | [] => lit "."
  | parts => normalize (intercalate [sep] parts)
  end.

End Path.

Import Path.

(** ** The world outside

    [existsSync] is a predicate on paths.  A child process is observed through
    the chunks of its combined output and the way its promise settles; it may
    leave the filesystem changed.  [execa] is any function of the filesystem
    and the command. *)

Definition filesystem := str -> bool.

Record command : Type := {
  file : str;
  args : list str;
  env : list (str * str)
}.

Record process : Type := {
  chunks : list str;
  (** [None]: exit status 0.  [Some e]: the promise rejects, [e] being
      [String] of the error. *)
  rejected : option str;
  fsAfter : filesystem
}.

Record host : Type := {
  execa : filesystem -> command -> process;
  homedir : str;
  (** [process.env.PATH] as a template literal renders it *)
  envPATH : str
}.

(** ** utils.ts *)

Module Utils.

Definition BREW_PATHS : list str :=
  [lit "/opt/homebrew/bin"; lit "/usr/local/bin"; lit "/usr/bin"].

Fixpoint firstIn (fs : filesystem) (dirs : list str) (name : str)
  : option str :=
  match dirs with
  | [] => None
  | dir :: rest =>
      let full := join [dir; name] in
      if fs full then Some full else firstIn fs rest name
  end.

Definition getBinPath (fs : filesystem) (name : str) : option str :=
  firstIn fs BREW_PATHS name.

Definition getBrewPath (fs : filesystem) : option str :=
  getBinPath fs (lit "brew").

Record DepsStatus : Type := {
  brew : bool;
  ytdlp : bool;
  ffmpeg : bool;
  brewPath : option str;
  ytdlpPath : option str;
  ffmpegPath : option str
}.

(** [!!x] and the test of [!x] for [x : string | null]: [null] and the empty
    string are falsy. *)
Definition notNot (x : option str) : bool :=
  match x with
  | Some p => truthy p
  | None => false
  end.

Definition checkDeps (fs : filesystem) : DepsStatus :=
  {| brew := notNot (getBrewPath fs);
     ytdlp := notNot (getBinPath fs (lit "yt-dlp"));
     ffmpeg := notNot (getBinPath fs (lit "ffmpeg"));
     brewPath := getBrewPath fs;
     ytdlpPath := getBinPath fs (lit "yt-dlp");
     ffmpegPath := getBinPath fs (lit "ffmpeg") |}.

Definition pathPrefix : str := lit "/opt/homebrew/bin:/usr/local/bin:/usr/bin:/bin:".

Definition newline : char := 10%N.

(** The [data] listener of [brewInstall] and [installHomebrew]: the lines
    handed to [onLine], in order. *)
Definition forwardLines (chunk : str) : list str :=
  map (fun l => slice0 100 (trim l)) (filter truthy (split newline chunk)).

(** What a call into the outside returns: the filesystem afterwards, the
    commands spawned, the calls of the line callback, and the error if the
    promise rejects. *)
Record installed : Type := {
  i_fs : filesystem;
  i_spawned : list command;
  i_lines : list str;
  i_error : option str
}.

Definition brewInstall (H : host) (fs : filesystem) (pkg : str) : installed :=
  match getBrewPath fs with
  | Some brew0 =>
      if truthy brew0 then
        let c := {| file := brew0;
                    args := [lit "install"; pkg];
                    env := [(lit "PATH", pathPrefix ++ envPATH H);
                            (lit "NONINTERACTIVE", lit "1");
                            (lit "CI", lit "1")] |} in
        let p := execa H fs c in
        {| i_fs := fsAfter p; i_spawned := [c];
           i_lines := flat_map forwardLines (chunks p);
           i_error := rejected p |}
      else {| i_fs := fs; i_spawned := []; i_lines := [];
              i_error := Some (lit "Error: Homebrew not found") |}
  | None => {| i_fs := fs; i_spawned := []; i_lines := [];
               i_error := Some (lit "Error: Homebrew not found") |}
  end.

Definition homebrewScript : str :=
  lit "$(curl -fsSL https://raw.githubusercontent.com/Homebrew/install/HEAD/install.sh)".

Definition homebrewCommand : command :=
  {| file := lit "/bin/bash";
     args := [lit "-c"; homebrewScript];
     env := [(lit "NONINTERACTIVE", lit "1"); (lit "CI", lit "1")] |}.

Definition installHomebrew (H : host) (fs : filesystem) : installed :=
  let p := execa H fs homebrewCommand in
  {| i_fs := fsAfter p; i_spawned := [homebrewCommand];
     i_lines := flat_map forwardLines (chunks p);
     i_error := rejected p |}.

Record DownloadOptions : Type := {
  url : str;
  startTime : option str;
  endTime : option str;
  format : str;
  quality : option str
}.

(** [x || d] for an optional string. *)
Definition orDefault (x : option str) (d : str) : str :=
  match x with
  | Some s => if truthy s then s else d
  | None => d
  end.

Definition formatArgs (opts : DownloadOptions) : list str :=
  if str_eqb (format opts) (lit "audio") then
    [lit "-x"; lit "--audio-format"; lit "mp3"; lit "--audio-quality"; lit "0"]
  else
    let h := match quality opts with
             | Some q =>
                 if truthy q && negb (str_eqb q (lit "best"))
                 then lit "[height<=" ++ q ++ lit "]"
                 else []
             | None => []
             end in
    [lit "-f";
     lit "bestvideo" ++ h ++ lit "[ext=mp4]+bestaudio[ext=m4a]/best" ++ h
       ++ lit "[ext=mp4]/best";
     lit "--merge-output-format"; lit "mp4"].

Definition hasStart (opts : DownloadOptions) : bool :=
  match startTime opts with
  | Some s => truthy s && negb (str_eqb s (lit "00:00"))
  | None => false
  end.

Definition hasEnd (opts : DownloadOptions) : bool := notNot (endTime opts).

Definition sectionArgs (opts : DownloadOptions) : list str :=
  if hasStart opts || hasEnd opts then
    let s := orDefault (startTime opts) (lit "0") in
    let e := orDefault (endTime opts) (lit "inf") in
    [lit "--download-sections"; lit "*" ++ s ++ lit "-" ++ e;
     lit "--force-keyframes-at-cuts"]
  else [].

Definition outDirOf (H : host) : str :=
  join [homedir H; lit "Downloads"; lit "clipity"].

Definition downloadArgs (H : host) (ffmpeg0 : str) (opts : DownloadOptions)
  : list str :=
  [lit "--no-playlist"; lit "--newline"; lit "-o";
   join [outDirOf H; lit "%(title)s.%(ext)s"];
   lit "--ffmpeg-location"; join [ffmpeg0; lit ".."]]
    ++ formatArgs opts ++ sectionArgs opts ++ [url opts].

(** The state of the [data] listener of [downloadVideo]: the calls of
    [onProgress] made so far, and [lastFile]. *)
Record scan : Type := {
  progress : list (number * str);
  lastFile : str
}.

Definition pctMatch (line : str) : option str := exec pctRe line.

Definition destMatch (line : str) : option str :=
  orElse (exec destRe line) (exec mergerRe line).

Definition scanLine (sc : scan) (line : str) : scan :=
  {| progress :=
       match pctMatch line with
       | Some c => progress sc ++ [(Math_round (parseFloat c), line)]
       | None => progress sc
       end;
     lastFile :=
       match destMatch line with
       | Some c => trim c
       | None => lastFile sc
       end |}.

Definition onData (sc : scan) (chunk : str) : scan :=
  fold_left scanLine (filter truthy (split newline chunk)) sc.

Record downloaded : Type := {
  d_fs : filesystem;
  d_spawned : list command;
  d_progress : list (number * str);
  (** [inl e]: the promise rejects; [inr path]: the returned path *)
  d_result : str + str
}.

(** The child process of [downloadVideo], once both binaries are found. *)
Definition downloadCommand (H : host) (ytdlp0 ffmpeg0 : str)
  (opts : DownloadOptions) : command :=
  {| file := ytdlp0;
     args := downloadArgs H ffmpeg0 opts;
     env := [(lit "PATH", pathPrefix ++ envPATH H)] |}.

Definition downloadVideo (H : host) (fs : filesystem) (opts : DownloadOptions)
  : downloaded :=
  let fail e := {| d_fs := fs; d_spawned := []; d_progress := [];
                   d_result := inl e |} in
  let ytdlp0 := getBinPath fs (lit "yt-dlp") in
  let ffmpeg0 := getBinPath fs (lit "ffmpeg") in
  if negb (notNot ytdlp0)
  then fail (lit "Error: yt-dlp not installed. Run the Setup command.")
  else if negb (notNot ffmpeg0)
  then fail (lit "Error: ffmpeg not installed. Run the Setup command.")
  else
    let outDir := outDirOf H in
    (* both are strings here, not null *)
    let c := downloadCommand H (orDefault ytdlp0 []) (orDefault ffmpeg0 [])
               opts in
    let p := execa H fs c in
    let sc := fold_left onData (chunks p) {| progress := []; lastFile := [] |} in
    {| d_fs := fsAfter p; d_spawned := [c]; d_progress := progress sc;
       d_result := match rejected p with
                   | Some e => inl e
                   | None => inr (orDefault (Some (lastFile sc)) outDir)
                   end |}.

(** Helpers *)

(** [formatDuration(secs)] *)
Definition formatDuration (secs : number) : str :=
  let h := Math_floor (secs / ofZ 3600)%js in
  let m := Math_floor ((secs mod ofZ 3600) / ofZ 60)%js in
  let s := Math_floor (secs mod ofZ 60)%js in
  if (h > ofZ 0)%js
  then ToString h ++ lit ":" ++ padStart 2 (lit "0") (ToString m)
         ++ lit ":" ++ padStart 2 (lit "0") (ToString s)
  else padStart 2 (lit "0") (ToString m)
         ++ lit ":" ++ padStart 2 (lit "0") (ToString s).

(** [parseTimeToSeconds(str)]; [null] is [None]. *)
Definition parseTimeToSeconds (s : str) : option number :=
  if negb (truthy (trim s)) then None
  else
    let parts := map Number (split (ch ":") (trim s)) in
    if existsb isNaN parts then None
    else match parts with
         | [a; b; c] => Some (a * ofZ 3600 + b * ofZ 60 + c)%js
         | [a; b] => Some (a * ofZ 60 + b)%js
         | _ => Some (nth 0 parts NaN)
         end.

(** [secondsToTimestamp(secs)] *)
Definition secondsToTimestamp (secs : number) : str :=
  formatDuration (Math_max (ofZ 0) secs).

(** The parse rule in the words of the specification: split on [:], the
    rightmost component is the seconds, the next the minutes, the next the
    hours; a non-numeric component, or an empty or blank string, gives no
    time.  A component is numeric when it is not blank and [Number] reads it
    as a number. *)
Definition numericComponent (c : str) : bool :=
  truthy (trim c) && negb (isNaN (Number c)).

Definition specParseTime (s : str) : option number :=
  if negb (truthy (trim s)) then None
  else
    let parts := split (ch ":") (trim s) in
    if forallb numericComponent parts then
      match rev (map Number parts) with
      | [] => None
      | [sec] => Some sec
      | [sec; mins] => Some (mins * ofZ 60 + sec)%js
      | sec :: mins :: hours :: _ =>
          Some (hours * ofZ 3600 + mins * ofZ 60 + sec)%js
      end
    else None.

End Utils.

Import Utils.

(** ** setup.tsx: the installer *)

Module Setup.

Inductive StepState : Type := idle | running | done | error | skipped.

Record StepStatus : Type := {
  state : StepState;
  log : str
}.

Record Steps : Type := {
  brew : StepStatus;
  ytdlp : StepStatus;
  ffmpeg : StepStatus
}.

Inductive StepKey : Type := kBrew | kYtdlp | kFfmpeg.

Definition IDLE : StepStatus := {| state := idle; log := [] |}.

Inductive ToastStyle : Type := Animated | Success | Failure.

Record Toast : Type := {
  style : ToastStyle;
  title : str;
  message : option str
}.

(** [Partial<StepStatus>] *)
Record Patch : Type := {
  p_state : option StepState;
  p_log : option str
}.

(** The component's React state, the toast [installAll] holds, and the world
    it acts on. *)
Record session : Type := {
  deps : option DepsStatus;
  installing : bool;
  steps : Steps;
  toast : option Toast;
  fs : filesystem;
  spawned : list command
}.

Definition ellipsis : str := [8230%N].

Definition patch (p : Patch) (st : StepStatus) : StepStatus :=
  {| state := match p_state p with Some x => x | None => state st end;
     log := match p_log p with Some l => l | None => log st end |}.

Definition step (key : StepKey) (p : Steps) : StepStatus :=
  match key with
  | kBrew => brew p
  | kYtdlp => ytdlp p
  | kFfmpeg => ffmpeg p
  end.

Definition setSteps (f : Steps -> Steps) (s : session) : session :=
  {| deps := deps s; installing := installing s; steps := f (steps s);
     toast := toast s; fs := fs s; spawned := spawned s |}.

Definition upd (key : StepKey) (pt : Patch) : session -> session :=
  setSteps (fun p =>
    match key with
    | kBrew => {| brew := patch pt (brew p); ytdlp := ytdlp p;
                  ffmpeg := ffmpeg p |}
    | kYtdlp => {| brew := brew p; ytdlp := patch pt (ytdlp p);
                   ffmpeg := ffmpeg p |}
    | kFfmpeg => {| brew := brew p; ytdlp := ytdlp p;
                    ffmpeg := patch pt (ffmpeg p) |}
    end).

Definition setInstalling (b : bool) (s : session) : session :=
  {| deps := deps s; installing := b; steps := steps s;
     toast := toast s; fs := fs s; spawned := spawned s |}.

Definition setDeps (d : DepsStatus) (s : session) : session :=
  {| deps := Some d; installing := installing s; steps := steps s;
     toast := toast s; fs := fs s; spawned := spawned s |}.

Definition showToast (t : Toast) (s : session) : session :=
  {| deps := deps s; installing := installing s; steps := steps s;
     toast := Some t; fs := fs s; spawned := spawned s |}.

(** Assignments to the fields of the toast. *)
Definition setToast (f : Toast -> Toast) (s : session) : session :=
  {| deps := deps s; installing := installing s; steps := steps s;
     toast := option_map f (toast s); fs := fs s; spawned := spawned s |}.

Definition toastMessage (m : str) : session -> session :=
  setToast (fun t => {| style := style t; title := title t;
                        message := Some m |}).

Definition toastFail (ttl msg : str) : session -> session :=
  setToast (fun _ => {| style := Failure; title := ttl; message := Some msg |}).

(** Awaiting an install: its process is spawned, each forwarded line is
    written to the log of the step, and the filesystem is as the process
    leaves it. *)
Definition await (key : StepKey) (r : installed) (s : session) : session :=
  let s' := fold_left
              (fun acc l => upd key {| p_state := None; p_log := Some l |} acc)
              (i_lines r) s in
  {| deps := deps s'; installing := installing s'; steps := steps s';
     toast := toast s'; fs := i_fs r; spawned := spawned s' ++ i_spawned r |}.

(** [return] inside the body of [installAll] ends it. *)
Inductive flow : Type :=
| Next (s : session)
| Return (s : session).

Definition andThen (f : flow) (k : session -> flow) : flow :=
  match f with
  | Next s => k s
  | Return s => Return s
  end.

Definition homebrewHint : str :=
  lit "Try: /bin/bash -c " ++ [quote] ++ homebrewScript ++ [quote].

(** The body of the outer [try].  Nothing in it throws outside the three
    inner [try] blocks, so the outer [catch] has no case in the model. *)
Definition installSteps (H : host) (s : session) : flow :=
  let freshDeps := checkDeps (fs s) in
  andThen
    (if Utils.brew freshDeps then
       Next (upd kBrew {| p_state := Some skipped; p_log := Some [] |} s)
     else
       let s := upd kBrew {| p_state := Some running;
                             p_log := Some (lit "Installing Homebrew" ++ ellipsis) |} s in
       let s := toastMessage (lit "Installing Homebrew" ++ ellipsis) s in
       let r := installHomebrew H (fs s) in
       let s := await kBrew r s in
       match i_error r with
       | None => Next (upd kBrew {| p_state := Some done; p_log := None |} s)
       | Some e =>
           let s := upd kBrew {| p_state := Some error; p_log := Some e |} s in
           let s := toastFail (lit "Homebrew install failed") homebrewHint s in
           Return (setInstalling false s)
       end)
  (fun s =>
  andThen
    (if Utils.ytdlp freshDeps then
       Next (upd kYtdlp {| p_state := Some skipped; p_log := None |} s)
     else
       let s := upd kYtdlp {| p_state := Some running;
                              p_log := Some (lit "Installing yt-dlp" ++ ellipsis) |} s in
       let s := toastMessage (lit "Installing yt-dlp" ++ ellipsis) s in
       let r := brewInstall H (fs s) (lit "yt-dlp") in
       let s := await kYtdlp r s in
       match i_error r with
       | None => Next (upd kYtdlp {| p_state := Some done; p_log := None |} s)
       | Some e =>
           let s := upd kYtdlp {| p_state := Some error; p_log := Some e |} s in
           let s := toastFail (lit "yt-dlp install failed")
                      (lit "Run: brew install yt-dlp") s in
           Return (setInstalling false s)
       end)
  (fun s =>
  andThen
    (if Utils.ffmpeg freshDeps then
       Next (upd kFfmpeg {| p_state := Some skipped; p_log := None |} s)
     else
       let s := upd kFfmpeg {| p_state := Some running;
                               p_log := Some (lit "Installing ffmpeg (takes a minute)"
                                                ++ ellipsis) |} s in
       let s := toastMessage (lit "Installing ffmpeg" ++ ellipsis) s in
       let r := brewInstall H (fs s) (lit "ffmpeg") in
       let s := await kFfmpeg r s in
       match i_error r with
       | None => Next (upd kFfmpeg {| p_state := Some done; p_log := None |} s)
       | Some e =>
           let s := upd kFfmpeg {| p_state := Some error; p_log := Some e |} s in
           let s := toastFail (lit "ffmpeg install failed")
                      (lit "Run: brew install ffmpeg") s in
           Return (setInstalling false s)
       end)
  (fun s =>
     let s := setToast (fun _ => {| style := Success; title := lit "All done!";
                                    message := Some (lit "clipity is ready to use") |}) s in
     Next (setDeps (checkDeps (fs s)) s)))).

Definition installAll (H : host) (s : session) : session :=
  let s := setInstalling true s in
  let s := setSteps (fun _ => {| brew := IDLE; ytdlp := IDLE; ffmpeg := IDLE |}) s in
  let s := showToast {| style := Animated;
                        title := lit "Installing dependencies" ++ ellipsis;
                        message := None |} s in
  match installSteps H s with
  | Return s' => s'
  | Next s' => setInstalling false s'
  end.

End Setup.

(** ** download.tsx: the submit handler of the trim form *)

Module Download.

Import Setup(ToastStyle, Animated, Success, Failure, Toast, style, title, message).

Record VideoInfo : Type := {
  v_title : str;
  v_duration : number;
  v_thumbnail : str;
  v_uploader : str;
  v_url : str
}.

Record FormValues : Type := {
  f_startTime : str;
  f_endTime : str;
  f_format : str
}.

(** The state of the form, the toasts shown (the last one first), and the
    world it acts on; [invoked] lists the calls of [downloadVideo]. *)
Record session : Type := {
  isDownloading : bool;
  progress : number;
  toasts : list Toast;
  huds : list str;
  popped : nat;
  invoked : list DownloadOptions;
  fs : filesystem;
  spawned : list command
}.

Definition setIsDownloading (b : bool) (s : session) : session :=
  {| isDownloading := b; progress := progress s; toasts := toasts s;
     huds := huds s; popped := popped s; invoked := invoked s;
     fs := fs s; spawned := spawned s |}.

Definition setProgress (n : number) (s : session) : session :=
  {| isDownloading := isDownloading s; progress := n; toasts := toasts s;
     huds := huds s; popped := popped s; invoked := invoked s;
     fs := fs s; spawned := spawned s |}.

Definition showToast (t : Toast) (s : session) : session :=
  {| isDownloading := isDownloading s; progress := progress s;
     toasts := t :: toasts s;
     huds := huds s; popped := popped s; invoked := invoked s;
     fs := fs s; spawned := spawned s |}.

Definition setToast (f : Toast -> Toast) (s : session) : session :=
  {| isDownloading := isDownloading s; progress := progress s;
     toasts := match toasts s with
               | t :: rest => f t :: rest
               | [] => []
               end;
     huds := huds s; popped := popped s; invoked := invoked s;
     fs := fs s; spawned := spawned s |}.

Definition showHUD (m : str) (s : session) : session :=
  {| isDownloading := isDownloading s; progress := progress s;
     toasts := toasts s;
     huds := huds s ++ [m]; popped := popped s; invoked := invoked s;
     fs := fs s; spawned := spawned s |}.

Definition pop (s : session) : session :=
  {| isDownloading := isDownloading s; progress := progress s;
     toasts := toasts s;
     huds := huds s; popped := S (popped s); invoked := invoked s;
     fs := fs s; spawned := spawned s |}.

(** The call of [downloadVideo] and what it does to the world. *)
Definition call (opts : DownloadOptions) (d : downloaded) (s : session)
  : session :=
  {| isDownloading := isDownloading s; progress := progress s;
     toasts := toasts s;
     huds := huds s; popped := popped s; invoked := invoked s ++ [opts];
     fs := d_fs d; spawned := spawned s ++ d_spawned d |}.

(** [x || undefined] *)
Definition orUndefined (x : str) : option str :=
  if truthy x then Some x else None.

Definition emDash : str := [8212%N].
Definition checkMark : str := [10003%N].

Definition invalidRange : Toast :=
  {| style := Failure; title := lit "Invalid trim range";
     message := Some (lit "Start time must be before end time") |}.

(** The [onProgress] callback that [handleSubmit] passes; [c] is its pair of
    arguments. *)
Definition onProgress (info : VideoInfo) (acc : session) (c : number * str)
  : session :=
  let pct := fst c in
  let acc := setProgress pct acc in
  setToast (fun t =>
    {| style := style t; title := title t;
       message := Some (ToString pct ++ lit "% " ++ emDash
                          ++ lit " " ++ slice0 40 (v_title info)) |})
    acc.

Definition handleSubmit (H : host) (info : VideoInfo) (values : FormValues)
  (s : session) : session :=
  let startSecs := parseTimeToSeconds (f_startTime values) in
  let endSecs := parseTimeToSeconds (f_endTime values) in
  if match startSecs, endSecs with
     | Some a, Some b => (a >= b)%js
     | _, _ => false
     end
  then showToast invalidRange s
  else
    let s := setIsDownloading true s in
    let s := setProgress (ofZ 0) s in
    let s := showToast {| style := Animated;
                          title := lit "Downloading" ++ Setup.ellipsis;
                          message := Some (slice0 60 (v_title info)) |} s in
    let opts := {| url := v_url info;
                   startTime := orUndefined (f_startTime values);
                   endTime := orUndefined (f_endTime values);
                   format := f_format values;
                   quality := None |} in
    let d := downloadVideo H (fs s) opts in
    let s := call opts d s in
    let s := fold_left (onProgress info) (d_progress d) s in
    let s :=
      match d_result d with
      | inr filePath =>
          let s := setToast (fun _ =>
                     {| style := Success; title := lit "Download complete!";
                        message := Some (lit "Saved to ~/Downloads/clipity/") |}) s in
          let s := showHUD (checkMark ++ lit " Downloaded to ~/Downloads/clipity/") s in
          pop s
      | inl e =>
          setToast (fun _ =>
            {| style := Failure; title := lit "Download failed";
               message := Some (slice0 120 e) |}) s
      end in
    setIsDownloading false s.

End Download.

(** ** setup.tsx: the rest of the view *)

Module SetupView.

Import Setup.

Inductive Icon : Type :=
| CheckCircle | CircleProgress50 | XMarkCircle | Circle
| DownloadIcon | Terminal.

Inductive Color : Type := Green | Blue | Red | SecondaryText.

(** [stepIcon(s)]: the icon and its tint. *)
Definition stepIcon (s : StepStatus) : Icon * Color :=
  match state s with
  | done | skipped => (CheckCircle, Green)
  | running => (CircleProgress50, Blue)
  | error => (XMarkCircle, Red)
  | idle => (Circle, SecondaryText)
  end.

Definition emDash : str := [8212%N].
Definition checkMark : str := [10003%N].

(** [stepSubtitle(s)] *)
Definition stepSubtitle (s : StepStatus) : str :=
  match state s with
  | running => if truthy (log s) then log s else lit "Working" ++ ellipsis
  | done => lit "Installed " ++ checkMark
  | skipped => lit "Already installed"
  | error => lit "Failed " ++ emDash ++ lit " " ++ log s
  | idle => lit "Waiting"
  end.

(** The argument of [installSingle], of type ["yt-dlp" | "ffmpeg"]. *)
Inductive Pkg : Type := YtDlp | Ffmpeg.

Definition pkgName (pkg : Pkg) : str :=
  match pkg with
  | YtDlp => lit "yt-dlp"
  | Ffmpeg => lit "ffmpeg"
  end.

Definition keyOf (pkg : Pkg) : StepKey :=
  match pkg with
  | YtDlp => kYtdlp
  | Ffmpeg => kFfmpeg
  end.

(** The line callback of [installSingle]: the log of the step, and the
    first 80 characters as the message of the toast. *)
Definition onLine (key : StepKey) (acc : session) (line : str) : session :=
  toastMessage (slice0 80 line)
    (upd key {| p_state := None; p_log := Some line |} acc).

Definition awaitSingle (key : StepKey) (r : installed) (s : session)
  : session :=
  let s' := fold_left (onLine key) (i_lines r) s in
  {| deps := deps s'; installing := installing s'; steps := steps s';
     toast := toast s'; fs := i_fs r; spawned := spawned s' ++ i_spawned r |}.

(** [installSingle(pkg)] *)
Definition installSingle (H : host) (pkg : Pkg) (s : session) : session :=
  let key := keyOf pkg in
  let s := setInstalling true s in
  let s := upd key {| p_state := Some running;
                      p_log := Some (lit "Installing " ++ pkgName pkg
                                       ++ ellipsis) |} s in
  let s := showToast {| style := Animated;
                        title := lit "Installing " ++ pkgName pkg ++ ellipsis;
                        message := Some (lit "This may take a moment") |} s in
  let r := brewInstall H (fs s) (pkgName pkg) in
  let s := awaitSingle key r s in
  let s :=
    match i_error r with
    | None =>
        let s := upd key {| p_state := Some done; p_log := None |} s in
        let s := setToast (fun _ =>
                   {| style := Success;
                      title := pkgName pkg ++ lit " installed!";
                      message := Some [] |}) s in
        setDeps (checkDeps (fs s)) s
    | Some e =>
        let s := upd key {| p_state := Some error; p_log := Some e |} s in
        setToast (fun _ =>
          {| style := Failure;
             title := lit "Failed to install " ++ pkgName pkg;
             message := Some (lit "Run manually: brew install "
                                ++ pkgName pkg) |}) s
    end in
  setInstalling false s.

(** The effect run on mount: [checkDeps().then(setDeps)]. *)
Definition onMount (s : session) : session := setDeps (checkDeps (fs s)) s.

(** What an action of an item does when it is chosen. *)
Inductive Handler : Type :=
| RunInstallAll
| RunInstallSingle (pkg : Pkg)
| OpenInBrowser (url : str)
| Open (target : str)
| CopyToClipboard (content : str).

(** A [List.Item]: its icon, title and subtitle, the text of its accessory,
    and the actions of its panel, each with its title. *)
Record Item : Type := {
  icon : Icon * Color;
  itemTitle : str;
  subtitle : str;
  accessory : option str;
  actions : list (str * Handler)
}.

(** What the component returns: the loading list, or the two sections. *)
Inductive View : Type :=
| Loading
| Sections (dependencies : list Item) (secondTitle : str) (second : list Item).

(** The status handed to [stepIcon] for a dependency. *)
Definition shownStep (present : bool) (st : StepStatus) : StepStatus :=
  if present then {| state := done; log := [] |}
  else match state st with
       | idle => {| state := idle; log := [] |}
       | _ => st
       end.

Definition brewItem (d : DepsStatus) (s : session) : Item :=
  {| icon := stepIcon (shownStep (Utils.brew d) (brew (steps s)));
     itemTitle := lit "Homebrew";
     subtitle := if Utils.brew d then lit "Already installed"
                 else stepSubtitle (brew (steps s));
     accessory := Some (if Utils.brew d then orDefault (brewPath d) []
                        else lit "Required");
     actions := if negb (Utils.brew d)
                then [(lit "Install Homebrew", RunInstallAll);
                      (lit "Open Homebrew Website",
                       OpenInBrowser (lit "https://brew.sh"))]
                else [] |}.

Definition toolItem (present : bool) (st : StepStatus) (installing0 : bool)
  (name about installTitle : str) (pkg : Pkg) : Item :=
  {| icon := stepIcon (shownStep present st);
     itemTitle := name;
     subtitle := if present then lit "Already installed"
                 else match installing0, state st with
                      | true, running => log st
                      | _, _ => about
                      end;
     accessory := Some (if present then checkMark else lit "Missing");
     actions := if negb present
                then [(installTitle, RunInstallSingle pkg);
                      (lit "Install Everything", RunInstallAll)]
                else [] |}.

Definition ytdlpItem (d : DepsStatus) (s : session) : Item :=
  toolItem (Utils.ytdlp d) (ytdlp (steps s)) (installing s)
    (lit "yt-dlp") (lit "Downloads videos from 1000+ sites")
    (lit "Install Yt-dlp") YtDlp.

Definition ffmpegItem (d : DepsStatus) (s : session) : Item :=
  toolItem (Utils.ffmpeg d) (ffmpeg (steps s)) (installing s)
    (lit "ffmpeg") (lit "Handles video trimming & conversion")
    (lit "Install Ffmpeg") Ffmpeg.

Definition installEverything : Item :=
  {| icon := (DownloadIcon, Blue);
     itemTitle := lit "Install Everything";
     subtitle := lit "Installs Homebrew, yt-dlp and ffmpeg automatically";
     accessory := None;
     actions := [(lit "Install All Dependencies", RunInstallAll)] |}.

Definition readyToUse : Item :=
  {| icon := (CheckCircle, Green);
     itemTitle := lit "Ready to use!";
     subtitle := lit "Open the Download Video command to get started";
     accessory := None;
     actions := [(lit "Open Download Command",
                  Open (lit "raycast://extensions/deanfyi/clipity/download"))] |}.

Definition manualInstall : Item :=
  {| icon := (Terminal, SecondaryText);
     itemTitle := lit "Manual install";
     subtitle := lit "brew install yt-dlp ffmpeg";
     accessory := None;
     actions := [(lit "Copy Command",
                  CopyToClipboard (lit "brew install yt-dlp ffmpeg"));
                 (lit "Open Terminal", Open (lit "terminal://"))] |}.

(** The render of the component. *)
Definition render (s : session) : View :=
  match deps s with
  | None => Loading
  | Some d =>
      let allGood := Utils.ytdlp d && Utils.ffmpeg d in
      Sections [brewItem d s; ytdlpItem d s; ffmpegItem d s]
        (if allGood then lit "All set!" else lit "Actions")
        ((if negb allGood then [installEverything] else [])
           ++ (if allGood then [readyToUse] else [])
           ++ [manualInstall])
  end.

End SetupView.

(** ** utils.ts: fetchVideoInfo

    The value [JSON.parse] returns is a JSON value; reading a property of it
    gives a JSON value or [undefined].  The parser itself and the text of
    the child's standard output come from outside. *)

Module Json.

Local Unset Elimination Schemes.

Inductive json : Type :=
| JNull
| JBool (b : bool)
| JNum (n : number)
| JStr (s : str)
| JArr (l : list json)
| JObj (members : list (str * json)).

Local Set Elimination Schemes.

(** The member of the last occurrence of a key, as [JSON.parse] keeps it. *)
Fixpoint lookup (key : str) (members : list (str * json)) : option json :=
  match members with
  | [] => None
  | (k, v) :: rest =>
      match lookup key rest with
      | Some v' => Some v'
      | None => if str_eqb k key then Some v else None
      end
  end.

(** [info.key] for one of the five keys the code reads, none of which is a
    property of a string, an array, a number or a boolean.  [None] is
    [undefined]; reading a property of [null] throws. *)
Definition get (info : json) (key : str) : str + option json :=
  match info with
  | JNull =>
      inl (lit "TypeError: Cannot read properties of null (reading '"
             ++ key ++ lit "')")
  | JObj members => inr (lookup key members)
  | _ => inr None
  end.

Definition truthyJ (v : option json) : bool :=
  match v with
  | None => false
  | Some JNull => false
  | Some (JBool b) => b
  | Some (JNum n) =>
      match n with
      | NaN => false
      | Fin q => negb (Qeq_bool q 0)
      | _ => true
      end
  | Some (JStr s) => truthy s
  | Some (JArr _) | Some (JObj _) => true
  end.

(** [a || b] *)
Definition orJ (a b : option json) : option json :=
  if truthyJ a then a else b.

End Json.

Module Fetch.

Import Json.

(** The outside of [fetchVideoInfo]: the host, the standard output of the
    child once it has exited with status 0, and [JSON.parse], which returns
    a value or throws ([inl], with [String] of the error). *)
Record fetcher : Type := {
  base : host;
  stdoutOf : filesystem -> command -> str;
  JSON_parse : str -> str + json
}.

(** The record [fetchVideoInfo] returns.  Its first four fields hold what
    the JSON holds, whatever its type. *)
Record VideoInfo : Type := {
  title : option json;
  duration : option json;
  thumbnail : option json;
  uploader : option json;
  url : str
}.

Record fetched : Type := {
  f_fs : filesystem;
  f_spawned : list command;
  (** [inl e]: the promise rejects; [inr info]: the descriptor *)
  f_result : str + VideoInfo
}.

Definition fetchCommand (F : fetcher) (ytdlp0 url0 : str) : command :=
  {| file := ytdlp0;
     args := [lit "--dump-json"; lit "--no-playlist"; url0];
     env := [(lit "PATH", pathPrefix ++ envPATH (base F))] |}.

Definition describe (info : json) (url0 : str) : str + VideoInfo :=
  match get info (lit "title") with
  | inl e => inl e
  | inr t =>
      match get info (lit "duration"), get info (lit "thumbnail"),
            get info (lit "uploader"), get info (lit "channel") with
      | inr d, inr th, inr u, inr c =>
          inr {| title := orJ t (Some (JStr (lit "Untitled")));
                 duration := orJ d (Some (JNum (ofZ 0)));
                 thumbnail := orJ th (Some (JStr []));
                 uploader := orJ (orJ u c) (Some (JStr []));
                 url := url0 |}
      | inl e, _, _, _ => inl e
      | _, inl e, _, _ => inl e
      | _, _, inl e, _ => inl e
      | _, _, _, inl e => inl e
      end
  end.

(** [fetchVideoInfo(url)] *)
Definition fetchVideoInfo (F : fetcher) (fs : filesystem) (url0 : str)
  : fetched :=
  match getBinPath fs (lit "yt-dlp") with
  | Some ytdlp0 =>
      if truthy ytdlp0 then
        let c := fetchCommand F ytdlp0 url0 in
        let p := execa (base F) fs c in
        {| f_fs := fsAfter p; f_spawned := [c];
           f_result :=
             match rejected p with
             | Some e => inl e
             | None =>
                 match JSON_parse F (stdoutOf F fs c) with
                 | inl e => inl e
                 | inr info => describe info url0
                 end
             end |}
      else {| f_fs := fs; f_spawned := [];
              f_result := inl (lit "Error: yt-dlp not installed. Run the Setup command first.") |}
  | None => {| f_fs := fs; f_spawned := [];
               f_result := inl (lit "Error: yt-dlp not installed. Run the Setup command first.") |}
  end.

End Fetch.

(** ** download.tsx: the URL entry view *)

Module DownloadView.

Import Setup(ToastStyle, Animated, Success, Failure, Toast, style, title, message).

(** The state of the view, the toasts shown (the last one first, each with
    whether it is still visible), the forms pushed, and the world. *)
Record session : Type := {
  searchText : str;
  isFetching : bool;
  depsOk : option bool;
  videoInfo : option Fetch.VideoInfo;
  toasts : list (Toast * bool);
  pushed : list Fetch.VideoInfo;
  fs : filesystem;
  spawned : list command
}.

Definition setSearchText (t : str) (s : session) : session :=
  {| searchText := t; isFetching := isFetching s; depsOk := depsOk s;
     videoInfo := videoInfo s; toasts := toasts s; pushed := pushed s;
     fs := fs s; spawned := spawned s |}.

Definition setIsFetching (b : bool) (s : session) : session :=
  {| searchText := searchText s; isFetching := b; depsOk := depsOk s;
     videoInfo := videoInfo s; toasts := toasts s; pushed := pushed s;
     fs := fs s; spawned := spawned s |}.

Definition setDepsOk (b : bool) (s : session) : session :=
  {| searchText := searchText s; isFetching := isFetching s;
     depsOk := Some b;
     videoInfo := videoInfo s; toasts := toasts s; pushed := pushed s;
     fs := fs s; spawned := spawned s |}.

Definition setVideoInfo (i : Fetch.VideoInfo) (s : session) : session :=
  {| searchText := searchText s; isFetching := isFetching s;
     depsOk := depsOk s;
     videoInfo := Some i; toasts := toasts s; pushed := pushed s;
     fs := fs s; spawned := spawned s |}.

Definition showToast (t : Toast) (s : session) : session :=
  {| searchText := searchText s; isFetching := isFetching s;
     depsOk := depsOk s;
     videoInfo := videoInfo s; toasts := (t, true) :: toasts s;
     pushed := pushed s; fs := fs s; spawned := spawned s |}.

(** Assignments to the last toast, and [toast.hide()]. *)
Definition setToast (f : Toast * bool -> Toast * bool) (s : session)
  : session :=
  {| searchText := searchText s; isFetching := isFetching s;
     depsOk := depsOk s;
     videoInfo := videoInfo s;
     toasts := match toasts s with
               | t :: rest => f t :: rest
               | [] => []
               end;
     pushed := pushed s; fs := fs s; spawned := spawned s |}.

Definition push (i : Fetch.VideoInfo) (s : session) : session :=
  {| searchText := searchText s; isFetching := isFetching s;
     depsOk := depsOk s;
     videoInfo := videoInfo s; toasts := toasts s;
     pushed := pushed s ++ [i]; fs := fs s; spawned := spawned s |}.

(** The call of [fetchVideoInfo] and what it does to the world. *)
Definition call (r : Fetch.fetched) (s : session) : session :=
  {| searchText := searchText s; isFetching := isFetching s;
     depsOk := depsOk s;
     videoInfo := videoInfo s; toasts := toasts s; pushed := pushed s;
     fs := Fetch.f_fs r; spawned := spawned s ++ Fetch.f_spawned r |}.

(** [s.startsWith("http://") || s.startsWith("https://")] *)
Definition isUrl (t : str) : bool :=
  isPrefix (lit "http://") t || isPrefix (lit "https://") t.

(** The effect run on mount; [clip] is what [Clipboard.readText()] gives. *)
Definition onMount (clip : option str) (s : session) : session :=
  let deps := checkDeps (fs s) in
  let s := setDepsOk (Utils.ytdlp deps && Utils.ffmpeg deps) s in
  match clip with
  | Some c => if truthy c && isUrl c then setSearchText c s else s
  | None => s
  end.

Definition depsMissing : Toast :=
  {| style := Failure; title := lit "Dependencies missing";
     message := Some (lit "Run the 'Setup clipity' command first") |}.

(** [handleFetch(url)] *)
Definition handleFetch (F : Fetch.fetcher) (url0 : str) (s : session)
  : session :=
  if negb (truthy (trim url0)) || isFetching s then s
  else if negb (match depsOk s with Some b => b | None => false end)
  then showToast depsMissing s
  else
    let s := setIsFetching true s in
    let s := showToast {| style := Animated;
                          title := lit "Fetching video info" ++ Setup.ellipsis;
                          message := None |} s in
    let r := Fetch.fetchVideoInfo F (fs s) (trim url0) in
    let s := call r s in
    let s :=
      match Fetch.f_result r with
      | inr info =>
          let s := setToast (fun t => (fst t, false)) s in
          let s := setVideoInfo info s in
          push info s
      | inl e =>
          setToast (fun t =>
            ({| style := Failure; title := lit "Could not fetch video";
                message := Some (slice0 120 e) |}, snd t)) s
      end in
    setIsFetching false s.

Definition noUrlInClipboard : Toast :=
  {| style := Failure; title := lit "No URL in clipboard";
     message := Some (lit "Copy a video URL first") |}.

(** The action "Paste URL and Fetch" of a supported site; [clip] is what
    [Clipboard.readText()] gives. *)
Definition pasteAndFetch (F : Fetch.fetcher) (clip : option str) (s : session)
  : session :=
  match clip with
  | Some c =>
      if truthy c then handleFetch F c (setSearchText c s)
      else showToast noUrlInClipboard s
  | None => showToast noUrlInClipboard s
  end.

End DownloadView.

(** ** Sample worlds *)

(** The filesystem that holds exactly the listed paths. *)
Definition fsOf (paths : list str) : filesystem :=
  fun p => existsb (str_eqb p) paths.

Definition intelMac : filesystem :=
  fsOf [lit "/usr/local/bin/brew"; lit "/usr/local/bin/yt-dlp";
        lit "/usr/local/bin/ffmpeg"; lit "/usr/bin/ffmpeg"].

Definition bareMac : filesystem := fsOf [].

(** A host whose child processes print [out] and settle as [res]. *)
Definition hostPrinting (out : list str) (res : option str) : host :=
  {| execa := fun fs _ => {| chunks := out; rejected := res; fsAfter := fs |};
     homedir := lit "/Users/dean";
     envPATH := lit "/usr/bin:/bin" |}.

(** The trim form and the setup view as they are first shown. *)
Definition freshForm (fs : filesystem) : Download.session :=
  {| Download.isDownloading := false; Download.progress := ofZ 0;
     Download.toasts := []; Download.huds := []; Download.popped := 0;
     Download.invoked := []; Download.fs := fs; Download.spawned := [] |}.

Definition freshSetup (fs : filesystem) : Setup.session :=
  {| Setup.deps := None; Setup.installing := false;
     Setup.steps := {| Setup.brew := Setup.IDLE; Setup.ytdlp := Setup.IDLE;
                       Setup.ffmpeg := Setup.IDLE |};
     Setup.toast := None; Setup.fs := fs; Setup.spawned := [] |}.

Definition aVideo : Download.VideoInfo :=
  {| Download.v_title := lit "A video"; Download.v_duration := ofZ 212;
     Download.v_thumbnail := []; Download.v_uploader := lit "someone";
     Download.v_url := lit "https://example.com/v" |}.

(** A fetcher whose child resolves with the standard output [text], which
    the parser reads as [out]. *)
Definition fetcherGiving (text : string) (out : str + Json.json)
  : Fetch.fetcher :=
  {| Fetch.base := hostPrinting [lit text] None;
     Fetch.stdoutOf := fun _ _ => lit text;
     Fetch.JSON_parse := fun _ => out |}.

(** A machine with yt-dlp and without ffmpeg, and the URL entry view as it
    is first shown. *)
Definition noFfmpeg : filesystem := fsOf [lit "/opt/homebrew/bin/yt-dlp"].

Definition freshView (fs : filesystem) : DownloadView.session :=
  {| DownloadView.searchText := []; DownloadView.isFetching := false;
     DownloadView.depsOk := None; DownloadView.videoInfo := None;
     DownloadView.toasts := []; DownloadView.pushed := [];
     DownloadView.fs := fs; DownloadView.spawned := [] |}.

(** A machine with Homebrew alone, and a host whose child processes print
    nothing, resolve, and leave the filesystem of [intelMac] behind. *)
Definition brewOnly : filesystem := fsOf [lit "/usr/local/bin/brew"].

Definition hostInstalling : host :=
  {| execa := fun _ _ => {| chunks := []; rejected := None;
                            fsAfter := intelMac |};
     homedir := lit "/Users/dean";
     envPATH := lit "/usr/bin:/bin" |}.

(** ** Vocabulary of the statements *)

(** Case analysis on every comparison in sight. *)
Ltac bools :=
  repeat match goal with
    | H : context [(?a <=? ?b)%N] |- _ => destruct (N.leb_spec a b)
    | |- context [(?a <=? ?b)%N] => destruct (N.leb_spec a b)
    | H : context [(?a =? ?b)%N] |- _ => destruct (N.eqb_spec a b)
    | |- context [(?a =? ?b)%N] => destruct (N.eqb_spec a b)
    end;
  simpl in *; try reflexivity; try discriminate; try lia.

(** Settles each comparison of the goal from the bounds in the context. *)
Ltac cmps :=
  repeat match goal with
    | |- context [(?a <=? ?b)%N] =>
        first [ replace (a <=? b)%N with true
                  by (symmetry; apply N.leb_le; lia)
              | replace (a <=? b)%N with false
                  by (symmetry; apply N.leb_gt; lia) ]
    | |- context [(?a =? ?b)%N] =>
        first [ replace (a =? b)%N with false
                  by (symmetry; apply N.eqb_neq; lia)
              | replace (a =? b)%N with true
                  by (symmetry; apply N.eqb_eq; lia) ]
    end.

(** A string of decimal digits. *)
Definition digits (s : str) : Prop := Forall (fun c => isDigit c = true) s.

(** The text of a number below 100 on two digits. *)
Definition twoDigits (m : Z) : str := [digitChar (m / 10); digitChar (m mod 10)].

(** The characters that occur in some numeric literal. *)
Definition numericChar (c : char) : bool :=
  isHexDigit c
  || existsb (N.eqb c) (lit "+-.xXoOInity").

(** The result of a scanner leaves a rest of [s], and what it has taken
    are characters of numeric literals. *)
Definition consumes {A} (s : str) (res : A * str) : Prop :=
  exists pre, s = pre ++ snd res
              /\ Forall (fun c => numericChar c = true) pre.

(** The components of a time string. *)
Definition components (s : str) : list str := split (ch ":") (trim s).

(** A name that is one path segment and no dot entry. *)
Definition plainName (name : str) : Prop :=
  name <> [] /\ ~ In sep name /\ name <> lit "." /\ name <> lit "..".

Definition givenStart (opts : DownloadOptions) : Prop :=
  exists s, startTime opts = Some s /\ s <> [] /\ s <> lit "00:00".

Definition givenEnd (opts : DownloadOptions) : Prop :=
  exists e, endTime opts = Some e /\ e <> [].

Definition oneLine (s : str) : Prop :=
  Forall (fun c => isLineTerminator c = false) s.

(** The listener of [downloadVideo] before any line. *)
Definition noCalls : scan := {| progress := []; lastFile := [] |}.

(** The lines [downloadVideo] scans, in order, over all chunks. *)
Definition linesOf (cs : list str) : list str :=
  flat_map (fun c => filter truthy (split newline c)) cs.

Definition blankDestination : list str :=
  [lit "[download] Destination:  " ++ [newline]].

Definition someVideo : DownloadOptions :=
  {| url := lit "https://example.com/v"; startTime := None; endTime := None;
     format := lit "video"; quality := None |}.

Definition mergedOutput : list str :=
  [lit "[download] Destination: /Users/dean/Downloads/clipity/a.f137.mp4"
     ++ [newline] ++ lit "[download] 100% of 3.00MiB" ++ [newline];
   lit "[Merger] Merging formats into " ++ [quote]
     ++ lit "/Users/dean/Downloads/clipity/a.mp4" ++ [quote] ++ [newline]].

Definition dot : char := ch ".".
Definition percent : char := ch "%".

(** What [pctRe] matches at the start of [s]: the longest run of digits,
    then either [%], or a dot, the longest run of digits, and [%]. *)
Definition pctAt (s : str) : option str :=
  match takeWhile isDigit s with
  | [] => None
  | d1 =>
      match dropWhile isDigit s with
      | c :: t =>
          if (c =? percent)%N then Some d1
          else if (c =? dot)%N then
            match dropWhile isDigit t with
            | c2 :: _ =>
                if (c2 =? percent)%N
                then Some (d1 ++ dot :: takeWhile isDigit t)
                else None
            | [] => None
            end
          else None
      | [] => None
      end
  end.

(** What follows the first run of digits in [pctRe], in front of the
    continuation [K]. *)
Definition afterDigits (K : str -> option str) (s' : str) : option str :=
  matchRe [Opt (Lit dot); Star DigitCls] s' K.

(** The value of the decimal [d1.d2]. *)
Definition decimalValue (d1 d2 : str) : Q :=
  (inject_Z (digitsVal (d1 ++ d2))
   * Qpower (inject_Z 10) (- Z.of_nat (length d2)))%Q.

(** Digits, optionally followed by a dot and further digits (possibly
    none), with the value they denote. *)
Inductive pctText : str -> Q -> Prop :=
| pct_whole d :
    digits d -> d <> [] -> pctText d (decimalValue d [])
| pct_point d1 d2 :
    digits d1 -> d1 <> [] -> digits d2 ->
    pctText (d1 ++ dot :: d2) (decimalValue d1 d2).

(** No percentage starts at one of the first [n] positions of the line. *)
Definition noPctBefore (n : nat) (line : str) : bool :=
  forallb (fun k => match pctAt (skipn k line) with
                    | Some _ => false
                    | None => true
                    end) (seq 0 n).

(** No percentage of the line starts before the end of [pre]. *)
Definition firstPct (pre line : str) : Prop :=
  forall pre' c' v' post',
    line = pre' ++ c' ++ percent :: post' -> pctText c' v' ->
    (length pre <= length pre')%nat.

Definition containsPct (line : str) : Prop :=
  exists pre c v post, line = pre ++ c ++ percent :: post /\ pctText c v.

Definition progressBar : str := lit "[download]  42.5% of 10.00MiB at 1.00MiB/s".

Definition longLine : str :=
  lit "[download]  50.0% of 10.00MiB at 1.00MiB/s ETA 00:05 " ++ repeat 46%N 70.

Definition brewOutput : list str :=
  [lit "==> Downloading yt-dlp" ++ [newline; newline] ++ lit "  "
     ++ repeat 35%N 120 ++ [newline]].

Definition earlyEnd : Download.FormValues :=
  {| Download.f_startTime := lit "00:10"; Download.f_endTime := lit "00:05";
     Download.f_format := lit "video" |}.

Definition properRange : Download.FormValues :=
  {| Download.f_startTime := lit "00:05"; Download.f_endTime := lit "00:10";
     Download.f_format := lit "video" |}.

(** An end that is above the start by the rounding of its product alone,
    and two times that differ by one second and are the same binary64. *)
Definition roundedEnd : Download.FormValues :=
  {| Download.f_startTime := lit "252"; Download.f_endTime := lit "0.07:0:0";
     Download.f_format := lit "video" |}.

Definition largeTimes : Download.FormValues :=
  {| Download.f_startTime := lit "9007199254740992";
     Download.f_endTime := lit "9007199254740993";
     Download.f_format := lit "video" |}.

Definition curlFailure : str :=
  lit "Error: Command failed with exit code 1: /bin/bash -c".

Definition skippedStep : Setup.StepStatus :=
  {| Setup.state := Setup.skipped; Setup.log := [] |}.

(** The request [handleSubmit] builds from the form. *)
Definition requestOf (info : Download.VideoInfo) (values : Download.FormValues)
  : DownloadOptions :=
  {| url := Download.v_url info;
     startTime := Download.orUndefined (Download.f_startTime values);
     endTime := Download.orUndefined (Download.f_endTime values);
     format := Download.f_format values;
     quality := None |}.

(** The validation of [handleSubmit] lets the request through. *)
Definition passes (values : Download.FormValues) : Prop :=
  match parseTimeToSeconds (Download.f_startTime values),
        parseTimeToSeconds (Download.f_endTime values) with
  | Some a, Some b => (a >= b)%js = false
  | _, _ => True
  end.

Definition zeroStart : Download.FormValues :=
  {| Download.f_startTime := lit "00:00"; Download.f_endTime := [];
     Download.f_format := lit "mp3" |}.

Definition blankStart : Download.FormValues :=
  {| Download.f_startTime := lit "  "; Download.f_endTime := lit "00:30";
     Download.f_format := lit "video" |}.

(** A command [installAll] has reason to spawn, given the status found by its
    check at the start: the bootstrap when Homebrew was missing, an install
    of yt-dlp or of ffmpeg when that tool was missing. *)
Definition demanded (d : DepsStatus) (c : command) : Prop :=
  (c = homebrewCommand /\ Utils.brew d = false)
  \/ (args c = [lit "install"; lit "yt-dlp"] /\ Utils.ytdlp d = false)
  \/ (args c = [lit "install"; lit "ffmpeg"] /\ Utils.ffmpeg d = false).

(** A step that needs nothing more. *)
Definition finished (st : Setup.StepState) : Prop :=
  st = Setup.done \/ st = Setup.skipped.

(** The shape the three blocks of [installSteps] share: the step is skipped
    when the tool was found; otherwise it is set running, the install is
    awaited, and the step ends done, or in error with a failure toast and a
    return. *)
Definition stage (key : Setup.StepKey) (present : bool) (skip : Setup.Patch)
  (runLog toastMsg : str) (install : filesystem -> installed)
  (failTitle failMsg : str) (s : Setup.session) : Setup.flow :=
  if present then Setup.Next (Setup.upd key skip s)
  else
    let s := Setup.upd key {| Setup.p_state := Some Setup.running;
                              Setup.p_log := Some runLog |} s in
    let s := Setup.toastMessage toastMsg s in
    let r := install (Setup.fs s) in
    let s := Setup.await key r s in
    match i_error r with
    | None => Setup.Next (Setup.upd key {| Setup.p_state := Some Setup.done;
                                           Setup.p_log := None |} s)
    | Some e =>
        let s := Setup.upd key {| Setup.p_state := Some Setup.error;
                                  Setup.p_log := Some e |} s in
        let s := Setup.toastFail failTitle failMsg s in
        Setup.Return (Setup.setInstalling false s)
    end.

(** The handlers a view offers, over all its items. *)
Definition offered (v : SetupView.View) : list SetupView.Handler :=
  match v with
  | SetupView.Loading => []
  | SetupView.Sections rows _ acts =>
      flat_map (fun it => map snd (SetupView.actions it)) (rows ++ acts)
  end.

(** A binary64 value of magnitude below [2^53] with at most 52 binary
    digits after the point: every binary64 of magnitude from 1 up to
    [2^53], and the multiples of [2^-52] below 1, zero among them. *)
Definition smallDouble (q : Q) : Prop :=
  exists M j,
    (Z.abs M < 2 ^ 53)%Z /\ (0 <= j <= 52)%Z
    /\ (q == M # Z.to_pos (2 ^ j))%Q.

(** A number that is neither NaN nor negative. *)
Definition nonNegative (x : number) : Prop :=
  x = PosInf \/ exists q, x = Fin q /\ (0 <= q)%Q.

(** * Properties *)

(** ** Strings *)

Lemma dropWhile_head p c t : p c = false -> dropWhile p (c :: t) = c :: t.
Proof. intros E. simpl. now rewrite E. Qed.

Lemma dropWhile_none p s :
  Forall (fun c => p c = false) s -> dropWhile p s = s.
Proof. intros F. destruct F; [reflexivity | now apply dropWhile_head]. Qed.

Lemma trim_none s :
  Forall (fun c => isWhiteSpace c = false) s -> trim s = s.
Proof.
  intros F. unfold trim, trimEnd, trimStart.
  rewrite (dropWhile_none _ _ F), dropWhile_none.
  - apply rev_involutive.
  - now apply Forall_rev.
Qed.

Lemma takeWhile_app p a r :
  Forall (fun c => p c = true) a ->
  takeWhile p (a ++ r) = a ++ takeWhile p r.
Proof.
  induction 1 as [|c a E _ IH]; simpl; [reflexivity|].
  now rewrite E, IH.
Qed.

Lemma dropWhile_app p a r :
  Forall (fun c => p c = true) a ->
  dropWhile p (a ++ r) = dropWhile p r.
Proof.
  induction 1 as [|c a E _ IH]; simpl; [reflexivity|].
  now rewrite E.
Qed.

Lemma takeWhile_all p a :
  Forall (fun c => p c = true) a -> takeWhile p a = a.
Proof.
  intros F. rewrite <- (app_nil_r a) at 1.
  rewrite (takeWhile_app _ _ _ F). simpl. apply app_nil_r.
Qed.

Lemma dropWhile_all p a :
  Forall (fun c => p c = true) a -> dropWhile p a = [].
Proof.
  intros F. rewrite <- (app_nil_r a). now rewrite (dropWhile_app _ _ _ F).
Qed.

Lemma split_nonempty sep s : split sep s <> [].
Proof.
  destruct s as [|c t]; simpl; [discriminate|].
  destruct (c =? sep)%N; [discriminate|].
  destruct (split sep t); discriminate.
Qed.

Lemma split_without sep a :
  ~ In sep a -> split sep a = [a].
Proof.
  induction a as [|c a IH]; simpl; intros N; [reflexivity|].
  destruct (N.eqb_spec c sep) as [->|_]; [tauto|].
  rewrite IH by tauto. reflexivity.
Qed.

Lemma split_app sep a b :
  ~ In sep a -> split sep (a ++ sep :: b) = a :: split sep b.
Proof.
  induction a as [|c a IH]; simpl; intros N.
  - now rewrite N.eqb_refl.
  - destruct (N.eqb_spec c sep) as [->|_]; [tauto|].
    rewrite IH by tauto. reflexivity.
Qed.

(** ** Decimal digits *)

Lemma isDigit_range c : isDigit c = true <-> (48 <= c <= 57)%N.
Proof. unfold isDigit. split; intros; bools. Qed.

Lemma digit_not_space c : isDigit c = true -> isWhiteSpace c = false.
Proof.
  rewrite isDigit_range. intros R. unfold isWhiteSpace. cmps. reflexivity.
Qed.

Lemma digitsVal_snoc a c :
  digitsVal (a ++ [c]) = (10 * digitsVal a + digitVal c)%Z.
Proof. unfold digitsVal. now rewrite fold_left_app. Qed.

Lemma digitChar_digit d :
  (0 <= d < 10)%Z -> isDigit (digitChar d) = true /\ digitVal (digitChar d) = d.
Proof.
  intros R. unfold digitChar, digitVal. split.
  - apply isDigit_range. lia.
  - lia.
Qed.

Lemma digitsOf_S f n :
  digitsOf (S f) n =
  if (n <? 10)%Z then [digitChar n]
  else digitsOf f (n / 10) ++ [digitChar (n mod 10)].
Proof. reflexivity. Qed.

Lemma digitsOf_spec fuel : forall n,
  (0 <= n < 2 ^ Z.of_nat (S fuel))%Z ->
  digits (digitsOf (S fuel) n) /\ digitsVal (digitsOf (S fuel) n) = n
  /\ digitsOf (S fuel) n <> [].
Proof.
  induction fuel as [|f IH]; intros n R;
    rewrite digitsOf_S; destruct (Z.ltb_spec n 10) as [L|G].
  - destruct (digitChar_digit n) as [D V]; [lia|].
    repeat split; [repeat constructor; exact D | | discriminate].
    unfold digitsVal. simpl. lia.
  - simpl in R. lia.
  - destruct (digitChar_digit n) as [D V]; [lia|].
    repeat split; [repeat constructor; exact D | | discriminate].
    unfold digitsVal. simpl. lia.
  - assert (B : (0 <= n / 10 < 2 ^ Z.of_nat (S f))%Z).
    { rewrite (Nat2Z.inj_succ (S f)), Z.pow_succ_r in R by lia.
      split; [apply Z.div_pos; lia|].
      apply Z.div_lt_upper_bound; lia. }
    destruct (IH _ B) as (D & V & _).
    destruct (digitChar_digit (n mod 10)) as [D' V'].
    { apply Z.mod_pos_bound. lia. }
    repeat split.
    + apply Forall_app. split; [exact D|]. repeat constructor. exact D'.
    + rewrite digitsVal_snoc, V, V'. symmetry. apply Z.div_mod. lia.
    + intros E. apply app_eq_nil in E. destruct E; discriminate.
Qed.

Lemma decimal_spec n :
  (0 <= n)%Z ->
  digits (decimal n) /\ digitsVal (decimal n) = n /\ decimal n <> [].
Proof.
  intros P. apply digitsOf_spec. split; [exact P|].
  rewrite Nat2Z.inj_succ, Z2Nat.id by apply Z.log2_nonneg.
  destruct (Z.eq_dec n 0) as [->|N]; [reflexivity|].
  apply Z.log2_spec. lia.
Qed.

(** One digit below ten, two digits below a hundred. *)
Lemma decimal_small n :
  (0 <= n < 10)%Z -> decimal n = [digitChar n].
Proof.
  intros R. unfold decimal. simpl.
  destruct (Z.ltb_spec n 10); [reflexivity | lia].
Qed.

Lemma decimal_two n :
  (10 <= n < 100)%Z ->
  decimal n = [digitChar (n / 10); digitChar (n mod 10)].
Proof.
  intros R. unfold decimal.
  assert (L : (3 <= Z.log2 n)%Z) by (apply Z.log2_le_pow2; simpl; lia).
  destruct (Z.to_nat (Z.log2 n)) as [|k] eqn:E; [lia|].
  simpl. destruct (Z.ltb_spec n 10); [lia|].
  destruct (Z.ltb_spec (n / 10) 10) as [_|G]; [reflexivity|].
  exfalso. assert (n / 10 < 10)%Z by (apply Z.div_lt_upper_bound; lia). lia.
Qed.

(** ** Rounding to binary64 *)

Lemma pow2_pos k : (0 < 2 ^ Z.max k 0)%Z.
Proof. apply Z.pow_pos_nonneg; lia. Qed.

Lemma pow2le_shift a b n d :
  (0 <= a)%Z -> (0 <= b)%Z ->
  pow2le (a - b) n d = (d * 2 ^ a <=? n * 2 ^ b)%Z.
Proof.
  intros A B. unfold pow2le.
  destruct (Z.le_gt_cases b a) as [L|G].
  - replace (Z.max (a - b) 0) with (a - b)%Z by lia.
    replace (Z.max (- (a - b)) 0) with 0%Z by lia.
    replace a with ((a - b) + b)%Z at 2 by lia.
    rewrite Z.pow_add_r by lia.
    assert (P : (0 < 2 ^ b)%Z) by (apply Z.pow_pos_nonneg; lia).
    rewrite Z.pow_0_r, Z.mul_1_r, Z.mul_assoc.
    destruct (Z.leb_spec (d * 2 ^ (a - b)) n),
             (Z.leb_spec (d * 2 ^ (a - b) * 2 ^ b) (n * 2 ^ b));
      try reflexivity; nia.
  - replace (Z.max (a - b) 0) with 0%Z by lia.
    replace (Z.max (- (a - b)) 0) with (b - a)%Z by lia.
    replace b with ((b - a) + a)%Z at 2 by lia.
    rewrite Z.pow_add_r by lia.
    assert (P : (0 < 2 ^ a)%Z) by (apply Z.pow_pos_nonneg; lia).
    rewrite Z.pow_0_r, Z.mul_1_r, Z.mul_assoc.
    destruct (Z.leb_spec d (n * 2 ^ (b - a))),
             (Z.leb_spec (d * 2 ^ a) (n * 2 ^ (b - a) * 2 ^ a));
      try reflexivity; nia.
Qed.

(** [pow2le] through an offset [c] large enough. *)
Lemma pow2le_offset e c n d :
  (0 <= c)%Z -> (0 <= e + c)%Z ->
  pow2le e n d = (d * 2 ^ (e + c) <=? n * 2 ^ c)%Z.
Proof.
  intros C E. rewrite <- (pow2le_shift (e + c) c) by assumption.
  f_equal. lia.
Qed.

Lemma pow2le_mono e1 e2 n d :
  (0 < d)%Z -> (e1 <= e2)%Z -> pow2le e2 n d = true -> pow2le e1 n d = true.
Proof.
  intros D L. set (c := (Z.abs e1 + Z.abs e2)%Z).
  rewrite (pow2le_offset e1 c), (pow2le_offset e2 c) by lia.
  rewrite !Z.leb_le. intros H.
  assert (M : (2 ^ (e1 + c) <= 2 ^ (e2 + c))%Z)
    by (apply Z.pow_le_mono_r; lia).
  nia.
Qed.

Lemma pow2le_scale k e n d :
  (0 < k)%Z -> pow2le e (k * n) (k * d) = pow2le e n d.
Proof.
  intros K. unfold pow2le. rewrite <- !Z.mul_assoc.
  destruct (Z.leb_spec (d * 2 ^ Z.max e 0) (n * 2 ^ Z.max (- e) 0)),
           (Z.leb_spec (k * (d * 2 ^ Z.max e 0)) (k * (n * 2 ^ Z.max (- e) 0)));
    try reflexivity; nia.
Qed.

Lemma ilog2_spec n d :
  (0 < n)%Z -> (0 < d)%Z ->
  pow2le (ilog2 n d) n d = true /\ pow2le (ilog2 n d + 1) n d = false.
Proof.
  intros N D.
  destruct (Z.log2_spec n N) as [Ln Un].
  destruct (Z.log2_spec d D) as [Ld Ud].
  pose proof (Z.log2_nonneg n) as Pn. pose proof (Z.log2_nonneg d) as Pd.
  set (ln := Z.log2 n) in *. set (ld := Z.log2 d) in *.
  rewrite Z.pow_succ_r in Un, Ud by assumption.
  assert (Pln : (0 < 2 ^ ln)%Z) by (apply Z.pow_pos_nonneg; lia).
  assert (Pld : (0 < 2 ^ ld)%Z) by (apply Z.pow_pos_nonneg; lia).
  assert (Lo : pow2le (ln - ld - 1) n d = true).
  { replace (ln - ld - 1)%Z with (ln - (ld + 1))%Z by lia.
    rewrite pow2le_shift by lia. apply Z.leb_le.
    rewrite Z.pow_add_r by lia. change (2 ^ 1)%Z with 2%Z. nia. }
  assert (Hi : pow2le (ln - ld + 1) n d = false).
  { replace (ln - ld + 1)%Z with ((ln + 1) - ld)%Z by lia.
    rewrite pow2le_shift by lia. apply Z.leb_gt.
    rewrite Z.pow_add_r by lia. change (2 ^ 1)%Z with 2%Z. nia. }
  unfold ilog2. fold ln ld.
  destruct (pow2le (ln - ld) n d) eqn:E.
  - split; [exact E | exact Hi].
  - split; [exact Lo|]. replace (ln - ld - 1 + 1)%Z with (ln - ld)%Z by lia.
    exact E.
Qed.

Lemma ilog2_unique n d e :
  (0 < n)%Z -> (0 < d)%Z ->
  pow2le e n d = true -> pow2le (e + 1) n d = false -> ilog2 n d = e.
Proof.
  intros N D T F. destruct (ilog2_spec n d N D) as [T' F'].
  destruct (Z.lt_trichotomy (ilog2 n d) e) as [L|[E|G]]; [|exact E|].
  - rewrite (pow2le_mono (ilog2 n d + 1) e n d D ltac:(lia) T) in F'.
    discriminate.
  - rewrite (pow2le_mono (e + 1) (ilog2 n d) n d D ltac:(lia) T') in F.
    discriminate.
Qed.

Lemma ilog2_scale k n d :
  (0 < k)%Z -> (0 < n)%Z -> (0 < d)%Z -> ilog2 (k * n) (k * d) = ilog2 n d.
Proof.
  intros K N D. destruct (ilog2_spec n d N D) as [T F].
  apply ilog2_unique; try nia; now rewrite pow2le_scale.
Qed.

Lemma divHalfEven_spec n d :
  (0 < d)%Z ->
  let m := divHalfEven n d in
  (2 * n - d <= 2 * d * m <= 2 * n + d)%Z.
Proof.
  intros D. cbv zeta. unfold divHalfEven.
  pose proof (Z.div_mod n d ltac:(lia)) as E.
  pose proof (Z.mod_pos_bound n d D) as B.
  destruct (Z.compare_spec (2 * (n mod d)) d); [destruct (Z.even _)| |]; nia.
Qed.

Lemma divHalfEven_exact k d : (0 < d)%Z -> divHalfEven (k * d) d = k.
Proof.
  intros D. unfold divHalfEven.
  rewrite Z.div_mul, Z.mod_mul by lia.
  destruct (Z.compare_spec (2 * 0) d); lia.
Qed.

Lemma divHalfEven_scale k n d :
  (0 < k)%Z -> (0 < d)%Z -> divHalfEven (k * n) (k * d) = divHalfEven n d.
Proof.
  intros K D. unfold divHalfEven.
  rewrite Z.div_mul_cancel_l, Z.mul_mod_distr_l by lia.
  destruct (Z.compare_spec (2 * (n mod d)) d),
           (Z.compare_spec (2 * (k * (n mod d))) (k * d));
    try reflexivity; nia.
Qed.

Lemma round64_unfold q :
  round64 q =
  if (Z.abs (Qnum q) =? 0)%Z then Fin 0
  else roundPos (Qnum q) (Z.abs (Qnum q)) (Zpos (Qden q)).
Proof. reflexivity. Qed.

Lemma roundPos_scale k sg n d :
  (0 < k)%Z -> (0 < n)%Z -> (0 < d)%Z ->
  roundPos sg (k * n) (k * d) = roundPos sg n d.
Proof.
  intros K N D. unfold roundPos. rewrite (ilog2_scale k n d K N D).
  rewrite <- !Z.mul_assoc, divHalfEven_scale; [reflexivity | exact K|].
  apply Z.mul_pos_pos; [exact D | apply pow2_pos].
Qed.

Lemma roundPos_sign sg sg' n d :
  Z.sgn sg = Z.sgn sg' -> roundPos sg n d = roundPos sg' n d.
Proof.
  intros E. unfold roundPos. rewrite E.
  replace (0 <? sg)%Z with (0 <? sg')%Z; [reflexivity|].
  destruct sg, sg'; simpl in *; try reflexivity; discriminate.
Qed.

Lemma round64_comp q q' : (q == q')%Q -> round64 q = round64 q'.
Proof.
  destruct q as [a b], q' as [a' b']. unfold Qeq. cbn [Qnum Qden]. intros E.
  rewrite !round64_unfold. cbn [Qnum Qden].
  destruct (Z.eqb_spec (Z.abs a) 0) as [Z0|N0];
    destruct (Z.eqb_spec (Z.abs a') 0) as [Z0'|N0']; try reflexivity;
    try (exfalso; nia).
  assert (S : Z.sgn a = Z.sgn a') by nia.
  rewrite (roundPos_sign a a' _ _ S).
  rewrite <- (roundPos_scale (Zpos b') a' (Z.abs a) (Zpos b)) by lia.
  rewrite <- (roundPos_scale (Zpos b) a' (Z.abs a') (Zpos b')) by lia.
  f_equal; nia.
Qed.

(** Integers up to [2^53] in magnitude are binary64 values. *)

Lemma round64_small_int z :
  (Z.abs z < 2 ^ 53)%Z -> round64 (inject_Z z) = ofZ z.
Proof.
  intros B. rewrite round64_unfold. unfold inject_Z, ofZ. cbn [Qnum Qden].
  destruct (Z.eqb_spec (Z.abs z) 0) as [Z0|N0].
  { replace z with 0%Z by lia. reflexivity. }
  set (n := Z.abs z) in *. assert (N : (0 < n)%Z) by lia.
  unfold roundPos.
  assert (E : ilog2 n 1 = Z.log2 n).
  { unfold ilog2. change (Z.log2 1) with 0%Z. rewrite Z.sub_0_r.
    pose proof (Z.log2_nonneg n).
    replace (pow2le (Z.log2 n) n 1) with true; [reflexivity|].
    symmetry. unfold pow2le.
    replace (Z.max (Z.log2 n) 0) with (Z.log2 n) by lia.
    replace (Z.max (- Z.log2 n) 0) with 0%Z by lia.
    apply Z.leb_le. destruct (Z.log2_spec n N). lia. }
  rewrite E.
  assert (L : (0 <= Z.log2 n < 53)%Z).
  { split; [apply Z.log2_nonneg|]. apply Z.log2_lt_pow2; lia. }
  replace (Z.max (Z.log2 n - 52) (-1074)) with (Z.log2 n - 52)%Z by lia.
  replace (Z.max (Z.log2 n - 52) 0) with 0%Z by lia.
  replace (Z.max (- (Z.log2 n - 52)) 0) with (52 - Z.log2 n)%Z by lia.
  set (dn := (2 ^ (52 - Z.log2 n))%Z).
  assert (Pd : (0 < dn)%Z) by (apply Z.pow_pos_nonneg; lia).
  rewrite Z.pow_0_r, !Z.mul_1_r.
  assert (X : divHalfEven (n * dn) 1 = (n * dn)%Z).
  { rewrite <- (Z.mul_1_r (n * dn)) at 1. apply divHalfEven_exact. lia. }
  rewrite X.
  replace (2 ^ 1024 * dn <=? n * dn)%Z with false.
  2:{ symmetry. apply Z.leb_gt.
      assert (2 ^ 53 < 2 ^ 1024)%Z by (apply Z.pow_lt_mono_r; lia). nia. }
  f_equal.
  assert (Q : ((Z.sgn z * (n * dn) # Z.to_pos dn) == z # 1)%Q).
  { unfold Qeq. cbn [Qnum Qden]. rewrite Z2Pos.id by exact Pd.
    unfold n. nia. }
  rewrite (Qred_complete _ _ Q). apply Qcanon.Qred_identity.
  simpl. apply Z.gcd_1_r.
Qed.

Lemma round64_int z :
  (Z.abs z <= 2 ^ 53)%Z -> round64 (inject_Z z) = ofZ z.
Proof.
  intros B. destruct (Z.eq_dec (Z.abs z) (2 ^ 53)) as [E|N].
  - destruct (Z.abs_eq_or_opp z) as [A|A]; rewrite A in E.
    + subst z. vm_compute. reflexivity.
    + replace z with (- 2 ^ 53)%Z by lia. vm_compute. reflexivity.
  - apply round64_small_int. lia.
Qed.

(** A fraction [M / 2^j] with [M < 2^53] is a binary64 value. *)
Lemma round64_dyadic M j :
  (0 <= M < 2 ^ 53)%Z -> (0 <= j <= 1074)%Z ->
  round64 (M # Z.to_pos (2 ^ j)) = Fin (Qred (M # Z.to_pos (2 ^ j))).
Proof.
  intros BM Bj. rewrite round64_unfold. cbn [Qnum Qden].
  assert (Pj : (0 < 2 ^ j)%Z) by (apply Z.pow_pos_nonneg; lia).
  rewrite Z2Pos.id by exact Pj.
  destruct (Z.eqb_spec (Z.abs M) 0) as [Z0|N0].
  { replace M with 0%Z by lia.
    now rewrite (Qred_complete (0 # Z.to_pos (2 ^ j)) 0). }
  rewrite Z.abs_eq by lia. assert (N : (0 < M)%Z) by lia.
  destruct (Z.log2_spec M N) as [Ll Lu].
  pose proof (Z.log2_nonneg M) as Ln.
  assert (L : (Z.log2 M < 53)%Z) by (apply Z.log2_lt_pow2; lia).
  set (l := Z.log2 M) in *.
  assert (E : ilog2 M (2 ^ j) = (l - j)%Z).
  { apply ilog2_unique; try assumption.
    - rewrite pow2le_shift by lia. apply Z.leb_le. nia.
    - replace (l - j + 1)%Z with ((l + 1) - j)%Z by lia.
      rewrite pow2le_shift by lia. apply Z.leb_gt.
      replace (l + 1)%Z with (Z.succ l) by lia. nia. }
  unfold roundPos. rewrite E.
  set (g := Z.max (l - j - 52) (-1074)).
  assert (G : (g <= - j)%Z) by (unfold g; lia).
  replace (Z.max g 0) with 0%Z by lia.
  replace (Z.max (- g) 0) with (- g)%Z by lia.
  rewrite Z.pow_0_r, !Z.mul_1_r.
  set (c := (2 ^ (- g - j))%Z).
  assert (Pc : (0 < c)%Z) by (apply Z.pow_pos_nonneg; lia).
  assert (Dc : (2 ^ (- g) = c * 2 ^ j)%Z).
  { unfold c. rewrite <- Z.pow_add_r by lia. f_equal. lia. }
  rewrite Dc. replace (M * (c * 2 ^ j))%Z with ((M * c) * 2 ^ j)%Z by ring.
  rewrite divHalfEven_exact by exact Pj.
  replace (2 ^ 1024 * (c * 2 ^ j) <=? M * c)%Z with false.
  2:{ symmetry. apply Z.leb_gt.
      assert (2 ^ 53 < 2 ^ 1024)%Z by (apply Z.pow_lt_mono_r; lia). nia. }
  f_equal. apply Qred_complete. unfold Qeq. cbn [Qnum Qden].
  rewrite !Z2Pos.id by nia. replace (Z.sgn M) with 1%Z by lia. ring.
Qed.

(** Rounding does not cross a point of a coarse dyadic grid: when [n/d]
    lies in the cell [[p/2^t, (p+1)/2^t)] and [n * 2^t < 2^53], so does its
    binary64. *)

Lemma roundPos_grid sg n d t p :
  (0 < n)%Z -> (0 < d)%Z -> (0 <= t)%Z ->
  (n * 2 ^ t < 2 ^ 53)%Z -> (d * 2 ^ t <= 2 ^ 1074)%Z ->
  (p * d <= n * 2 ^ t < (p + 1) * d)%Z ->
  exists m dn : Z,
    (0 < dn)%Z
    /\ roundPos sg n d = Fin (Qred (Z.sgn sg * m # Z.to_pos dn))
    /\ (p * dn <= m * 2 ^ t < (p + 1) * dn)%Z.
Proof.
  intros N D T Bn Bd [Lo Hi].
  assert (Pt : (0 < 2 ^ t)%Z) by (apply Z.pow_pos_nonneg; lia).
  destruct (ilog2_spec n d N D) as [El Eu].
  set (e := ilog2 n d) in *.
  (* the exponent is small *)
  assert (Ee : (e <= 52 - t)%Z).
  { destruct (Z.le_gt_cases e (52 - t)) as [L|G]; [exact L|exfalso].
    assert (X : pow2le (53 - t) n d = true)
      by (apply (pow2le_mono _ e); [exact D | lia | exact El]).
    rewrite (pow2le_offset (53 - t) t) in X by lia.
    apply Z.leb_le in X. replace (53 - t + t)%Z with 53%Z in X by lia. nia. }
  unfold roundPos. fold e.
  set (g := Z.max (e - 52) (-1074)).
  assert (Tb : (t <= 1074)%Z).
  { destruct (Z.le_gt_cases t 1074) as [L|G]; [exact L|exfalso].
    assert (2 ^ 1074 < 2 ^ t)%Z by (apply Z.pow_lt_mono_r; lia). nia. }
  assert (Gt : (g <= - t)%Z) by (unfold g; lia).
  replace (Z.max g 0) with 0%Z by lia.
  replace (Z.max (- g) 0) with (- g)%Z by lia.
  rewrite Z.pow_0_r, !Z.mul_1_r.
  set (dn := (2 ^ (- g))%Z).
  assert (Pd : (0 < dn)%Z) by (apply Z.pow_pos_nonneg; lia).
  set (c := (2 ^ (- g - t))%Z).
  assert (Pc : (0 < c)%Z) by (apply Z.pow_pos_nonneg; lia).
  assert (Dc : dn = (2 ^ t * c)%Z).
  { unfold dn, c. rewrite <- Z.pow_add_r by lia. f_equal. lia. }
  pose proof (divHalfEven_spec (n * dn) d D) as M. cbv zeta in M.
  set (m := divHalfEven (n * dn) d) in *.
  (* the half unit is below the distance to the next grid point *)
  assert (Small : (d < 2 * c)%Z).
  { unfold g in *. destruct (Z.max_spec (e - 52) (-1074)) as [[_ Eg]|[_ Eg]].
    - (* subnormal range *)
      assert (C : c = (2 ^ (1074 - t))%Z) by (unfold c; f_equal; lia).
      assert (X : (2 ^ 1074 = 2 ^ t * 2 ^ (1074 - t))%Z).
      { rewrite <- Z.pow_add_r by lia. f_equal. lia. }
      rewrite <- C in X. nia.
    - (* normal range: 2^e <= n/d *)
      rewrite (pow2le_offset e (52 - e)) in El by lia.
      apply Z.leb_le in El. replace (e + (52 - e))%Z with 52%Z in El by lia.
      assert (C : (2 ^ (52 - e) = c * 2 ^ t)%Z).
      { unfold c. rewrite <- Z.pow_add_r by lia. f_equal. lia. }
      change (2 ^ 53)%Z with (2 * 2 ^ 52)%Z in Bn.
      assert (P52 : (0 < 2 ^ 52)%Z) by reflexivity.
      nia. }
  assert (Up : (m < (p + 1) * c)%Z) by nia.
  assert (Dn : (p * c <= m)%Z) by nia.
  exists m, dn. split; [exact Pd|]. split.
  - replace (2 ^ 1024 * dn <=? m)%Z with false; [reflexivity|].
    symmetry. apply Z.leb_gt.
    assert (P53 : (p < 2 ^ 53)%Z) by nia.
    assert (2 ^ 53 < 2 ^ 1024)%Z by (apply Z.pow_lt_mono_r; lia).
    nia.
  - nia.
Qed.

(** ** Numbers with an integer value *)

Lemma fin_comp q q' : (q == q')%Q -> fin q = fin q'.
Proof. exact (round64_comp q q'). Qed.

Lemma fin_inject q z :
  (Z.abs z <= 2 ^ 53)%Z -> (q == inject_Z z)%Q -> fin q = ofZ z.
Proof.
  intros B E. unfold fin. rewrite (round64_comp _ _ E). now apply round64_int.
Qed.

Lemma add_ofZ a b :
  (Z.abs (a + b) <= 2 ^ 53)%Z -> (ofZ a + ofZ b)%js = ofZ (a + b).
Proof. intros B. apply fin_inject; [exact B|]. rewrite inject_Z_plus. reflexivity. Qed.

Lemma mul_ofZ a b :
  (Z.abs (a * b) <= 2 ^ 53)%Z -> (ofZ a * ofZ b)%js = ofZ (a * b).
Proof. intros B. apply fin_inject; [exact B|]. rewrite inject_Z_mult. reflexivity. Qed.

Lemma inject_Z_nonzero b : (b <> 0)%Z -> Qeq_bool (inject_Z b) 0 = false.
Proof.
  intros N. destruct (Qeq_bool (inject_Z b) 0) eqn:E; [|reflexivity].
  apply Qeq_bool_iff in E. unfold Qeq in E. simpl in E. lia.
Qed.

(** The binary64 of a positive fraction with a numerator below [2^53], in
    a cell of the grid of step [1/2^t]. *)
Lemma fin_grid n d t p :
  (0 < n)%Z -> (0 < d)%Z -> (0 <= t)%Z ->
  (n * 2 ^ t < 2 ^ 53)%Z -> (d * 2 ^ t <= 2 ^ 1074)%Z ->
  (p * d <= n * 2 ^ t < (p + 1) * d)%Z ->
  exists m dn : Z,
    (0 < dn)%Z
    /\ fin (n # Z.to_pos d) = Fin (Qred (m # Z.to_pos dn))
    /\ (p * dn <= m * 2 ^ t < (p + 1) * dn)%Z.
Proof.
  intros N D T Bn Bd C. unfold fin. rewrite round64_unfold. cbn [Qnum Qden].
  rewrite Z2Pos.id by exact D.
  destruct (Z.eqb_spec (Z.abs n) 0) as [Z0|_]; [lia|].
  rewrite Z.abs_eq by lia.
  destruct (roundPos_grid n n d t p N D T Bn Bd C) as (m & dn & Pd & E & G).
  exists m, dn. split; [exact Pd|]. split; [|exact G].
  rewrite E. replace (Z.sgn n) with 1%Z by lia. now rewrite Z.mul_1_l.
Qed.

Lemma Qfloor_make m dn : (0 < dn)%Z -> Qfloor (m # Z.to_pos dn) = (m / dn)%Z.
Proof. intros P. unfold Qfloor. now rewrite Z2Pos.id. Qed.

(** [Math.floor] of a quotient of integers is their integer quotient: the
    rounding of the division does not reach the next integer. *)
Lemma floor_div_ofZ a b :
  (0 <= a < 2 ^ 53)%Z -> (0 < b <= 2 ^ 53)%Z ->
  Math_floor (ofZ a / ofZ b)%js = ofZ (a / b).
Proof.
  intros A B. cbv beta iota delta [div ofZ].
  rewrite (inject_Z_nonzero b) by lia.
  assert (E : (inject_Z a / inject_Z b == a # Z.to_pos b)%Q).
  { unfold Qeq, Qdiv, Qmult, Qinv, inject_Z. destruct b as [|pb|pb]; try lia.
    cbn [Qnum Qden Z.to_pos]. lia. }
  rewrite (fin_comp _ _ E).
  destruct (Z.eq_dec a 0) as [->|NA].
  { rewrite Z.div_0_l by lia. reflexivity. }
  pose proof (Z.div_mod a b ltac:(lia)) as Dm.
  pose proof (Z.mod_pos_bound a b ltac:(lia)) as Mb.
  assert (P1074 : (2 ^ 53 <= 2 ^ 1074)%Z) by (apply Z.pow_le_mono_r; lia).
  destruct (fin_grid a b 0 (a / b)) as (m & dn & Pd & -> & Lo & Hi);
    rewrite ?Z.pow_0_r, ?Z.mul_1_r in *; try lia.
  unfold Math_floor.
  rewrite (Qfloor_comp _ _ (Qred_correct _)), Qfloor_make by exact Pd.
  unfold ofZ. do 2 f_equal. symmetry.
  apply (Z.div_unique_pos m dn (a / b) (m - dn * (a / b))); lia.
Qed.

Lemma Qtrunc_div a b :
  (0 <= a)%Z -> (0 < b)%Z -> Qtrunc (inject_Z a / inject_Z b) = (a / b)%Z.
Proof.
  intros A B. destruct b as [|p|p]; try lia.
  unfold Qtrunc, Qdiv, Qinv, Qmult, inject_Z. simpl Qnum. simpl Qden.
  rewrite Z.mul_1_r. apply Z.quot_div_nonneg; lia.
Qed.

Lemma rem_ofZ a b :
  (0 <= a <= 2 ^ 53)%Z -> (0 < b)%Z -> (ofZ a mod ofZ b)%js = ofZ (a mod b).
Proof.
  intros A B. cbv beta iota delta [rem ofZ].
  rewrite inject_Z_nonzero by lia.
  pose proof (Z.mod_pos_bound a b B) as Mb.
  pose proof (Z.mod_le a b ltac:(lia) B) as Ml.
  apply (fin_inject _ (a mod b)); [lia|].
  rewrite Qtrunc_div by lia.
  rewrite Z.mod_eq by lia.
  unfold Z.sub, Qminus.
  rewrite inject_Z_plus, inject_Z_opp, inject_Z_mult. reflexivity.
Qed.

Lemma gt_ofZ a b : (ofZ a > ofZ b)%js = (b <? a)%Z.
Proof.
  unfold gt, ofZ, Qle_bool. simpl. rewrite !Z.mul_1_r.
  destruct (Z.leb_spec a b), (Z.ltb_spec b a); simpl; try reflexivity; lia.
Qed.

Lemma ge_ofZ a b : (ofZ a >= ofZ b)%js = (b <=? a)%Z.
Proof. unfold ge, ofZ, Qle_bool. simpl. now rewrite !Z.mul_1_r. Qed.

Lemma fracDigits_zero f r : (r == 0)%Q -> fracDigits (S f) r = [].
Proof.
  intros E. cbn [fracDigits]. apply Qeq_bool_iff in E. now rewrite E.
Qed.

Lemma ToString_ofZ n : (0 <= n)%Z -> ToString (ofZ n) = decimal n.
Proof.
  intros P. unfold ToString, ofZ.
  assert (A : Qabs (inject_Z n) = inject_Z n).
  { unfold Qabs, inject_Z. now rewrite Z.abs_eq. }
  rewrite A, Qfloor_Z.
  rewrite fracDigits_zero by (rewrite Qred_correct; ring).
  assert (L : Qle_bool 0 (inject_Z n) = true).
  { apply Qle_bool_iff. unfold Qle, inject_Z, Qnum, Qden. lia. }
  rewrite L. cbv beta iota. rewrite app_nil_r. reflexivity.
Qed.

(** ** Number on decimal digits *)

Lemma scanUnsignedDecimal_int d :
  digits d -> d <> [] ->
  exists q, scanUnsignedDecimal d = Some (q, [])
            /\ (q == inject_Z (digitsVal d))%Q.
Proof.
  intros D N. unfold scanUnsignedDecimal.
  rewrite (takeWhile_all _ _ D), (dropWhile_all _ _ D), app_nil_r.
  destruct d as [|c t]; [congruence|]. cbn [scanExponent length Z.of_nat].
  eexists. split; [reflexivity|]. cbn [Z.sub Z.opp Z.add Qpower]. ring.
Qed.

Lemma digit_head c t :
  isDigit c = true ->
  scanDecimal (c :: t) =
  match scanUnsignedDecimal (c :: t) with
  | Some (q, r) => Some (fin q, r)
  | None => None
  end.
Proof.
  intros D. apply isDigit_range in D. unfold scanDecimal.
  replace (c =? 43)%N with false by (symmetry; apply N.eqb_neq; lia).
  replace (c =? 45)%N with false by (symmetry; apply N.eqb_neq; lia).
  replace (isPrefix (lit "Infinity") (c :: t)) with false; [reflexivity|].
  change (isPrefix (lit "Infinity") (c :: t))
    with ((73 =? c)%N && isPrefix (lit "nfinity") t).
  replace (73 =? c)%N with false by (symmetry; apply N.eqb_neq; lia).
  reflexivity.
Qed.

Lemma radixLiteral_digits d : digits d -> radixLiteral d = None.
Proof.
  intros D. destruct d as [|z [|x ds]]; try reflexivity.
  inversion D as [|? ? _ D']; subst. inversion D' as [|? ? X _]; subst.
  apply isDigit_range in X. unfold radixLiteral.
  destruct (z =? 48)%N; [|reflexivity]. cmps. reflexivity.
Qed.

Lemma digitsVal_nonneg d : digits d -> (0 <= digitsVal d)%Z.
Proof.
  induction d as [|c d IH] using rev_ind; intros D; [reflexivity|].
  apply Forall_app in D. destruct D as [D Dc]. inversion Dc as [|? ? X _]; subst.
  apply isDigit_range in X. rewrite digitsVal_snoc. specialize (IH D).
  unfold digitVal. lia.
Qed.

(** [Number] reads a string of digits as its decimal value, when that is a
    binary64 integer; leading zeros are allowed. *)
Lemma Number_digits d :
  digits d -> d <> [] -> (digitsVal d <= 2 ^ 53)%Z ->
  Number d = ofZ (digitsVal d).
Proof.
  intros D N B. pose proof (digitsVal_nonneg d D) as P. unfold Number.
  rewrite trim_none
    by (eapply Forall_impl; [|exact D]; apply digit_not_space).
  destruct d as [|c t]; [congruence|]. cbv beta iota.
  rewrite (radixLiteral_digits _ D).
  rewrite digit_head by (now inversion D).
  destruct (scanUnsignedDecimal_int _ D N) as (q & -> & E).
  apply fin_inject; [lia | exact E].
Qed.

(** ** padStart *)

Lemma padStart_long n fill s : (n <= length s)%nat -> padStart n fill s = s.
Proof.
  intros L. unfold padStart. replace (n - length s)%nat with 0%nat by lia.
  reflexivity.
Qed.

Lemma pad2_decimal m :
  (0 <= m < 100)%Z -> padStart 2 (lit "0") (decimal m) = twoDigits m.
Proof.
  intros R. unfold twoDigits. destruct (Z.ltb_spec m 10) as [L|G].
  - rewrite decimal_small by lia.
    rewrite Z.div_small, Z.mod_small by lia. reflexivity.
  - rewrite decimal_two by lia. reflexivity.
Qed.

Lemma twoDigits_spec m :
  (0 <= m < 100)%Z -> digits (twoDigits m) /\ digitsVal (twoDigits m) = m.
Proof.
  intros R. unfold twoDigits.
  destruct (digitChar_digit (m / 10)) as [D1 V1].
  { split; [apply Z.div_pos; lia | apply Z.div_lt_upper_bound; lia]. }
  destruct (digitChar_digit (m mod 10)) as [D2 V2].
  { apply Z.mod_pos_bound. lia. }
  split; [repeat constructor; assumption|].
  unfold digitsVal. cbn [fold_left]. rewrite V1, V2.
  pose proof (Z.div_mod m 10). lia.
Qed.

(** ** formatDuration *)

(** The text of [formatDuration] on a non-negative whole number of seconds. *)
Lemma formatDuration_ofZ n :
  (0 <= n < 2 ^ 53)%Z ->
  formatDuration (ofZ n) =
  if (3600 <=? n)%Z
  then decimal (n / 3600) ++ lit ":" ++ twoDigits (n mod 3600 / 60)
         ++ lit ":" ++ twoDigits (n mod 60)
  else twoDigits (n mod 3600 / 60) ++ lit ":" ++ twoDigits (n mod 60).
Proof.
  intros P. unfold formatDuration.
  assert (M : (0 <= n mod 3600 < 3600)%Z) by (apply Z.mod_pos_bound; lia).
  assert (S : (0 <= n mod 60 < 60)%Z) by (apply Z.mod_pos_bound; lia).
  assert (M' : (0 <= n mod 3600 / 60 < 60)%Z).
  { split; [apply Z.div_pos; lia | apply Z.div_lt_upper_bound; lia]. }
  rewrite !rem_ofZ, !floor_div_ofZ by lia.
  assert (Fl : Math_floor (ofZ (n mod 60)) = ofZ (n mod 60)).
  { unfold Math_floor, ofZ. now rewrite Qfloor_Z. }
  rewrite Fl, gt_ofZ, !ToString_ofZ by (try apply Z.div_pos; lia).
  rewrite !pad2_decimal by lia.
  destruct (Z.ltb_spec 0 (n / 3600)) as [H|H];
    destruct (Z.leb_spec 3600 n) as [G|G]; try reflexivity; exfalso.
  - rewrite Z.div_small in H by lia. lia.
  - assert (1 <= n / 3600)%Z by (apply Z.div_le_lower_bound; lia). lia.
Qed.

(** ** parseTimeToSeconds on digits *)

Lemma digits_no_colon d : digits d -> ~ In (ch ":") d.
Proof.
  intros D I. unfold digits in D. rewrite Forall_forall in D.
  specialize (D _ I). discriminate.
Qed.

Lemma digits_no_space d :
  digits d -> Forall (fun c => isWhiteSpace c = false) d.
Proof. intros D. eapply Forall_impl; [|exact D]. apply digit_not_space. Qed.

Lemma truthy_true s : truthy s = true <-> s <> [].
Proof. destruct s; simpl; split; congruence. Qed.

Lemma truthy_app a b : a <> [] -> truthy (a ++ b) = true.
Proof. destruct a; [congruence | reflexivity]. Qed.

Lemma parse_one s :
  digits s -> s <> [] -> (digitsVal s <= 2 ^ 53)%Z ->
  parseTimeToSeconds s = Some (ofZ (digitsVal s)).
Proof.
  intros S NS B. unfold parseTimeToSeconds.
  rewrite (trim_none _ (digits_no_space _ S)).
  rewrite <- (app_nil_r s) at 1. rewrite truthy_app by assumption.
  rewrite split_without by now apply digits_no_colon.
  cbn [map negb]. rewrite Number_digits by assumption. reflexivity.
Qed.

Lemma parse_two m s :
  digits m -> m <> [] -> digits s -> s <> [] ->
  (digitsVal m * 60 + digitsVal s <= 2 ^ 53)%Z ->
  parseTimeToSeconds (m ++ lit ":" ++ s)
  = Some (ofZ (digitsVal m * 60 + digitsVal s)).
Proof.
  intros M NM S NS B. unfold parseTimeToSeconds.
  pose proof (digitsVal_nonneg m M) as Pm.
  pose proof (digitsVal_nonneg s S) as Ps.
  rewrite trim_none.
  2:{ apply Forall_app. split; [now apply digits_no_space|].
      constructor; [reflexivity | now apply digits_no_space]. }
  rewrite truthy_app by assumption.
  change (lit ":" ++ s) with (ch ":" :: s).
  rewrite split_app by now apply digits_no_colon.
  rewrite split_without by now apply digits_no_colon.
  cbn [map negb]. rewrite !Number_digits by (try assumption; lia).
  cbn [existsb isNaN ofZ orb]. fold (ofZ (digitsVal m)) (ofZ (digitsVal s)).
  now rewrite mul_ofZ, add_ofZ by lia.
Qed.

Lemma parse_three h m s :
  digits h -> h <> [] -> digits m -> m <> [] -> digits s -> s <> [] ->
  (digitsVal h * 3600 + digitsVal m * 60 + digitsVal s <= 2 ^ 53)%Z ->
  parseTimeToSeconds (h ++ lit ":" ++ m ++ lit ":" ++ s)
  = Some (ofZ (digitsVal h * 3600 + digitsVal m * 60 + digitsVal s)).
Proof.
  intros Hd NH M NM S NS B. unfold parseTimeToSeconds.
  pose proof (digitsVal_nonneg h Hd) as Ph.
  pose proof (digitsVal_nonneg m M) as Pm.
  pose proof (digitsVal_nonneg s S) as Ps.
  rewrite trim_none.
  2:{ apply Forall_app. split; [now apply digits_no_space|].
      constructor; [reflexivity|].
      apply Forall_app. split; [now apply digits_no_space|].
      constructor; [reflexivity | now apply digits_no_space]. }
  rewrite truthy_app by assumption.
  change (lit ":" ++ m ++ lit ":" ++ s) with (ch ":" :: m ++ ch ":" :: s).
  rewrite !split_app by now apply digits_no_colon.
  rewrite split_without by now apply digits_no_colon.
  cbn [map negb]. rewrite !Number_digits by (try assumption; lia).
  cbn [existsb isNaN ofZ orb].
  fold (ofZ (digitsVal h)) (ofZ (digitsVal m)) (ofZ (digitsVal s)).
  now rewrite !mul_ofZ, !add_ofZ by lia.
Qed.

(** C10 as stated fails for large numbers of seconds.  [10^19] is a
    binary64 integer; its quotient by 3600 is rounded up before
    [Math.floor], so the hours written are one too many, and the sums of
    [parseTimeToSeconds] are rounded again: the text reads back as
    [10^19 + 2048]. *)
Lemma parse_formatDuration_rounded :
  fin (inject_Z (10 ^ 19)) = ofZ (10 ^ 19)
  /\ formatDuration (ofZ (10 ^ 19)) = lit "2777777777777778:46:40"
  /\ parseTimeToSeconds (formatDuration (ofZ (10 ^ 19)))
     = Some (ofZ (10 ^ 19 + 2048))
  /\ ~ (forall n, (0 <= n)%Z ->
          parseTimeToSeconds (formatDuration (ofZ n)) = Some (ofZ n)).
Proof.
  assert (A : parseTimeToSeconds (formatDuration (ofZ (10 ^ 19)))
              = Some (ofZ (10 ^ 19 + 2048))) by (vm_compute; reflexivity).
  split; [vm_compute; reflexivity|]. split; [vm_compute; reflexivity|].
  split; [exact A|].
  intros E. specialize (E (10 ^ 19)%Z ltac:(lia)). rewrite A in E.
  discriminate E.
Qed.

(** C10, amended.  For every whole number of seconds [0 <= n < 2^53],
    [formatDuration] writes [h:mm:ss] when [n >= 3600] and [mm:ss]
    otherwise, the minutes and seconds on two digits, and
    [parseTimeToSeconds] reads that text back as [n]. *)
Theorem parse_formatDuration n :
  (0 <= n < 2 ^ 53)%Z ->
  formatDuration (ofZ n)
  = (if (3600 <=? n)%Z then decimal (n / 3600) ++ lit ":" else [])
      ++ twoDigits (n mod 3600 / 60) ++ lit ":" ++ twoDigits (n mod 60)
  /\ parseTimeToSeconds (formatDuration (ofZ n)) = Some (ofZ n).
Proof.
  intros P. rewrite formatDuration_ofZ by assumption.
  assert (M : (0 <= n mod 3600 < 3600)%Z) by (apply Z.mod_pos_bound; lia).
  assert (S : (0 <= n mod 60 < 60)%Z) by (apply Z.mod_pos_bound; lia).
  assert (M' : (0 <= n mod 3600 / 60 < 60)%Z).
  { split; [apply Z.div_pos; lia | apply Z.div_lt_upper_bound; lia]. }
  destruct (twoDigits_spec (n mod 3600 / 60)) as [Dm Vm]; [lia|].
  destruct (twoDigits_spec (n mod 60)) as [Ds Vs]; [lia|].
  assert (E : (n mod 60 = (n mod 3600) mod 60)%Z).
  { symmetry. apply Z.mod_mod_divide. exists 60%Z. reflexivity. }
  pose proof (Z.div_mod n 3600 ltac:(lia)) as Eh.
  pose proof (Z.div_mod (n mod 3600) 60 ltac:(lia)) as Em.
  destruct (Z.leb_spec 3600 n) as [G|G].
  - split; [now rewrite <- app_assoc|].
    destruct (decimal_spec (n / 3600)) as (Dh & Vh & Nh).
    { apply Z.div_pos; lia. }
    rewrite parse_three; try assumption; try discriminate;
      rewrite Vh, Vm, Vs; [|lia].
    do 2 f_equal. lia.
  - split; [reflexivity|].
    rewrite Z.mod_small in * by lia.
    rewrite parse_two; try assumption; try discriminate;
      rewrite Vm, Vs; [|lia].
    do 2 f_equal. lia.
Qed.

Lemma parse_formatDuration_witness :
  parseTimeToSeconds (formatDuration (ofZ 3723)) = Some (ofZ 3723).
Proof. apply (parse_formatDuration 3723). lia. Defined.

(** ** Strings that Number rejects *)

Lemma span_app p s : s = takeWhile p s ++ dropWhile p s.
Proof.
  induction s as [|c t IH]; simpl; [reflexivity|].
  destruct (p c); simpl; [now rewrite <- IH | reflexivity].
Qed.

Lemma takeWhile_Forall p s : Forall (fun c => p c = true) (takeWhile p s).
Proof.
  induction s as [|c t IH]; simpl; [constructor|].
  destruct (p c) eqn:E; constructor; assumption.
Qed.

Lemma digit_numeric c : isDigit c = true -> numericChar c = true.
Proof. intros D. unfold numericChar, isHexDigit. now rewrite D. Qed.

Lemma digits_numeric d :
  digits d -> Forall (fun c => numericChar c = true) d.
Proof. intros D. eapply Forall_impl; [|exact D]. apply digit_numeric. Qed.

Lemma consumes_nothing {A} s (a : A) : consumes s (a, s).
Proof. exists []. split; [reflexivity | constructor]. Qed.

Lemma consumes_cons {A} c s (res : A * str) :
  numericChar c = true -> consumes s res -> consumes (c :: s) res.
Proof.
  intros N (pre & E & F). exists (c :: pre). split.
  - simpl. now rewrite <- E.
  - now constructor.
Qed.

Lemma consumes_app {A} a (r : str) (res : A * str) :
  Forall (fun c => numericChar c = true) a ->
  consumes r res -> consumes (a ++ r) res.
Proof.
  intros Fa (pre & E & F). exists (a ++ pre). split.
  - now rewrite <- app_assoc, <- E.
  - apply Forall_app. now split.
Qed.

Lemma consumes_digits {A} s (a : A) :
  consumes s (a, dropWhile isDigit s).
Proof.
  exists (takeWhile isDigit s). split; [apply span_app|].
  apply digits_numeric, takeWhile_Forall.
Qed.

Lemma scanExponent_consumes s : consumes s (scanExponent s).
Proof.
  unfold scanExponent. destruct s as [|e t]; [apply consumes_nothing|].
  destruct ((e =? 101) || (e =? 69))%N eqn:Ee; [|apply consumes_nothing].
  assert (Ne : numericChar e = true).
  { apply orb_true_iff in Ee. destruct Ee as [X|X];
      apply N.eqb_eq in X; subst; reflexivity. }
  destruct t as [|c u].
  - simpl. apply consumes_nothing.
  - destruct (N.eqb_spec c 43) as [->|N43].
    + destruct (takeWhile isDigit u) eqn:T; [apply consumes_nothing|].
      apply consumes_cons; [exact Ne|].
      apply consumes_cons; [reflexivity|]. apply consumes_digits.
    + destruct (N.eqb_spec c 45) as [->|N45].
      * destruct (takeWhile isDigit u) eqn:T; [apply consumes_nothing|].
        apply consumes_cons; [exact Ne|].
        apply consumes_cons; [reflexivity|]. apply consumes_digits.
      * destruct (takeWhile isDigit (c :: u)) eqn:T; [apply consumes_nothing|].
        apply consumes_cons; [exact Ne|]. apply consumes_digits.
Qed.

Lemma scanUnsignedDecimal_consumes s res :
  scanUnsignedDecimal s = Some res -> consumes s res.
Proof.
  unfold scanUnsignedDecimal.
  set (r1 := dropWhile isDigit s).
  assert (C1 : forall (A : Type) (x : A * str), consumes r1 x -> consumes s x).
  { intros A x Cx. rewrite (span_app isDigit s).
    apply consumes_app; [|exact Cx].
    apply digits_numeric, takeWhile_Forall. }
  assert (C2 : forall fp r2,
             consumes r1 (tt, r2) ->
             match takeWhile isDigit s ++ fp with
             | [] => None
             | d :: ds =>
                 let '(e, r3) := scanExponent r2 in
                 Some ((inject_Z (digitsVal (d :: ds))
                        * Qpower (inject_Z 10) (e - Z.of_nat (length fp)))%Q, r3)
             end = Some res -> consumes s res).
  { intros fp r2 (pre & E & F) M.
    destruct (takeWhile isDigit s ++ fp); [discriminate|].
    pose proof (scanExponent_consumes r2) as Ce.
    destruct (scanExponent r2) as [e r3]. inversion M; subst res.
    apply C1. simpl in E. rewrite E.
    apply consumes_app; [exact F|].
    destruct Ce as (pre' & E' & F'). exists pre'. now split. }
  destruct r1 as [|c t] eqn:R.
  - apply C2. apply consumes_nothing.
  - destruct (N.eqb_spec c 46) as [->|N46].
    + apply C2. apply consumes_cons; [reflexivity|]. apply consumes_digits.
    + apply C2. apply consumes_nothing.
Qed.

Lemma isPrefix_app p s : isPrefix p s = true -> s = p ++ skipn (length p) s.
Proof.
  revert s. induction p as [|x p IH]; intros s E; [reflexivity|].
  destruct s as [|y s]; [discriminate|]. simpl in E.
  apply andb_true_iff in E. destruct E as [X E].
  apply N.eqb_eq in X. subst y. simpl. f_equal. now apply IH.
Qed.

Lemma scanDecimal_consumes s res :
  scanDecimal s = Some res -> consumes s res.
Proof.
  unfold scanDecimal.
  assert (K : forall (neg : bool) t,
             (if isPrefix (lit "Infinity") t
              then Some (if neg then NegInf else PosInf, skipn 8 t)
              else match scanUnsignedDecimal t with
                   | Some (q, r) =>
                       Some (fin (if neg then Qopp q else q), r)
                   | None => None
                   end) = Some res -> consumes t res).
  { intros neg t. destruct (isPrefix (lit "Infinity") t) eqn:I.
    - intros E. inversion E; subst res. exists (lit "Infinity"). split.
      + apply (isPrefix_app _ _ I).
      + apply Forall_forall. intros c Hc. simpl in Hc.
        repeat (destruct Hc as [<-|Hc]; [reflexivity|]). contradiction.
    - destruct (scanUnsignedDecimal t) as [[q r]|] eqn:U; [|discriminate].
      intros E. inversion E; subst res.
      destruct (scanUnsignedDecimal_consumes _ _ U) as (pre & E' & F).
      exists pre. now split. }
  destruct s as [|c u]; [apply (K false)|].
  destruct (N.eqb_spec c 43) as [->|N43].
  - intros E. apply consumes_cons; [reflexivity | now apply (K false) in E].
  - destruct (N.eqb_spec c 45) as [->|N45].
    + intros E. apply consumes_cons; [reflexivity | now apply (K true) in E].
    + apply (K false).
Qed.

Lemma radixLiteral_numeric t v :
  radixLiteral t = Some v -> v <> NaN ->
  Forall (fun c => numericChar c = true) t.
Proof.
  unfold radixLiteral. destruct t as [|z [|x ds]]; try discriminate.
  destruct (N.eqb_spec z 48) as [->|_]; [|discriminate].
  assert (K : forall radix (ok : char -> bool),
             (forall c, ok c = true -> isHexDigit c = true) ->
             numericChar x = true ->
             Some match ds with
                  | [] => NaN
                  | _ :: _ => if forallb ok ds
                              then fin (inject_Z (radixVal radix ds))
                              else NaN
                  end = Some v ->
             v <> NaN -> Forall (fun c => numericChar c = true) (48%N :: x :: ds)).
  { intros radix ok Hok Nx E NV. constructor; [reflexivity|].
    constructor; [exact Nx|].
    destruct ds as [|d ds']; [congruence|].
    destruct (forallb ok (d :: ds')) eqn:Fo; [|congruence].
    rewrite forallb_forall in Fo. apply Forall_forall. intros c Hc.
    unfold numericChar. now rewrite (Hok _ (Fo _ Hc)). }
  destruct ((x =? 120) || (x =? 88))%N eqn:X1.
  { apply K; [trivial|].
    apply orb_true_iff in X1. destruct X1 as [X|X];
      apply N.eqb_eq in X; subst; reflexivity. }
  destruct ((x =? 111) || (x =? 79))%N eqn:X2.
  { apply K.
    - intros c Hc. unfold isHexDigit, isDigit.
      apply andb_true_iff in Hc. destruct Hc as [A B].
      apply N.leb_le in A, B. cmps. reflexivity.
    - apply orb_true_iff in X2. destruct X2 as [X|X];
        apply N.eqb_eq in X; subst; reflexivity. }
  destruct ((x =? 98) || (x =? 66))%N eqn:X3; [|discriminate].
  apply K.
  - intros c Hc. unfold isHexDigit, isDigit.
    apply andb_true_iff in Hc. destruct Hc as [A B].
    apply N.leb_le in A, B. cmps. reflexivity.
  - apply orb_true_iff in X3. destruct X3 as [X|X];
      apply N.eqb_eq in X; subst; reflexivity.
Qed.

Lemma dropWhile_keeps p x s :
  In x s -> p x = false -> In x (dropWhile p s).
Proof.
  induction s as [|c t IH]; simpl; [tauto|]. intros [->|I] E.
  - rewrite E. now left.
  - destruct (p c); [now apply IH | now right].
Qed.

Lemma trim_keeps x s : In x s -> isWhiteSpace x = false -> In x (trim s).
Proof.
  intros I E. unfold trim, trimEnd, trimStart.
  rewrite <- in_rev. apply dropWhile_keeps; [|exact E].
  rewrite <- in_rev. now apply dropWhile_keeps.
Qed.

(** A component with a character that is neither white space nor part of
    any numeric literal is no number. *)
Lemma Number_foreign_char s x :
  In x s -> isWhiteSpace x = false -> numericChar x = false ->
  Number s = NaN.
Proof.
  intros I W N. pose proof (trim_keeps _ _ I W) as It.
  unfold Number. destruct (trim s) as [|c t] eqn:T; [contradiction|].
  assert (No : ~ Forall (fun c => numericChar c = true) (c :: t)).
  { intros F. rewrite Forall_forall in F. specialize (F _ It). congruence. }
  destruct (radixLiteral (c :: t)) as [v|] eqn:R.
  - destruct v; try reflexivity;
      exfalso; apply No; apply (radixLiteral_numeric _ _ R); discriminate.
  - destruct (scanDecimal (c :: t)) as [[v r]|] eqn:S; [|reflexivity].
    destruct r; [|reflexivity]. exfalso. apply No.
    destruct (scanDecimal_consumes _ _ S) as (pre & E & F).
    simpl in E. rewrite app_nil_r in E. now rewrite E.
Qed.

(** ** parseTimeToSeconds *)

(** C1 as stated fails in two places.  On a string of four components the
    code returns the leftmost component, where the rule reads the rightmost
    one as the seconds.  And an empty component is read as 0, where the rule
    gives no time. *)
Lemma parseTimeToSeconds_beyond_rule :
  (parseTimeToSeconds (lit "1:2:3:4") = Some (ofZ 1)
   /\ specParseTime (lit "1:2:3:4") = Some (ofZ 7384))
  /\ (components (lit "1:") = [lit "1"; []]
      /\ parseTimeToSeconds (lit "1:") = Some (ofZ 60)
      /\ specParseTime (lit "1:") = None)
  /\ ~ (forall s, parseTimeToSeconds s = specParseTime s).
Proof.
  assert (A : parseTimeToSeconds (lit "1:2:3:4") = Some (ofZ 1))
    by (vm_compute; reflexivity).
  assert (B : specParseTime (lit "1:2:3:4") = Some (ofZ 7384))
    by (vm_compute; reflexivity).
  split; [now split|]. split; [repeat split; vm_compute; reflexivity|].
  intros E. specialize (E (lit "1:2:3:4")). rewrite A, B in E. discriminate.
Qed.

Lemma numeric_components cs :
  Forall (fun c => trim c <> []) cs ->
  forallb numericComponent cs = negb (existsb isNaN (map Number cs)).
Proof.
  induction 1 as [|c cs N _ IH]; [reflexivity|].
  cbn [forallb map existsb]. rewrite IH, negb_orb. unfold numericComponent.
  now rewrite (proj2 (truthy_true _) N).
Qed.

(** C1, amended.  [parseTimeToSeconds] is a total function (it throws on no
    string).  On a string of at most three components, none of them blank,
    it follows the rule of the specification: the rightmost component is the
    seconds, the next the minutes, the next the hours, each read by
    [Number]; components of decimal digits are read as their decimal value,
    and the time is their exact total as long as that is at most [2^53]
    (above, numbers are rounded: ["9007199254740993"] is read as
    [9007199254740992]).  An empty or blank component is read as 0.  It returns [null] when a
    component is no number for [Number] (in particular when it holds a
    character that is neither white space nor part of a numeric literal) and
    when the string is empty or blank. *)
Theorem parseTimeToSeconds_spec (s : str) :
  ((length (components s) <= 3)%nat ->
   Forall (fun c => trim c <> []) (components s) ->
   parseTimeToSeconds s = specParseTime s)
  /\ ((exists c, In c (components s) /\ Number c = NaN) ->
      parseTimeToSeconds s = None)
  /\ ((exists c x, In c (components s) /\ In x c
                   /\ isWhiteSpace x = false /\ numericChar x = false) ->
      parseTimeToSeconds s = None)
  /\ (trim s = [] -> parseTimeToSeconds s = None)
  /\ (forall h m sec,
        digits h -> h <> [] -> digits m -> m <> [] -> digits sec -> sec <> [] ->
        (digitsVal h * 3600 + digitsVal m * 60 + digitsVal sec <= 2 ^ 53)%Z ->
        parseTimeToSeconds (h ++ lit ":" ++ m ++ lit ":" ++ sec)
        = Some (ofZ (digitsVal h * 3600 + digitsVal m * 60 + digitsVal sec))
        /\ parseTimeToSeconds (m ++ lit ":" ++ sec)
           = Some (ofZ (digitsVal m * 60 + digitsVal sec))
        /\ parseTimeToSeconds sec = Some (ofZ (digitsVal sec)))
  /\ (forall c, trim c = [] -> Number c = ofZ 0)
  /\ parseTimeToSeconds (lit "01:02:03") = Some (ofZ 3723)
  /\ parseTimeToSeconds (lit "02:03") = Some (ofZ 123)
  /\ parseTimeToSeconds (lit "45") = Some (ofZ 45)
  /\ parseTimeToSeconds (lit "1:") = Some (ofZ 60)
  /\ parseTimeToSeconds (lit "9007199254740993")
     = Some (ofZ 9007199254740992).
Proof.
  assert (NaNs : (exists c, In c (components s) /\ Number c = NaN) ->
                 parseTimeToSeconds s = None).
  { intros (c & I & E). unfold parseTimeToSeconds.
    destruct (truthy (trim s)); [|reflexivity]. cbn [negb].
    replace (existsb isNaN (map Number (split (ch ":") (trim s)))) with true;
      [reflexivity|].
    symmetry. apply existsb_exists. exists NaN. split; [|reflexivity].
    rewrite <- E. now apply in_map. }
  split; [|split; [exact NaNs|split; [|split; [|split; [|split]]]]].
  - intros L NB. unfold parseTimeToSeconds, specParseTime.
    destruct (truthy (trim s)); [|reflexivity]. cbn [negb].
    fold (components s) in *. rewrite (numeric_components _ NB).
    destruct (existsb isNaN (map Number (components s))); [reflexivity|].
    cbn [negb].
    pose proof (split_nonempty (ch ":") (trim s)) as NE.
    fold (components s) in NE.
    destruct (components s) as [|a [|b [|c [|d l]]]]; try reflexivity.
    + congruence.
    + simpl in L. lia.
  - intros (c & x & I & Ix & W & N). apply NaNs. exists c. split; [exact I|].
    exact (Number_foreign_char _ _ Ix W N).
  - intros E. unfold parseTimeToSeconds. now rewrite E.
  - intros h m sec Dh Nh Dm Nm Ds Ns B.
    pose proof (digitsVal_nonneg h Dh). pose proof (digitsVal_nonneg m Dm).
    pose proof (digitsVal_nonneg sec Ds).
    split; [|split];
      [apply parse_three | apply parse_two | apply parse_one];
      try assumption; lia.
  - intros c E. unfold Number. now rewrite E.
  - repeat split; vm_compute; reflexivity.
Qed.

Lemma parseTimeToSeconds_spec_witness :
  parseTimeToSeconds (lit "1:30") = specParseTime (lit "1:30")
  /\ parseTimeToSeconds (lit "1:3s") = None
  /\ parseTimeToSeconds (lit "  ") = None
  /\ parseTimeToSeconds (lit "7" ++ lit ":" ++ lit "08" ++ lit ":" ++ lit "09")
     = Some (ofZ (7 * 3600 + 8 * 60 + 9)).
Proof.
  split; [|split; [|split]].
  - apply (proj1 (parseTimeToSeconds_spec (lit "1:30"))).
    + vm_compute. lia.
    + repeat constructor; vm_compute; discriminate.
  - apply (proj1 (proj2 (proj2 (parseTimeToSeconds_spec (lit "1:3s"))))).
    exists (lit "3s"), (ch "s"). vm_compute. intuition reflexivity.
  - apply (proj1 (proj2 (proj2 (proj2 (parseTimeToSeconds_spec (lit "  ")))))).
    reflexivity.
  - apply (proj1 (proj2 (proj2 (proj2 (proj2 (parseTimeToSeconds_spec []))))));
      try discriminate; repeat constructor.
Defined.

(** ** getBinPath *)

Lemma firstIn_Some fs dirs name p :
  firstIn fs dirs name = Some p <->
  exists pre d post,
    dirs = pre ++ d :: post /\ p = join [d; name] /\ fs p = true
    /\ Forall (fun d' => fs (join [d'; name]) = false) pre.
Proof.
  induction dirs as [|d0 rest IH]; simpl.
  - split; [discriminate|]. intros (pre & d & post & E & _).
    destruct pre; discriminate.
  - destruct (fs (join [d0; name])) eqn:F0.
    + split.
      * intros E. inversion E; subst p. exists [], d0, rest.
        repeat split; [exact F0 | constructor].
      * intros (pre & d & post & E & -> & Fp & Fpre).
        destruct pre as [|x pre]; simpl in E; inversion E; subst; [reflexivity|].
        inversion Fpre; congruence.
    + rewrite IH. split.
      * intros (pre & d & post & -> & -> & Fp & Fpre).
        exists (d0 :: pre), d, post. repeat split; [exact Fp|].
        now constructor.
      * intros (pre & d & post & E & -> & Fp & Fpre).
        destruct pre as [|x pre]; simpl in E; inversion E; subst.
        -- congruence.
        -- exists pre, d, post. repeat split; [exact Fp|]. now inversion Fpre.
Qed.

Lemma firstIn_None fs dirs name :
  firstIn fs dirs name = None <->
  Forall (fun d => fs (join [d; name]) = false) dirs.
Proof.
  induction dirs as [|d0 rest IH]; simpl.
  - split; [constructor | reflexivity].
  - destruct (fs (join [d0; name])) eqn:F0.
    + split; [discriminate|]. intros F. inversion F; congruence.
    + rewrite IH. split; [now constructor | now inversion 1].
Qed.

Lemma str_eqb_eq a b : str_eqb a b = true <-> a = b.
Proof.
  revert b. induction a as [|x a IH]; destruct b as [|y b]; simpl;
    try (split; [discriminate | congruence]); [tauto|].
  rewrite andb_true_iff, N.eqb_eq, IH. split.
  - intros [-> ->]. reflexivity.
  - intros E. inversion E. tauto.
Qed.

Lemma str_eqb_neq a b : a <> b -> str_eqb a b = false.
Proof.
  intros N. destruct (str_eqb a b) eqn:E; [|reflexivity].
  apply str_eqb_eq in E. contradiction.
Qed.

Lemma split_snoc c d name :
  ~ In c name -> split c (d ++ c :: name) = split c d ++ [name].
Proof.
  intros N. induction d as [|x d IH]; simpl.
  - now rewrite N.eqb_refl, split_without.
  - destruct (x =? c)%N; [now rewrite IH|].
    rewrite IH. destruct (split c d) eqn:E; [|reflexivity].
    exfalso. exact (split_nonempty _ _ E).
Qed.

Lemma intercalate_snoc d l x :
  l <> [] -> intercalate d (l ++ [x]) = intercalate d l ++ d ++ x.
Proof.
  induction l as [|a l IH]; [congruence|]. intros _.
  destruct l as [|b l]; [reflexivity|].
  change (intercalate d ((a :: b :: l) ++ [x]))
    with (a ++ d ++ intercalate d ((b :: l) ++ [x])).
  rewrite IH by discriminate.
  change (intercalate d (a :: b :: l)) with (a ++ d ++ intercalate d (b :: l)).
  now rewrite <- !app_assoc.
Qed.

Lemma last_In (s : str) d : s <> [] -> In (last s d) s.
Proof.
  induction s as [|c t IH]; [congruence|]. intros _.
  destruct t as [|c' t']; [now left|]. right. apply IH. discriminate.
Qed.

Lemma last_app_cons (a : str) c t d : last (a ++ c :: t) d = last (c :: t) d.
Proof.
  induction a as [|x a IH]; [reflexivity|].
  change ((x :: a) ++ c :: t) with (x :: (a ++ c :: t)).
  destruct (a ++ c :: t) eqn:E; [destruct a; discriminate|].
  exact IH.
Qed.

Lemma normalize_plain d' name :
  plainName name ->
  fold_left (pushSegment false) (split sep (sep :: d')) [] <> [] ->
  intercalate [sep]
    (rev (fold_left (pushSegment false) (split sep (sep :: d')) [])) = d' ->
  normalize ((sep :: d') ++ sep :: name) = (sep :: d') ++ sep :: name.
Proof.
  intros (NE & NS & ND & NDD) St Ed.
  assert (L : (last ((sep :: d') ++ sep :: name) 0 =? sep)%N = false).
  { rewrite last_app_cons. apply N.eqb_neq. intros E. apply NS.
    destruct name as [|c t]; [congruence|].
    change (last (sep :: c :: t) 0%N) with (last (c :: t) 0%N) in E.
    rewrite <- E. apply last_In. discriminate. }
  assert (Push : forall st, pushSegment false st name = name :: st).
  { intros st. unfold pushSegment.
    rewrite (str_eqb_neq name []), (str_eqb_neq name (lit ".")),
      (str_eqb_neq name (lit "..")) by assumption. reflexivity. }
  assert (Ns : normalizeString ((sep :: d') ++ sep :: name) false
               = d' ++ sep :: name).
  { unfold normalizeString. rewrite split_snoc by assumption.
    rewrite fold_left_app. cbn [fold_left]. rewrite Push. cbn [rev].
    rewrite intercalate_snoc.
    - now rewrite Ed.
    - intros E. apply St. apply (f_equal (@rev str)) in E.
      now rewrite rev_involutive in E. }
  unfold normalize.
  change ((sep :: d') ++ sep :: name) with (sep :: (d' ++ sep :: name)) in *.
  cbv beta iota. rewrite N.eqb_refl, L. cbn [negb]. rewrite Ns.
  destruct (d' ++ sep :: name) eqn:E; [destruct d'; discriminate|].
  reflexivity.
Qed.

(** In each of the three directories, the joined path of a plain name is
    the directory, a slash, and the name. *)
Lemma join_plain dir name :
  In dir BREW_PATHS -> plainName name ->
  join [dir; name] = dir ++ lit "/" ++ name.
Proof.
  intros I Pl.
  assert (T : truthy name = true).
  { destruct Pl as [NE _]. destruct name; [congruence | reflexivity]. }
  simpl in I. destruct I as [<-|[<-|[<-|[]]]]; unfold join; cbn [filter];
    rewrite T;
    (apply normalize_plain;
     [exact Pl | vm_compute; discriminate | vm_compute; reflexivity]).
Qed.

(** C7.  [getBinPath] looks into /opt/homebrew/bin, /usr/local/bin and
    /usr/bin, in this order, and returns the joined path of the first of
    them in which the joined path exists; it returns [null] exactly when it
    exists in none.  For a name that is one plain path segment the joined
    path is the directory, a slash and the name. *)
Theorem getBinPath_priority (fs : filesystem) (name : str) :
  BREW_PATHS = [lit "/opt/homebrew/bin"; lit "/usr/local/bin"; lit "/usr/bin"]
  /\ (forall p,
        getBinPath fs name = Some p <->
        exists pre dir post,
          BREW_PATHS = pre ++ dir :: post /\ p = join [dir; name]
          /\ fs p = true
          /\ Forall (fun d => fs (join [d; name]) = false) pre)
  /\ (getBinPath fs name = None <->
      Forall (fun d => fs (join [d; name]) = false) BREW_PATHS)
  /\ (plainName name ->
      forall dir, In dir BREW_PATHS ->
                  join [dir; name] = dir ++ lit "/" ++ name).
Proof.
  split; [reflexivity|]. split; [|split].
  - intros p. apply firstIn_Some.
  - apply firstIn_None.
  - intros Pl dir I. now apply join_plain.
Qed.

Lemma getBinPath_priority_witness :
  getBinPath intelMac (lit "ffmpeg") = Some (lit "/usr/local/bin/ffmpeg")
  /\ getBinPath intelMac (lit "curl") = None.
Proof.
  destruct (getBinPath_priority intelMac (lit "ffmpeg")) as (_ & S & _ & J).
  destruct (getBinPath_priority intelMac (lit "curl")) as (_ & _ & N & _).
  split.
  - apply S. exists [lit "/opt/homebrew/bin"], (lit "/usr/local/bin"),
      [lit "/usr/bin"].
    repeat split; repeat constructor.
  - apply N. repeat constructor.
Defined.

(** ** downloadVideo: the arguments *)

Lemma normalize_nonempty path : normalize path <> [].
Proof.
  unfold normalize. destruct path as [|c t]; [discriminate|].
  destruct (normalizeString (c :: t) (negb (c =? sep)%N)) as [|x p].
  - destruct (c =? sep)%N; [discriminate|].
    destruct (last (c :: t) 0 =? sep)%N; discriminate.
  - destruct (c =? sep)%N, (last (c :: t) 0 =? sep)%N; discriminate.
Qed.

Lemma join_nonempty l : join l <> [].
Proof.
  unfold join. destruct (filter truthy l); [discriminate|].
  apply normalize_nonempty.
Qed.

Lemma getBinPath_truthy fs name p :
  getBinPath fs name = Some p -> truthy p = true.
Proof.
  intros E. apply firstIn_Some in E.
  destruct E as (_ & d & _ & _ & -> & _).
  pose proof (join_nonempty [d; name]).
  destruct (join [d; name]); [congruence | reflexivity].
Qed.

Lemma hasStart_given opts : hasStart opts = true <-> givenStart opts.
Proof.
  unfold hasStart, givenStart. destruct (startTime opts) as [s|].
  - rewrite andb_true_iff, negb_true_iff, truthy_true. split.
    + intros [N E]. exists s. repeat split; [exact N|].
      intros ->. now rewrite (proj2 (str_eqb_eq _ _) eq_refl) in E.
    + intros (s' & E & N & Z). inversion E; subst s'. split; [exact N|].
      now apply str_eqb_neq.
  - split; [discriminate|]. intros (s & E & _). discriminate.
Qed.

Lemma hasEnd_given opts : hasEnd opts = true <-> givenEnd opts.
Proof.
  unfold hasEnd, givenEnd, notNot. destruct (endTime opts) as [e|].
  - rewrite truthy_true. split.
    + intros N. now exists e.
    + intros (e' & E & N). now inversion E; subst.
  - split; [discriminate|]. intros (e & E & _). discriminate.
Qed.

(** C8.  When both binaries are found, [downloadVideo] spawns yt-dlp with
    the fixed arguments, the format arguments, the section arguments and the
    URL.  The section arguments are [--download-sections], the range
    [*start-end] and [--force-keyframes-at-cuts] when a start time other
    than ["00:00"] or an end time is given (as a non-empty string), and
    nothing otherwise.  In the range, the start is the start time of the
    request when that is a non-empty string, and ["0"] when it is absent or
    empty; the end is the end time of the request when that is a non-empty
    string, and ["inf"] when it is absent or empty. *)
Theorem downloadVideo_sections (H : host) (fs : filesystem)
  (opts : DownloadOptions) (y f : str) :
  getBinPath fs (lit "yt-dlp") = Some y ->
  getBinPath fs (lit "ffmpeg") = Some f ->
  exists sect,
    d_spawned (downloadVideo H fs opts)
    = [{| file := y;
          args := [lit "--no-playlist"; lit "--newline"; lit "-o";
                   join [outDirOf H; lit "%(title)s.%(ext)s"];
                   lit "--ffmpeg-location"; join [f; lit ".."]]
                    ++ formatArgs opts ++ sect ++ [url opts];
          env := [(lit "PATH", pathPrefix ++ envPATH H)] |}]
    /\ (givenStart opts \/ givenEnd opts ->
        exists from to,
          sect = [lit "--download-sections";
                  lit "*" ++ from ++ lit "-" ++ to;
                  lit "--force-keyframes-at-cuts"]
          /\ (forall x, startTime opts = Some x -> x <> [] -> from = x)
          /\ (startTime opts = None \/ startTime opts = Some [] ->
              from = lit "0")
          /\ (forall x, endTime opts = Some x -> x <> [] -> to = x)
          /\ (endTime opts = None \/ endTime opts = Some [] ->
              to = lit "inf"))
    /\ (~ (givenStart opts \/ givenEnd opts) -> sect = []).
Proof.
  intros Y F. exists (sectionArgs opts).
  pose proof (getBinPath_truthy _ _ _ Y) as Ty.
  pose proof (getBinPath_truthy _ _ _ F) as Tf.
  assert (D : forall (o : option str) (d : str),
            (forall x, o = Some x -> x <> [] -> orDefault o d = x)
            /\ (o = None \/ o = Some [] -> orDefault o d = d)).
  { intros o d. split.
    - intros x -> N. unfold orDefault. now destruct x.
    - intros [->| ->]; reflexivity. }
  split; [|split].
  - unfold downloadVideo. rewrite Y, F. unfold notNot, orDefault.
    rewrite Ty, Tf. reflexivity.
  - intros G.
    exists (orDefault (startTime opts) (lit "0")),
           (orDefault (endTime opts) (lit "inf")).
    split; [|split; [|split; [|split]]]; try apply D.
    unfold sectionArgs.
    replace (hasStart opts || hasEnd opts) with true; [reflexivity|].
    symmetry. apply orb_true_iff.
    destruct G as [G|G]; [left; now apply hasStart_given
                         | right; now apply hasEnd_given].
  - intros G. unfold sectionArgs.
    destruct (hasStart opts || hasEnd opts) eqn:E; [|reflexivity].
    exfalso. apply G. apply orb_true_iff in E.
    destruct E as [E|E]; [left; now apply hasStart_given
                         | right; now apply hasEnd_given].
Qed.

Lemma downloadVideo_sections_witness :
  let opts := {| url := lit "https://example.com/v"; startTime := Some (lit "00:30");
                 endTime := None; format := lit "audio"; quality := None |} in
  map args (d_spawned (downloadVideo (hostPrinting [] None) intelMac opts))
  = [[lit "--no-playlist"; lit "--newline"; lit "-o";
      lit "/Users/dean/Downloads/clipity/%(title)s.%(ext)s";
      lit "--ffmpeg-location"; lit "/usr/local/bin";
      lit "-x"; lit "--audio-format"; lit "mp3"; lit "--audio-quality"; lit "0";
      lit "--download-sections"; lit "*00:30-inf";
      lit "--force-keyframes-at-cuts"; lit "https://example.com/v"]].
Proof.
  intros opts.
  destruct (downloadVideo_sections (hostPrinting [] None) intelMac opts
              (lit "/usr/local/bin/yt-dlp") (lit "/usr/local/bin/ffmpeg")
              eq_refl eq_refl) as (sect & E & Given & _).
  destruct Given as (from & to & -> & Fx & _ & _ & Td).
  { left. exists (lit "00:30"). repeat split; discriminate. }
  rewrite E, (Fx (lit "00:30") eq_refl ltac:(discriminate)),
    (Td (or_introl eq_refl)).
  reflexivity.
Defined.

(** ** The matcher *)

Lemma star_stop {A} k s (cont : str -> option A) :
  match s with [] => True | c :: _ => inCls k c = false end ->
  star k s cont = cont s.
Proof. destruct s as [|c t]; simpl; [reflexivity|]. now intros ->. Qed.

(** A greedy star that succeeds after a run succeeds after a longer run. *)
Lemma star_first {A} k a r (cont : str -> option A) x :
  Forall (fun c => inCls k c = true) a ->
  star k r cont = Some x -> star k (a ++ r) cont = Some x.
Proof.
  induction 1 as [|c a E _ IH]; intros S; [exact S|].
  simpl. rewrite E, (IH S). reflexivity.
Qed.

Lemma star_none {A} k a r (cont : str -> option A) :
  Forall (fun c => inCls k c = true) a ->
  star k r cont = None ->
  (forall a1 a2, a = a1 ++ a2 -> a2 <> [] -> cont (a2 ++ r) = None) ->
  star k (a ++ r) cont = None.
Proof.
  induction 1 as [|c a E _ IH]; intros S N; [exact S|].
  simpl. rewrite E, IH.
  - simpl. apply (N [] (c :: a)); [reflexivity | discriminate].
  - exact S.
  - intros a1 a2 -> Ne. apply (N (c :: a1) a2); [reflexivity | exact Ne].
Qed.

Lemma matchRe_lits {A} a r s (cont : str -> option A) :
  matchRe (lits a ++ r) (a ++ s) cont = matchRe r s cont.
Proof.
  induction a as [|c a IH]; [reflexivity|].
  simpl. now rewrite N.eqb_refl.
Qed.

Lemma firstn_app_exact {X} (a b : list X) :
  firstn (length (a ++ b) - length b) (a ++ b) = a.
Proof.
  rewrite length_app. replace (length a + length b - length b)%nat
    with (length a + 0)%nat by lia.
  rewrite firstn_app_2. simpl. apply app_nil_r.
Qed.

(** The leftmost start wins. *)
Lemma exec_Some p s c :
  exec p s = Some c <->
  exists pre suf,
    s = pre ++ suf /\ matchAt p suf = Some c
    /\ forall pre' suf', s = pre' ++ suf' ->
         (length pre' < length pre)%nat -> matchAt p suf' = None.
Proof.
  revert c. induction s as [|x s IH]; intros c.
  - simpl. destruct (matchAt p []) eqn:M.
    + split.
      * intros E. inversion E; subst. exists [], []. repeat split; [exact M|].
        intros ? ? _ L. simpl in L. lia.
      * intros (pre & suf & E & M' & _).
        destruct pre; [|discriminate]. simpl in E. subst suf. congruence.
    + split; [discriminate|]. intros (pre & suf & E & M' & _).
      destruct pre; [|discriminate]. simpl in E. subst suf. congruence.
  - cbn [exec]. destruct (matchAt p (x :: s)) eqn:M.
    + split.
      * intros E. inversion E; subst. exists [], (x :: s).
        repeat split; [exact M|]. intros ? ? _ L. simpl in L. lia.
      * intros (pre & suf & E & M' & Lm). destruct pre as [|y pre].
        -- simpl in E. subst suf. congruence.
        -- specialize (Lm [] (x :: s) eq_refl). simpl in Lm.
           rewrite Lm in M by lia. discriminate.
    + rewrite IH. split.
      * intros (pre & suf & -> & M' & Lm). exists (x :: pre), suf.
        repeat split; [exact M'|]. intros pre' suf' E L.
        destruct pre' as [|y pre']; simpl in E.
        -- now subst suf'.
        -- inversion E as [[Ex Es]]. apply (Lm pre' suf' Es). simpl in L. lia.
      * intros (pre & suf & E & M' & Lm). destruct pre as [|y pre].
        -- simpl in E. subst suf. congruence.
        -- inversion E; subst. exists pre, suf. repeat split; [exact M'|].
           intros pre' suf' E' L. apply (Lm (y :: pre') suf').
           ++ simpl. now rewrite E'.
           ++ simpl. lia.
Qed.

Lemma exec_None p s :
  exec p s = None <-> forall pre suf, s = pre ++ suf -> matchAt p suf = None.
Proof.
  induction s as [|x s IH].
  - simpl. destruct (matchAt p []) eqn:M.
    + split; [discriminate|]. intros N. specialize (N [] [] eq_refl). congruence.
    + split; [|reflexivity]. intros _ pre suf E.
      destruct pre; [|discriminate]. simpl in E. now subst.
  - cbn [exec]. destruct (matchAt p (x :: s)) eqn:M.
    + split; [discriminate|]. intros N.
      specialize (N [] (x :: s) eq_refl). congruence.
    + rewrite IH. split.
      * intros N pre suf E. destruct pre as [|y pre]; simpl in E.
        -- now subst.
        -- inversion E; subst. now apply (N pre).
      * intros N pre suf ->. now apply (N (x :: pre)).
Qed.

Lemma exec_at_start p s c : matchAt p s = Some c -> exec p s = Some c.
Proof. intros M. destruct s; simpl; now rewrite M. Qed.

(** *** The announcements of yt-dlp *)

Lemma oneLine_any s : oneLine s -> Forall (fun c => inCls AnyCls c = true) s.
Proof.
  intros O. eapply Forall_impl; [|exact O]. intros c E. simpl. now rewrite E.
Qed.

(** A line that starts with the destination announcement. *)
Lemma destRe_line path :
  path <> [] -> oneLine path ->
  exec destRe (lit "[download] Destination: " ++ path) = Some path.
Proof.
  intros N O. apply exec_at_start. unfold matchAt, destRe.
  cbn [before group after].
  rewrite <- (app_nil_r (lits _)), matchRe_lits. cbn [matchRe].
  destruct path as [|c t]; [congruence|].
  inversion O as [|? ? Oc Ot]; subst.
  cbn [matchRe inCls]. rewrite Oc. cbn [negb].
  rewrite <- (app_nil_r t) at 1.
  apply star_first; [now apply oneLine_any|].
  cbn [star app]. rewrite Nat.sub_0_r. now rewrite firstn_all.
Qed.

(** A line that starts with the merge announcement and ends with the
    closing quote. *)
Lemma mergerRe_line path :
  path <> [] -> oneLine path ->
  exec mergerRe (lit "[Merger] Merging formats into " ++ [quote]
                   ++ path ++ [quote]) = Some path.
Proof.
  intros N O. apply exec_at_start. unfold matchAt, mergerRe.
  cbn [before group after].
  rewrite <- (app_nil_r (lits _)), app_assoc, matchRe_lits. cbn [matchRe].
  destruct path as [|c t]; [congruence|].
  inversion O as [|? ? Oc Ot]; subst.
  cbn [app matchRe inCls]. rewrite Oc. cbn [negb].
  apply star_first; [now apply oneLine_any|].
  cbn [star]. change (inCls AnyCls quote) with true. cbv iota.
  cbn [orElse]. rewrite N.eqb_refl.
  change (c :: t ++ [quote]) with ((c :: t) ++ [quote]).
  now rewrite firstn_app_exact.
Qed.

(** ** downloadVideo: the returned path *)

Lemma fold_onData cs sc :
  fold_left onData cs sc = fold_left scanLine (linesOf cs) sc.
Proof.
  revert sc. induction cs as [|c cs IH]; intros sc; [reflexivity|].
  simpl. rewrite fold_left_app. apply IH.
Qed.

Lemma lastFile_none ls sc :
  Forall (fun l => destMatch l = None) ls ->
  lastFile (fold_left scanLine ls sc) = lastFile sc.
Proof.
  intros F. revert sc. induction F as [|l ls E _ IH]; intros sc; [reflexivity|].
  simpl. rewrite IH. unfold scanLine. simpl. now rewrite E.
Qed.

Lemma lastFile_last pre l post c sc :
  destMatch l = Some c ->
  Forall (fun l' => destMatch l' = None) post ->
  lastFile (fold_left scanLine (pre ++ l :: post) sc) = trim c.
Proof.
  intros E F. rewrite fold_left_app. simpl.
  rewrite (lastFile_none _ _ F). unfold scanLine. simpl. now rewrite E.
Qed.

Lemma downloadVideo_found H fs opts y f :
  getBinPath fs (lit "yt-dlp") = Some y ->
  getBinPath fs (lit "ffmpeg") = Some f ->
  let p := execa H fs (downloadCommand H y f opts) in
  let sc := fold_left scanLine (linesOf (chunks p))
              {| progress := []; lastFile := [] |} in
  downloadVideo H fs opts =
  {| d_fs := fsAfter p;
     d_spawned := [downloadCommand H y f opts];
     d_progress := progress sc;
     d_result := match rejected p with
                 | Some e => inl e
                 | None => inr (if truthy (lastFile sc) then lastFile sc
                                else outDirOf H)
                 end |}.
Proof.
  intros Y F.
  pose proof (getBinPath_truthy _ _ _ Y) as Ty.
  pose proof (getBinPath_truthy _ _ _ F) as Tf.
  assert (Oy : orDefault (Some y) [] = y) by (unfold orDefault; now rewrite Ty).
  assert (Of : orDefault (Some f) [] = f) by (unfold orDefault; now rewrite Tf).
  unfold downloadVideo. rewrite Y, F, Oy, Of. unfold notNot.
  rewrite Ty, Tf. cbn [negb]. rewrite fold_onData. reflexivity.
Qed.

(** C3 as stated fails when the capture of the last matching line is blank:
    the line matches the destination pattern, its capture is one space, and
    the output directory is returned. *)
Lemma downloadVideo_blank_capture :
  let H := hostPrinting blankDestination None in
  linesOf blankDestination = [lit "[download] Destination:  "]
  /\ destMatch (lit "[download] Destination:  ") = Some (lit " ")
  /\ d_result (downloadVideo H intelMac someVideo)
     = inr (lit "/Users/dean/Downloads/clipity")
  /\ d_result (downloadVideo H intelMac someVideo) <> inr (lit " ").
Proof.
  assert (R : d_result (downloadVideo (hostPrinting blankDestination None)
                          intelMac someVideo)
              = inr (lit "/Users/dean/Downloads/clipity"))
    by (vm_compute; reflexivity).
  cbv zeta. rewrite R. repeat split; try (vm_compute; reflexivity).
  discriminate.
Qed.

(** C3, amended.  When both binaries are found and the process exits with
    status 0, the returned path is the capture, trimmed of white space, of
    the last scanned line that matches the destination pattern or, failing
    that, the merge pattern; when that trimmed capture is empty, or no line
    matches, it is the output directory, [join(homedir(), "Downloads",
    "clipity")].  A line that starts with the destination announcement has
    the rest of the line as its capture; a line made of the merge
    announcement has the text between the quotes. *)
Theorem downloadVideo_path (H : host) (fs : filesystem)
  (opts : DownloadOptions) (y f : str) :
  getBinPath fs (lit "yt-dlp") = Some y ->
  getBinPath fs (lit "ffmpeg") = Some f ->
  rejected (execa H fs (downloadCommand H y f opts)) = None ->
  let ls := linesOf (chunks (execa H fs (downloadCommand H y f opts))) in
  let out := join [homedir H; lit "Downloads"; lit "clipity"] in
  (forall pre l post c,
     ls = pre ++ l :: post ->
     destMatch l = Some c ->
     Forall (fun l' => destMatch l' = None) post ->
     d_result (downloadVideo H fs opts)
     = inr (if truthy (trim c) then trim c else out))
  /\ (Forall (fun l => destMatch l = None) ls ->
      d_result (downloadVideo H fs opts) = inr out)
  /\ (forall path,
        path <> [] -> oneLine path ->
        destMatch (lit "[download] Destination: " ++ path) = Some path
        /\ (let l := lit "[Merger] Merging formats into " ++ [quote]
                       ++ path ++ [quote] in
            exec destRe l = None -> destMatch l = Some path)).
Proof.
  intros Y F R ls out.
  rewrite (downloadVideo_found H fs opts y f Y F). cbn [d_result].
  rewrite R. fold ls. split; [|split].
  - intros pre l post c E M N. rewrite E.
    now rewrite (lastFile_last _ _ _ _ _ M N).
  - intros N. now rewrite (lastFile_none _ _ N).
  - intros path N O. unfold destMatch. split.
    + now rewrite destRe_line.
    + cbv zeta. intros D. rewrite D. cbn [orElse]. now apply mergerRe_line.
Qed.

Lemma downloadVideo_path_witness :
  d_result (downloadVideo (hostPrinting mergedOutput None) intelMac someVideo)
  = inr (lit "/Users/dean/Downloads/clipity/a.mp4").
Proof.
  destruct (downloadVideo_path (hostPrinting mergedOutput None) intelMac
              someVideo (lit "/usr/local/bin/yt-dlp")
              (lit "/usr/local/bin/ffmpeg") eq_refl eq_refl eq_refl)
    as (Last & _ & _).
  apply (Last [lit "[download] Destination: /Users/dean/Downloads/clipity/a.f137.mp4";
               lit "[download] 100% of 3.00MiB"]
              (lit "[Merger] Merging formats into " ++ [quote]
                 ++ lit "/Users/dean/Downloads/clipity/a.mp4" ++ [quote])
              []
              (lit "/Users/dean/Downloads/clipity/a.mp4")).
  - vm_compute. reflexivity.
  - vm_compute. reflexivity.
  - constructor.
Defined.

(** ** downloadVideo: the percentage *)

Lemma dropWhile_head_false p s :
  match dropWhile p s with [] => True | c :: _ => p c = false end.
Proof.
  induction s as [|c t IH]; simpl; [exact I|].
  destruct (p c) eqn:E; [exact IH | exact E].
Qed.

Section PctGroup.
Variable K : str -> option str.
Hypothesis K_nil : K [] = None.
Hypothesis K_digit : forall c t, isDigit c = true -> K (c :: t) = None.
Hypothesis K_dot : forall t, K (dot :: t) = None.

(** A star of digits in front of [K] ends where the digits end. *)
Lemma star_digits_K s :
  star DigitCls s K = K (dropWhile isDigit s).
Proof.
  rewrite (span_app isDigit s) at 1.
  pose proof (takeWhile_Forall isDigit s) as D.
  pose proof (dropWhile_head_false isDigit s) as Hd.
  destruct (K (dropWhile isDigit s)) as [x|] eqn:E.
  - apply star_first; [exact D|]. now rewrite star_stop.
  - apply star_none; [exact D | now rewrite star_stop |].
    intros a1 a2 Ea Ne. destruct a2 as [|c a2]; [congruence|].
    apply K_digit. rewrite Ea in D. apply Forall_app in D.
    destruct D as [_ D]. now inversion D.
Qed.

Lemma afterDigits_digit c t :
  isDigit c = true -> afterDigits K (c :: t) = K (dropWhile isDigit (c :: t)).
Proof.
  intros D. unfold afterDigits. cbn [matchRe inCls].
  replace (c =? dot)%N with false.
  - apply star_digits_K.
  - symmetry. apply N.eqb_neq. apply isDigit_range in D.
    unfold dot. simpl. lia.
Qed.

Lemma afterDigits_rest r :
  match r with [] => True | c :: _ => isDigit c = false end ->
  afterDigits K r =
  match r with
  | c :: t => if (c =? dot)%N then K (dropWhile isDigit t) else K (c :: t)
  | [] => None
  end.
Proof.
  intros Hd. unfold afterDigits. destruct r as [|c t].
  - cbn [matchRe star]. exact K_nil.
  - cbn [matchRe inCls]. destruct (N.eqb_spec c dot) as [->|Nd].
    + rewrite !star_digits_K.
      replace (dropWhile isDigit (dot :: t)) with (dot :: t) by reflexivity.
      rewrite K_dot. now destruct (K (dropWhile isDigit t)).
    + rewrite star_digits_K. cbn [dropWhile]. now rewrite Hd.
Qed.

Lemma pct_group s :
  matchRe [Plus DigitCls; Opt (Lit dot); Star DigitCls] s K =
  match takeWhile isDigit s with
  | [] => None
  | _ :: _ =>
      match dropWhile isDigit s with
      | c :: t => if (c =? dot)%N then K (dropWhile isDigit t) else K (c :: t)
      | [] => None
      end
  end.
Proof.
  destruct s as [|c t]; [reflexivity|].
  cbn [matchRe inCls takeWhile dropWhile].
  destruct (isDigit c) eqn:Dc; [|reflexivity].
  change (fun s' => matchRe [Opt (Lit dot); Star DigitCls] s' K)
    with (afterDigits K).
  pose proof (dropWhile_head_false isDigit t) as Hd.
  pose proof (afterDigits_rest _ Hd) as R.
  rewrite <- R.
  rewrite (span_app isDigit t) at 1.
  pose proof (takeWhile_Forall isDigit t) as D.
  destruct (afterDigits K (dropWhile isDigit t)) as [x|] eqn:E.
  - apply star_first; [exact D|]. now rewrite star_stop.
  - apply star_none; [exact D | now rewrite star_stop |].
    intros a1 a2 Ea Ne. destruct a2 as [|c2 a2]; [congruence|].
    assert (D2 : digits (c2 :: a2)).
    { rewrite Ea in D. apply Forall_app in D. now destruct D. }
    change (afterDigits K ((c2 :: a2) ++ dropWhile isDigit t) = None).
    cbn [app]. rewrite afterDigits_digit by (now inversion D2).
    change (c2 :: a2 ++ dropWhile isDigit t)
      with ((c2 :: a2) ++ dropWhile isDigit t).
    rewrite dropWhile_app by exact D2.
    destruct (dropWhile isDigit t) as [|c3 t3]; [exact K_nil|].
    cbn [dropWhile]. rewrite Hd.
    destruct (N.eqb_spec c3 dot) as [->|_]; [apply K_dot | now symmetry].
Qed.
End PctGroup.

Lemma matchAt_pct s : matchAt pctRe s = pctAt s.
Proof.
  change (matchRe [Plus DigitCls; Opt (Lit dot); Star DigitCls] s
            (fun s2 : str =>
               matchRe [One (Lit (ch "%"))] s2
                 (fun _ => Some (firstn (length s - length s2) s)))
          = pctAt s).
  set (K := fun s2 : str =>
              matchRe [One (Lit (ch "%"))] s2
                (fun _ => Some (firstn (length s - length s2) s))).
  rewrite (pct_group K).
  - unfold pctAt.
    pose proof (span_app isDigit s) as Sp.
    destruct (takeWhile isDigit s) as [|d0 d1] eqn:T; [reflexivity|].
    destruct (dropWhile isDigit s) as [|c t] eqn:R; [reflexivity|].
    destruct (N.eqb_spec c percent) as [->|Np].
    + change (percent =? dot)%N with false. cbv iota.
      unfold K. cbn [matchRe inCls]. change (ch "%") with percent.
      rewrite N.eqb_refl. f_equal. rewrite Sp.
      apply firstn_app_exact.
    + destruct (N.eqb_spec c dot) as [->|Nd].
      * pose proof (span_app isDigit t) as Sp2.
        destruct (dropWhile isDigit t) as [|c2 t2] eqn:R2; [reflexivity|].
        unfold K. cbn [matchRe inCls]. change (ch "%") with percent.
        destruct (c2 =? percent)%N; [|reflexivity]. f_equal.
        remember (takeWhile isDigit t) as d2 eqn:Ed2. clear Ed2.
        rewrite Sp, Sp2.
        change ((d0 :: d1) ++ dot :: d2 ++ c2 :: t2)
          with ((d0 :: d1) ++ (dot :: d2) ++ c2 :: t2).
        rewrite app_assoc. apply firstn_app_exact.
      * unfold K. cbn [matchRe inCls]. change (ch "%") with percent.
        destruct (N.eqb_spec c percent); [contradiction | reflexivity].
  - reflexivity.
  - intros c t D. unfold K. cbn [matchRe inCls].
    replace (c =? ch "%")%N with false; [reflexivity|].
    symmetry. apply N.eqb_neq. apply isDigit_range in D. simpl. lia.
  - reflexivity.
Qed.

(** *** The text of a percentage *)

Lemma span_digits d r :
  digits d ->
  match r with [] => True | c :: _ => isDigit c = false end ->
  takeWhile isDigit (d ++ r) = d /\ dropWhile isDigit (d ++ r) = r.
Proof.
  intros D Hd. rewrite (takeWhile_app _ _ _ D), (dropWhile_app _ _ _ D).
  destruct r as [|c t]; simpl; [now rewrite app_nil_r|].
  rewrite Hd. now rewrite app_nil_r.
Qed.

Lemma pctAt_complete c v post :
  pctText c v -> pctAt (c ++ percent :: post) = Some c.
Proof.
  intros [d D N|d1 d2 D1 N D2]; unfold pctAt.
  - destruct (span_digits d (percent :: post) D eq_refl) as [-> ->].
    rewrite N.eqb_refl. destruct d; [congruence | reflexivity].
  - rewrite <- app_assoc. cbn [app].
    destruct (span_digits d1 (dot :: d2 ++ percent :: post) D1 eq_refl)
      as [-> ->].
    change (dot =? percent)%N with false. rewrite N.eqb_refl.
    destruct (span_digits d2 (percent :: post) D2 eq_refl) as [-> ->].
    rewrite N.eqb_refl. destruct d1; [congruence | reflexivity].
Qed.

Lemma pctAt_sound s c :
  pctAt s = Some c ->
  exists v post, s = c ++ percent :: post /\ pctText c v.
Proof.
  unfold pctAt. pose proof (span_app isDigit s) as Sp.
  pose proof (takeWhile_Forall isDigit s) as D1.
  destruct (takeWhile isDigit s) as [|d0 d1] eqn:T; [discriminate|].
  destruct (dropWhile isDigit s) as [|x t] eqn:R; [discriminate|].
  destruct (N.eqb_spec x percent) as [->|Np].
  - intros E. inversion E; subst c.
    exists (decimalValue (d0 :: d1) []), t. split; [exact Sp|].
    constructor; [exact D1 | discriminate].
  - destruct (N.eqb_spec x dot) as [->|Nd]; [|discriminate].
    pose proof (span_app isDigit t) as Sp2.
    pose proof (takeWhile_Forall isDigit t) as D2.
    destruct (dropWhile isDigit t) as [|c2 t2] eqn:R2; [discriminate|].
    destruct (N.eqb_spec c2 percent) as [->|_]; [|discriminate].
    remember (takeWhile isDigit t) as d2 eqn:Ed2. clear Ed2.
    intros E. injection E as <-.
    exists (decimalValue (d0 :: d1) d2), t2. split.
    + change (s = ((d0 :: d1) ++ dot :: d2) ++ percent :: t2).
      rewrite Sp, Sp2. now rewrite <- app_assoc.
    + apply (pct_point (d0 :: d1) d2); [exact D1 | discriminate | exact D2].
Qed.

Lemma pctMatch_None line : pctMatch line = None <-> ~ containsPct line.
Proof.
  unfold pctMatch. rewrite exec_None. split.
  - intros N (pre & c & v & post & E & T).
    specialize (N pre (c ++ percent :: post) E).
    rewrite matchAt_pct, (pctAt_complete _ _ _ T) in N. discriminate.
  - intros N pre suf E. rewrite matchAt_pct.
    destruct (pctAt suf) as [c|] eqn:P; [|reflexivity].
    exfalso. apply N. destruct (pctAt_sound _ _ P) as (v & post & -> & T).
    now exists pre, c, v, post.
Qed.

(** The match is the leftmost percentage of the line. *)
Lemma pctMatch_Some line c :
  pctMatch line = Some c ->
  exists pre v post,
    line = pre ++ c ++ percent :: post /\ pctText c v
    /\ forall pre' c' v' post',
         line = pre' ++ c' ++ percent :: post' -> pctText c' v' ->
         (length pre <= length pre')%nat.
Proof.
  unfold pctMatch. rewrite exec_Some. intros (pre & suf & E & M & Lm).
  rewrite matchAt_pct in M.
  destruct (pctAt_sound _ _ M) as (v & post & -> & T).
  exists pre, v, post. repeat split; [exact E | exact T|].
  intros pre' c' v' post' E' T'.
  destruct (Nat.le_gt_cases (length pre) (length pre')) as [L|G]; [exact L|].
  specialize (Lm pre' _ E' G).
  rewrite matchAt_pct, (pctAt_complete _ _ _ T') in Lm. discriminate.
Qed.

Lemma scanUnsignedDecimal_frac d1 d2 :
  digits d1 -> d1 <> [] -> digits d2 ->
  scanUnsignedDecimal (d1 ++ dot :: d2) = Some (decimalValue d1 d2, []).
Proof.
  intros D1 N D2. unfold scanUnsignedDecimal.
  destruct (span_digits d1 (dot :: d2) D1 eq_refl) as [-> ->].
  change (dot =? 46)%N with true. cbv iota.
  rewrite (takeWhile_all _ _ D2), (dropWhile_all _ _ D2).
  destruct d1 as [|c t]; [congruence|]. cbn [app scanExponent].
  unfold decimalValue. now rewrite Z.sub_0_l.
Qed.

Lemma parseFloat_pct c v : pctText c v -> parseFloat c = fin v.
Proof.
  intros [d D N|d1 d2 D1 N D2]; unfold parseFloat, trimStart.
  - destruct d as [|x t]; [congruence|].
    assert (Dx : isDigit x = true) by (now inversion D).
    rewrite dropWhile_head by (now apply digit_not_space).
    rewrite digit_head by exact Dx.
    destruct (scanUnsignedDecimal_int _ D N) as (q & -> & E).
    apply fin_comp. rewrite E.
    unfold decimalValue. rewrite app_nil_r. cbn [length Z.of_nat Z.opp Qpower].
    ring.
  - destruct d1 as [|x t]; [congruence|].
    assert (Dx : isDigit x = true) by (now inversion D1).
    cbn [app]. rewrite dropWhile_head by (now apply digit_not_space).
    rewrite digit_head by exact Dx.
    change (x :: t ++ dot :: d2) with ((x :: t) ++ dot :: d2).
    now rewrite scanUnsignedDecimal_frac.
Qed.

(** [Math.round] gives the integer [r] with [r <= x + 1/2 < r + 1]. *)
Lemma Math_round_nearest x :
  exists r : Z,
    Math_round (Fin x) = ofZ r
    /\ (inject_Z r <= x + (1 # 2))%Q /\ (x + (1 # 2) < inject_Z r + 1)%Q.
Proof.
  exists (Qfloor (x + (1 # 2))). split; [reflexivity|]. split.
  - apply Qfloor_le.
  - rewrite <- (inject_Z_plus _ 1). apply Qlt_floor.
Qed.

(** A decimal of few digits is rounded by [Math.round] as its exact value
    is: the binary64 that stands for it lies on the same side of every
    half-integer. *)
Lemma digitsVal_bound d : digits d -> (digitsVal d < 10 ^ Z.of_nat (length d))%Z.
Proof.
  induction d as [|c d IH] using rev_ind; intros D; [reflexivity|].
  apply Forall_app in D. destruct D as [D Dc]. inversion Dc as [|? ? X _]; subst.
  apply isDigit_range in X. rewrite digitsVal_snoc. specialize (IH D).
  rewrite length_app, Nat2Z.inj_add. cbn [length]. rewrite Z.pow_add_r by lia.
  change (10 ^ Z.of_nat 1)%Z with 10%Z. unfold digitVal. lia.
Qed.

Lemma half_cell u w p :
  (0 < w)%Z -> (p * w <= 2 * u < (p + 1) * w)%Z ->
  ((2 * u + w) / (2 * w) = (p + 1) / 2)%Z.
Proof.
  intros W [Lo Hi]. pose proof (Z.div_mod (p + 1) 2 ltac:(lia)) as E.
  pose proof (Z.mod_pos_bound (p + 1) 2 ltac:(lia)) as B.
  symmetry.
  apply (Z.div_unique_pos _ _ _ (2 * u + w - 2 * w * ((p + 1) / 2))); nia.
Qed.

Lemma Qpower_10_neg k :
  (0 <= k)%Z -> (Qpower (inject_Z 10) (- k) == 1 # Z.to_pos (10 ^ k))%Q.
Proof.
  intros K. rewrite Qpower_opp, <- Zpower_Qpower by exact K.
  assert (P : (0 < 10 ^ k)%Z) by (apply Z.pow_pos_nonneg; lia).
  destruct (10 ^ k)%Z as [|pp|pp]; try lia. reflexivity.
Qed.

Lemma round_short_decimal K k :
  (0 <= K < 10 ^ 15)%Z -> (0 <= k <= 15)%Z ->
  let v := (inject_Z K * Qpower (inject_Z 10) (- k))%Q in
  Math_round (fin v) = ofZ (Qfloor (v + (1 # 2))).
Proof.
  intros BK Bk v. set (D := (10 ^ k)%Z).
  assert (PD : (0 < D <= 10 ^ 15)%Z).
  { split; [apply Z.pow_pos_nonneg; lia | apply Z.pow_le_mono_r; lia]. }
  assert (E : (v == K # Z.to_pos D)%Q).
  { unfold v. rewrite Qpower_10_neg by lia. fold D.
    unfold Qeq, Qmult, inject_Z. cbn [Qnum Qden]. lia. }
  assert (R : Qfloor (v + (1 # 2)) = ((2 * K + D) / (2 * D))%Z).
  { assert (E2 : (v + (1 # 2) == (2 * K + D) # Z.to_pos (2 * D))%Q).
    { rewrite E. unfold Qeq, Qplus. cbn [Qnum Qden].
      rewrite !Pos2Z.inj_mul, !Z2Pos.id by lia. ring. }
    rewrite (Qfloor_comp _ _ E2). apply Qfloor_make. lia. }
  rewrite R, (fin_comp _ _ E).
  destruct (Z.eq_dec K 0) as [->|NK].
  { replace ((2 * 0 + D) / (2 * D))%Z with 0%Z
      by (symmetry; apply Z.div_small; lia).
    reflexivity. }
  pose proof (Z.div_mod (2 * K) D ltac:(lia)) as Dm.
  pose proof (Z.mod_pos_bound (2 * K) D ltac:(lia)) as Mb.
  set (p := (2 * K / D)%Z) in *.
  assert (P1074 : (2 ^ 53 <= 2 ^ 1074)%Z) by (apply Z.pow_le_mono_r; lia).
  destruct (fin_grid K D 1 p) as (m & dn & Pd & -> & Lo & Hi);
    change (2 ^ 1)%Z with 2%Z in *; try lia.
  unfold Math_round.
  assert (E3 : (Qred (m # Z.to_pos dn) + (1 # 2)
                == (2 * m + dn) # Z.to_pos (2 * dn))%Q).
  { rewrite Qred_correct. unfold Qeq, Qplus. cbn [Qnum Qden].
    rewrite !Pos2Z.inj_mul, !Z2Pos.id by lia. ring. }
  rewrite (Qfloor_comp _ _ E3), Qfloor_make by lia.
  unfold ofZ. do 2 f_equal.
  rewrite (half_cell m dn p), (half_cell K D p) by lia. reflexivity.
Qed.

Lemma pct_short c v :
  pctText c v -> (length c <= 15)%nat ->
  Math_round (fin v) = ofZ (Qfloor (v + (1 # 2))).
Proof.
  intros [d D N|d1 d2 D1 N D2] L; unfold decimalValue.
  - rewrite app_nil_r. apply round_short_decimal; cbn [length Z.of_nat]; [|lia].
    split; [now apply digitsVal_nonneg|].
    apply Z.lt_le_trans with (10 ^ Z.of_nat (length d))%Z;
      [now apply digitsVal_bound | apply Z.pow_le_mono_r; lia].
  - rewrite length_app in L. cbn [length] in L.
    assert (D12 : digits (d1 ++ d2)) by (apply Forall_app; now split).
    apply round_short_decimal; [|lia].
    split; [now apply digitsVal_nonneg|].
    apply Z.lt_le_trans with (10 ^ Z.of_nat (length (d1 ++ d2)))%Z;
      [now apply digitsVal_bound|].
    apply Z.pow_le_mono_r; [lia|]. rewrite length_app. lia.
Qed.

Lemma noPctBefore_first pre line :
  noPctBefore (length pre) line = true -> firstPct pre line.
Proof.
  intros B pre' c' v' post' E T.
  destruct (Nat.le_gt_cases (length pre) (length pre')) as [L|G]; [exact L|].
  exfalso. unfold noPctBefore in B. rewrite forallb_forall in B.
  specialize (B (length pre') ltac:(apply in_seq; lia)).
  rewrite E, skipn_app, skipn_all, Nat.sub_diag in B. cbn [skipn app] in B.
  now rewrite (pctAt_complete _ _ _ T) in B.
Qed.

(** The call made for the first percentage of a line. *)
Lemma pctMatch_first line pre c v post :
  line = pre ++ c ++ percent :: post -> pctText c v -> firstPct pre line ->
  pctMatch line = Some c.
Proof.
  intros E T F. destruct (pctMatch line) as [c0|] eqn:M.
  2:{ apply pctMatch_None in M. exfalso. apply M. now exists pre, c, v, post. }
  destruct (pctMatch_Some _ _ M) as (pre0 & v0 & post0 & E0 & T0 & F0).
  pose proof (F _ _ _ _ E0 T0) as L1. pose proof (F0 _ _ _ _ E T) as L2.
  assert (Ll : length pre = length pre0) by lia.
  assert (Es : c ++ percent :: post = c0 ++ percent :: post0).
  { rewrite E in E0.
    assert (X : skipn (length pre) (pre ++ c ++ percent :: post)
                = skipn (length pre) (pre0 ++ c0 ++ percent :: post0))
      by (now rewrite <- E0).
    rewrite skipn_app, skipn_all, Nat.sub_diag in X. cbn [skipn app] in X.
    rewrite Ll, skipn_app, skipn_all, Nat.sub_diag in X. exact X. }
  pose proof (pctAt_complete c v post T) as A.
  pose proof (pctAt_complete c0 v0 post0 T0) as A0.
  rewrite Es, A0 in A. exact A.
Qed.

Lemma progress_fold ls : forall sc,
  progress (fold_left scanLine ls sc)
  = progress sc ++ flat_map (fun l => progress (scanLine noCalls l)) ls.
Proof.
  induction ls as [|l ls IH]; intros sc; [symmetry; apply app_nil_r|].
  cbn [fold_left flat_map]. rewrite IH, app_assoc. f_equal.
  unfold scanLine, noCalls. cbn [progress].
  destruct (pctMatch l); [reflexivity | symmetry; apply app_nil_r].
Qed.

(** C4.  On each scanned line: if the line contains a percentage (digits,
    optionally a dot and further digits, then [%]), [onProgress] is called
    once, with the line and with [Math.round] of what [parseFloat] makes of
    the first such text, which is the binary64 nearest to the decimal
    written: the integer nearest to that number, a tie going up, and, for a
    text of at most 15 characters, the integer nearest to the decimal
    itself.  A line whose first percentage is [42.5%] gives 43; one whose
    first percentage is [0.49999999999999999%] gives 1, that text being
    read as one half.  A line without a percentage gives no call.  The calls of a run of
    [downloadVideo] are those of its lines, in order. *)
Theorem progress_parsing (sc : scan) (line : str) :
  (forall pre c v post,
     line = pre ++ c ++ percent :: post -> pctText c v -> firstPct pre line ->
     parseFloat c = fin v
     /\ progress (scanLine sc line)
        = progress sc ++ [(Math_round (fin v), line)]
     /\ (forall x, fin v = Fin x ->
         exists r : Z,
           Math_round (fin v) = ofZ r
           /\ (inject_Z r <= x + (1 # 2))%Q /\ (x + (1 # 2) < inject_Z r + 1)%Q)
     /\ ((length c <= 15)%nat ->
         Math_round (fin v) = ofZ (Qfloor (v + (1 # 2)))))
  /\ (containsPct line ->
      exists pre c v post,
        line = pre ++ c ++ percent :: post /\ pctText c v
        /\ firstPct pre line)
  /\ (~ containsPct line -> progress (scanLine sc line) = progress sc)
  /\ (forall pre post,
        line = pre ++ lit "42.5" ++ percent :: post -> firstPct pre line ->
        progress (scanLine sc line) = progress sc ++ [(ofZ 43, line)])
  /\ (forall pre post,
        line = pre ++ lit "0.49999999999999999" ++ percent :: post ->
        firstPct pre line ->
        progress (scanLine sc line) = progress sc ++ [(ofZ 1, line)])
  /\ (forall H fs opts y f,
        getBinPath fs (lit "yt-dlp") = Some y ->
        getBinPath fs (lit "ffmpeg") = Some f ->
        d_progress (downloadVideo H fs opts)
        = flat_map (fun l => progress (scanLine noCalls l))
            (linesOf (chunks (execa H fs (downloadCommand H y f opts))))).
Proof.
  assert (Call : forall pre c v post,
            line = pre ++ c ++ percent :: post -> pctText c v ->
            firstPct pre line ->
            progress (scanLine sc line)
            = progress sc ++ [(Math_round (fin v), line)]).
  { intros pre c v post E T F. unfold scanLine. cbn [progress].
    rewrite (pctMatch_first _ _ _ _ _ E T F).
    now rewrite (parseFloat_pct _ _ T). }
  split; [|split; [|split; [|split; [|split]]]].
  - intros pre c v post E T F.
    split; [now apply parseFloat_pct|].
    split; [exact (Call pre c v post E T F)|]. split.
    + intros x Ex. rewrite Ex. apply Math_round_nearest.
    + now apply pct_short.
  - intros C. destruct (pctMatch line) as [c|] eqn:M.
    + destruct (pctMatch_Some _ _ M) as (pre & v & post & E & T & Lm).
      now exists pre, c, v, post.
    + apply pctMatch_None in M. contradiction.
  - intros N. apply pctMatch_None in N. unfold scanLine. cbn [progress].
    now rewrite N.
  - intros pre post E F.
    rewrite (Call pre (lit "42.5") (decimalValue (lit "42") (lit "5")) post E).
    + reflexivity.
    + apply (pct_point (lit "42") (lit "5")); try discriminate;
        repeat constructor.
    + exact F.
  - intros pre post E F.
    rewrite (Call pre (lit "0.49999999999999999")
               (decimalValue (lit "0") (lit "49999999999999999")) post E).
    + replace (Math_round
                 (fin (decimalValue (lit "0") (lit "49999999999999999"))))
        with (ofZ 1) by (vm_compute; reflexivity).
      reflexivity.
    + apply (pct_point (lit "0") (lit "49999999999999999"));
        try discriminate; repeat constructor.
    + exact F.
  - intros H fs opts y f Y F.
    rewrite (downloadVideo_found H fs opts y f Y F). cbn [d_progress].
    change {| progress := []; lastFile := [] |} with noCalls.
    rewrite progress_fold. reflexivity.
Qed.

Lemma progress_parsing_witness :
  progress (scanLine {| progress := []; lastFile := [] |}
              (lit "ETA 00:05 at 7.5%"))
  = [(ofZ 8, lit "ETA 00:05 at 7.5%")]
  /\ progress (scanLine {| progress := []; lastFile := [] |}
                 (lit "[download] Destination: a.mp4")) = [].
Proof.
  destruct (progress_parsing {| progress := []; lastFile := [] |}
              (lit "ETA 00:05 at 7.5%")) as (Yes & _ & _ & _).
  destruct (progress_parsing {| progress := []; lastFile := [] |}
              (lit "[download] Destination: a.mp4")) as (_ & _ & No & _).
  split.
  - destruct (Yes (lit "ETA 00:05 at ") (lit "7.5")
                (decimalValue (lit "7") (lit "5")) [] eq_refl)
      as (_ & R & _ & Sh).
    + apply (pct_point (lit "7") (lit "5")); try discriminate;
        repeat constructor.
    + apply noPctBefore_first. vm_compute. reflexivity.
    + rewrite R, Sh by (vm_compute; lia). reflexivity.
  - apply No. apply pctMatch_None. vm_compute. reflexivity.
Defined.

(** ** The lines of a chunk *)

Lemma dropWhile_snoc p a c :
  p c = false -> dropWhile p (a ++ [c]) = dropWhile p a ++ [c].
Proof.
  intros E. induction a as [|x a IH]; simpl; [now rewrite E|].
  destruct (p x); [exact IH | reflexivity].
Qed.

Lemma trimEnd_cons c t :
  isWhiteSpace c = false -> trimEnd (c :: t) = c :: trimEnd t.
Proof.
  intros E. unfold trimEnd. cbn [rev].
  rewrite (dropWhile_snoc _ _ _ E), rev_app_distr. reflexivity.
Qed.

Lemma dropWhile_split p s :
  exists a, s = a ++ dropWhile p s /\ Forall (fun c => p c = true) a.
Proof.
  induction s as [|c s (a & E & F)]; [now exists []|]. simpl.
  destruct (p c) eqn:Pc.
  - exists (c :: a). split; [now rewrite <- app_comm_cons, <- E|].
    now constructor.
  - now exists [].
Qed.

(** [trim] takes white space off both ends, all of it, and nothing else. *)
Lemma trim_spec s :
  (exists a b,
     s = a ++ trim s ++ b
     /\ Forall (fun c => isWhiteSpace c = true) a
     /\ Forall (fun c => isWhiteSpace c = true) b)
  /\ (forall c t, trim s = c :: t -> isWhiteSpace c = false)
  /\ (forall t c, trim s = t ++ [c] -> isWhiteSpace c = false).
Proof.
  split; [|split].
  - destruct (dropWhile_split isWhiteSpace s) as (a & Ea & Fa).
    destruct (dropWhile_split isWhiteSpace (rev (trimStart s)))
      as (b & Eb & Fb).
    exists a, (rev b). repeat split.
    + unfold trim, trimEnd. rewrite <- rev_app_distr, <- Eb, rev_involutive.
      exact Ea.
    + exact Fa.
    + now apply Forall_rev.
  - intros c t E. unfold trim in E.
    pose proof (dropWhile_head_false isWhiteSpace s) as F.
    unfold trimStart in E.
    destruct (dropWhile isWhiteSpace s) as [|c0 t0]; [discriminate|].
    rewrite (trimEnd_cons _ _ F) in E. now injection E as <- _.
  - intros t c E. unfold trim, trimEnd in E.
    pose proof (dropWhile_head_false isWhiteSpace (rev (trimStart s))) as F.
    assert (R : dropWhile isWhiteSpace (rev (trimStart s)) = c :: rev t).
    { rewrite <- (rev_involutive (dropWhile _ _)), E, rev_app_distr.
      reflexivity. }
    now rewrite R in F.
Qed.

Lemma forwardLines_cut chunk :
  forwardLines chunk
  = map (fun piece => firstn 100 (trim piece))
      (filter (fun piece => negb (length piece =? 0)%nat)
         (split newline chunk)).
Proof.
  unfold forwardLines, slice0. f_equal. apply filter_ext.
  now intros [|c t].
Qed.

Lemma flat_map_forwardLines cs :
  flat_map forwardLines cs
  = flat_map (fun chunk =>
                map (fun piece => firstn 100 (trim piece))
                  (filter (fun piece => negb (length piece =? 0)%nat)
                     (split newline chunk))) cs.
Proof. apply flat_map_ext. exact forwardLines_cut. Qed.

Lemma progress_keeps ls : forall sc pl,
  In pl (progress sc) -> In pl (progress (fold_left scanLine ls sc)).
Proof.
  induction ls as [|l ls IH]; intros sc pl I; [exact I|].
  simpl. apply IH. unfold scanLine. cbn [progress].
  destruct (pctMatch l); [apply in_or_app; now left | exact I].
Qed.

Lemma progress_to ls : forall sc l,
  In l ls -> pctMatch l <> None ->
  exists pct, In (pct, l) (progress (fold_left scanLine ls sc)).
Proof.
  induction ls as [|x ls IH]; intros sc l I P; [contradiction|].
  destruct I as [->|I]; [|now apply IH].
  simpl. destruct (pctMatch l) as [c|] eqn:M; [|congruence].
  exists (Math_round (parseFloat c)). apply progress_keeps.
  unfold scanLine. cbn [progress]. rewrite M.
  apply in_or_app. right. now left.
Qed.

Lemma split_join c s : intercalate [c] (split c s) = s.
Proof.
  induction s as [|x s IH]; [reflexivity|]. simpl.
  destruct (N.eqb_spec x c) as [->|N].
  - pose proof (split_nonempty c s) as NE.
    destruct (split c s) as [|w ws]; [congruence|].
    change (intercalate [c] ([] :: w :: ws))
      with ([] ++ [c] ++ intercalate [c] (w :: ws)).
    now rewrite IH.
  - destruct (split c s) as [|w ws] eqn:E.
    + exfalso. exact (split_nonempty _ _ E).
    + destruct ws as [|w' ws'].
      * simpl in *. now rewrite IH.
      * change (intercalate [c] ((x :: w) :: w' :: ws'))
          with (x :: (w ++ [c] ++ intercalate [c] (w' :: ws'))).
        f_equal. exact IH.
Qed.

Lemma split_pieces c s : Forall (fun piece => ~ In c piece) (split c s).
Proof.
  induction s as [|x s IH]; simpl; [repeat constructor; tauto|].
  destruct (N.eqb_spec x c) as [->|N].
  - constructor; [tauto | exact IH].
  - destruct (split c s) as [|w ws]; [repeat constructor; simpl; tauto|].
    inversion IH; subst. constructor; [|assumption].
    simpl. intros [E|I]; [congruence | contradiction].
Qed.

Lemma progress_from ls : forall sc pl,
  In pl (progress (fold_left scanLine ls sc)) ->
  In pl (progress sc)
  \/ (In (snd pl) ls /\ pctMatch (snd pl) <> None).
Proof.
  induction ls as [|l ls IH]; intros sc pl I; [now left|].
  simpl in I. apply IH in I. destruct I as [I|[I P]].
  - unfold scanLine in I. cbn [progress] in I.
    destruct (pctMatch l) eqn:M; [|now left].
    apply in_app_or in I. destruct I as [I|[<-|[]]]; [now left|].
    right. cbn [snd]. split; [now left | congruence].
  - right. split; [now right | exact P].
Qed.

(** C6 as stated fails for the download executor: the line handed to
    [onProgress] is the whole line, here of 123 characters. *)
Lemma downloadVideo_long_line :
  d_progress (downloadVideo (hostPrinting [longLine ++ [newline]] None)
                intelMac someVideo)
  = [(ofZ 50, longLine)]
  /\ length longLine = 123%nat
  /\ ~ Forall (fun pl : number * str => (length (snd pl) <= 100)%nat)
         (d_progress (downloadVideo (hostPrinting [longLine ++ [newline]] None)
                        intelMac someVideo)).
Proof.
  assert (E : d_progress (downloadVideo
                            (hostPrinting [longLine ++ [newline]] None)
                            intelMac someVideo) = [(ofZ 50, longLine)])
    by (vm_compute; reflexivity).
  rewrite E. repeat split.
  intros F. inversion F as [|? ? L _]; subst. vm_compute in L. lia.
Qed.

(** C6, amended.  A chunk is cut at its newlines, and the empty pieces are
    dropped, in all three listeners.  [installHomebrew] and [brewInstall]
    hand to [onLine] every remaining piece of every chunk of the process
    they spawn, in order, trimmed and cut to its first 100 characters, and
    nothing else; so no forwarded line is longer than that, and without a
    process nothing is forwarded.  [downloadVideo] hands to [onProgress]
    the pieces that hold a percentage, all of them, as they are. *)
Theorem output_lines (H : host) (fs : filesystem) (pkg : str)
  (opts : DownloadOptions) :
  let cut := fun chunk : str =>
    map (fun piece => firstn 100 (trim piece))
      (filter (fun piece => negb (length piece =? 0)%nat)
         (split newline chunk)) in
  (forall chunk,
     intercalate [newline] (split newline chunk) = chunk
     /\ Forall (fun piece => ~ In newline piece) (split newline chunk))
  /\ (forall piece,
        (exists a b,
           piece = a ++ trim piece ++ b
           /\ Forall (fun c => isWhiteSpace c = true) a
           /\ Forall (fun c => isWhiteSpace c = true) b)
        /\ (forall c t, trim piece = c :: t -> isWhiteSpace c = false)
        /\ (forall t c, trim piece = t ++ [c] -> isWhiteSpace c = false))
  /\ (exists c,
        i_spawned (installHomebrew H fs) = [c]
        /\ i_lines (installHomebrew H fs)
           = flat_map cut (chunks (execa H fs c)))
  /\ ((exists c,
         i_spawned (brewInstall H fs pkg) = [c]
         /\ i_lines (brewInstall H fs pkg)
            = flat_map cut (chunks (execa H fs c)))
      \/ (i_spawned (brewInstall H fs pkg) = []
          /\ i_lines (brewInstall H fs pkg) = []))
  /\ (forall l,
        In l (i_lines (installHomebrew H fs))
        \/ In l (i_lines (brewInstall H fs pkg)) ->
        (length l <= 100)%nat)
  /\ (forall pct line,
        In (pct, line) (d_progress (downloadVideo H fs opts)) ->
        exists c chunk,
          In c (d_spawned (downloadVideo H fs opts))
          /\ In chunk (chunks (execa H fs c))
          /\ In line (split newline chunk) /\ line <> []
          /\ containsPct line)
  /\ (forall c chunk line,
        In c (d_spawned (downloadVideo H fs opts)) ->
        In chunk (chunks (execa H fs c)) ->
        In line (split newline chunk) -> line <> [] -> containsPct line ->
        exists pct, In (pct, line) (d_progress (downloadVideo H fs opts))).
Proof.
  intros cut.
  assert (L : forall cs l, In l (flat_map cut cs) -> (length l <= 100)%nat).
  { intros cs l I. apply in_flat_map in I. destruct I as (chunk & _ & I).
    unfold cut in I. apply in_map_iff in I. destruct I as (piece & <- & _).
    apply firstn_le_length. }
  assert (Hb : exists c,
             i_spawned (installHomebrew H fs) = [c]
             /\ i_lines (installHomebrew H fs)
                = flat_map cut (chunks (execa H fs c))).
  { exists homebrewCommand. unfold installHomebrew. cbn [i_spawned i_lines].
    split; [reflexivity | apply flat_map_forwardLines]. }
  assert (Bi : (exists c,
                  i_spawned (brewInstall H fs pkg) = [c]
                  /\ i_lines (brewInstall H fs pkg)
                     = flat_map cut (chunks (execa H fs c)))
               \/ (i_spawned (brewInstall H fs pkg) = []
                   /\ i_lines (brewInstall H fs pkg) = [])).
  { unfold brewInstall. destruct (getBrewPath fs) as [b|]; [|now right].
    destruct (truthy b); [|now right]. left. eexists.
    cbn [i_spawned i_lines].
    split; [reflexivity | apply flat_map_forwardLines]. }
  split; [|split; [|split; [|split; [|split; [|split]]]]].
  - intros chunk. split; [apply split_join | apply split_pieces].
  - intros piece. apply trim_spec.
  - exact Hb.
  - exact Bi.
  - intros l [I|I].
    + destruct Hb as (c & _ & E). rewrite E in I. exact (L _ _ I).
    + destruct Bi as [(c & _ & E)|[_ E]]; rewrite E in I;
        [exact (L _ _ I) | contradiction].
  - intros pct line I. unfold downloadVideo in *.
    destruct (negb (notNot (getBinPath fs (lit "yt-dlp")))); [contradiction|].
    destruct (negb (notNot (getBinPath fs (lit "ffmpeg")))); [contradiction|].
    cbn [d_progress d_spawned] in *. rewrite fold_onData in I.
    apply progress_from in I. cbn [progress snd] in I.
    destruct I as [[]|[I P]].
    unfold linesOf in I. apply in_flat_map in I.
    destruct I as (chunk & Ic & Il). apply filter_In in Il.
    destruct Il as [Il T].
    eexists. exists chunk. repeat split.
    + now left.
    + exact Ic.
    + exact Il.
    + now apply truthy_true.
    + destruct (pctMatch line) eqn:M; [|congruence].
      destruct (pctMatch_Some _ _ M) as (pre & v & post & E & Tx & _).
      now exists pre, s, v, post.
  - intros c chunk line Ic Ih Il N P. unfold downloadVideo in *.
    destruct (negb (notNot (getBinPath fs (lit "yt-dlp")))); [contradiction|].
    destruct (negb (notNot (getBinPath fs (lit "ffmpeg")))); [contradiction|].
    cbn [d_progress d_spawned] in *. destruct Ic as [<-|[]].
    rewrite fold_onData. apply progress_to.
    + unfold linesOf. apply in_flat_map. exists chunk. split; [exact Ih|].
      apply filter_In. split; [exact Il | now apply truthy_true].
    + intros M. apply pctMatch_None in M. contradiction.
Qed.

Lemma output_lines_witness :
  i_lines (brewInstall (hostPrinting brewOutput None) intelMac (lit "yt-dlp"))
  = [lit "==> Downloading yt-dlp"; repeat 35%N 100]
  /\ Forall (fun l => (length l <= 100)%nat)
       (i_lines (brewInstall (hostPrinting brewOutput None) intelMac
                   (lit "yt-dlp"))).
Proof.
  split; [vm_compute; reflexivity|].
  apply Forall_forall. intros l I.
  destruct (output_lines (hostPrinting brewOutput None) intelMac
              (lit "yt-dlp") someVideo) as (_ & _ & _ & _ & B & _).
  apply B. now right.
Defined.

(** ** handleSubmit *)

Lemma gt_not_ge a b : (b > a)%js = true -> (a >= b)%js = false.
Proof.
  destruct a as [| | |x], b as [| | |y]; simpl; try congruence.
  intros E. now apply negb_true_iff in E.
Qed.

Lemma onProgress_keeps info calls : forall s t rest,
  Download.toasts s = t :: rest ->
  let s' := fold_left (Download.onProgress info) calls s in
  Download.invoked s' = Download.invoked s
  /\ Download.spawned s' = Download.spawned s
  /\ Download.fs s' = Download.fs s
  /\ exists t', Download.toasts s' = t' :: rest.
Proof.
  induction calls as [|c calls IH]; intros s t rest T.
  - simpl. repeat split. now exists t.
  - cbn [fold_left].
    assert (T' : exists t', Download.toasts (Download.onProgress info s c)
                            = t' :: rest).
    { unfold Download.onProgress, Download.setToast. cbn [Download.toasts].
      unfold Download.setProgress. cbn [Download.toasts]. rewrite T.
      eexists. reflexivity. }
    destruct T' as [t' T'].
    destruct (IH _ _ _ T') as (I & S & F & Ts).
    cbv zeta. rewrite I, S, F. repeat split. exact Ts.
Qed.

(** C2.  When both times parse and the start is not below the end,
    [handleSubmit] shows the failure toast and does nothing else:
    [downloadVideo] is not invoked and no process is spawned.  When the start
    parses strictly below the end, or either time does not parse, the toast
    is not shown and [downloadVideo] is invoked, once, with the request. *)
Theorem handleSubmit_validation (H : host) (info : Download.VideoInfo)
  (values : Download.FormValues) (s : Download.session) :
  let start := parseTimeToSeconds (Download.f_startTime values) in
  let stop := parseTimeToSeconds (Download.f_endTime values) in
  let s' := Download.handleSubmit H info values s in
  (forall a b,
     start = Some a -> stop = Some b -> (a >= b)%js = true ->
     s' = Download.showToast Download.invalidRange s
     /\ Download.invoked s' = Download.invoked s
     /\ Download.spawned s' = Download.spawned s)
  /\ (start = None \/ stop = None
      \/ (exists a b, start = Some a /\ stop = Some b /\ (b > a)%js = true) ->
      exists t,
        Download.invoked s'
        = Download.invoked s
            ++ [{| url := Download.v_url info;
                   startTime :=
                     Download.orUndefined (Download.f_startTime values);
                   endTime := Download.orUndefined (Download.f_endTime values);
                   format := Download.f_format values;
                   quality := None |}]
        /\ Download.toasts s' = t :: Download.toasts s
        /\ (Setup.title t = lit "Download complete!"
            \/ Setup.title t = lit "Download failed")).
Proof.
  intros start stop s'. split.
  - intros a b Ea Eb G. subst s'. unfold Download.handleSubmit.
    fold start stop. rewrite Ea, Eb, G. repeat split.
  - intros Ok.
    assert (C : match start, stop with
                | Some a, Some b => (a >= b)%js
                | _, _ => false
                end = false).
    { destruct Ok as [->|[->|(a & b & -> & -> & L)]];
        [reflexivity | now destruct start | now apply gt_not_ge]. }
    subst s'. unfold Download.handleSubmit. fold start stop. rewrite C.
    set (opts := {| url := Download.v_url info;
                    startTime := Download.orUndefined (Download.f_startTime values);
                    endTime := Download.orUndefined (Download.f_endTime values);
                    format := Download.f_format values;
                    quality := None |}).
    set (s1 := Download.showToast _ _).
    set (d := downloadVideo H (Download.fs s1) opts).
    set (s2 := Download.call opts d s1).
    assert (T2 : Download.toasts s2
                 = {| Setup.style := Setup.Animated;
                      Setup.title := lit "Downloading" ++ Setup.ellipsis;
                      Setup.message :=
                        Some (slice0 60 (Download.v_title info)) |}
                   :: Download.toasts s) by reflexivity.
    destruct (onProgress_keeps info (d_progress d) _ _ _ T2)
      as (I & _ & _ & t' & T3).
    set (s3 := fold_left (Download.onProgress info) (d_progress d) s2) in *.
    destruct (d_result d) as [e|filePath].
    + eexists. cbn [Download.setIsDownloading Download.setToast
                    Download.invoked Download.toasts].
      rewrite I, T3. repeat split. now right.
    + eexists. cbn [Download.setIsDownloading Download.setToast Download.pop
                    Download.showHUD Download.invoked Download.toasts].
      rewrite I, T3. repeat split. now left.
Qed.

Lemma handleSubmit_validation_witness :
  Download.handleSubmit (hostPrinting [] None) aVideo earlyEnd
    (freshForm intelMac)
  = Download.showToast Download.invalidRange (freshForm intelMac)
  /\ map startTime
       (Download.invoked
          (Download.handleSubmit (hostPrinting [] None) aVideo properRange
             (freshForm intelMac)))
     = [Some (lit "00:05")]
  /\ map endTime
       (Download.invoked
          (Download.handleSubmit (hostPrinting [] None) aVideo roundedEnd
             (freshForm intelMac)))
     = [Some (lit "0.07:0:0")]
  /\ Download.handleSubmit (hostPrinting [] None) aVideo largeTimes
       (freshForm intelMac)
     = Download.showToast Download.invalidRange (freshForm intelMac).
Proof.
  split; [|split; [|split]].
  - apply (proj1 (handleSubmit_validation (hostPrinting [] None) aVideo
                    earlyEnd (freshForm intelMac)) (ofZ 10) (ofZ 5));
      vm_compute; reflexivity.
  - destruct (proj2 (handleSubmit_validation (hostPrinting [] None) aVideo
                       properRange (freshForm intelMac))) as (t & I & _).
    + right. right. exists (ofZ 5), (ofZ 10). repeat split; vm_compute; reflexivity.
    + rewrite I. reflexivity.
  - destruct (proj2 (handleSubmit_validation (hostPrinting [] None) aVideo
                       roundedEnd (freshForm intelMac))) as (t & I & _).
    + right. right.
      exists (ofZ 252), (Fin (8866461766385665 # 35184372088832)).
      repeat split; vm_compute; reflexivity.
    + rewrite I. reflexivity.
  - apply (proj1 (handleSubmit_validation (hostPrinting [] None) aVideo
                    largeTimes (freshForm intelMac))
             (ofZ (2 ^ 53)) (ofZ (2 ^ 53)));
      vm_compute; reflexivity.
Defined.

(** ** installAll *)

Lemma await_keeps key r s :
  let s' := Setup.await key r s in
  Setup.deps s' = Setup.deps s
  /\ Setup.installing s' = Setup.installing s
  /\ Setup.toast s' = Setup.toast s
  /\ Setup.fs s' = i_fs r
  /\ Setup.spawned s' = Setup.spawned s ++ i_spawned r
  /\ (forall k, Setup.state (Setup.step k (Setup.steps s'))
                = Setup.state (Setup.step k (Setup.steps s)))
  /\ (forall k, k <> key -> Setup.step k (Setup.steps s')
                            = Setup.step k (Setup.steps s)).
Proof.
  unfold Setup.await. cbn [Setup.deps Setup.installing Setup.toast Setup.fs
                           Setup.spawned Setup.steps].
  induction (i_lines r) as [|l ls IH] using rev_ind.
  - simpl. repeat split.
  - rewrite fold_left_app. cbn [fold_left].
    destruct IH as (D & I & T & _ & Sp & St & Ot).
    unfold Setup.upd at 1 3 5 7 9 11. unfold Setup.setSteps.
    cbn [Setup.deps Setup.installing Setup.toast Setup.spawned Setup.steps].
    repeat split; try assumption.
    + intros k. rewrite <- St. destruct key, k; reflexivity.
    + intros k N. rewrite <- (Ot k N). destruct key, k; try reflexivity;
        congruence.
Qed.

Lemma await_deps key r s :
  Setup.deps (Setup.await key r s) = Setup.deps s.
Proof. exact (proj1 (await_keeps key r s)). Qed.

Lemma await_installing key r s :
  Setup.installing (Setup.await key r s) = Setup.installing s.
Proof. exact (proj1 (proj2 (await_keeps key r s))). Qed.

Lemma await_toast key r s :
  Setup.toast (Setup.await key r s) = Setup.toast s.
Proof. exact (proj1 (proj2 (proj2 (await_keeps key r s)))). Qed.

Lemma await_fs key r s : Setup.fs (Setup.await key r s) = i_fs r.
Proof. reflexivity. Qed.

Lemma await_spawned key r s :
  Setup.spawned (Setup.await key r s) = Setup.spawned s ++ i_spawned r.
Proof. destruct (await_keeps key r s) as (_ & _ & _ & _ & Sp & _). exact Sp. Qed.

Lemma await_state_brew key r s :
  Setup.state (Setup.brew (Setup.steps (Setup.await key r s)))
  = Setup.state (Setup.brew (Setup.steps s)).
Proof.
  destruct (await_keeps key r s) as (_ & _ & _ & _ & _ & St & _).
  exact (St Setup.kBrew).
Qed.

Lemma await_state_ytdlp key r s :
  Setup.state (Setup.ytdlp (Setup.steps (Setup.await key r s)))
  = Setup.state (Setup.ytdlp (Setup.steps s)).
Proof.
  destruct (await_keeps key r s) as (_ & _ & _ & _ & _ & St & _).
  exact (St Setup.kYtdlp).
Qed.

Lemma await_state_ffmpeg key r s :
  Setup.state (Setup.ffmpeg (Setup.steps (Setup.await key r s)))
  = Setup.state (Setup.ffmpeg (Setup.steps s)).
Proof.
  destruct (await_keeps key r s) as (_ & _ & _ & _ & _ & St & _).
  exact (St Setup.kFfmpeg).
Qed.

Lemma brewInstall_spawned H fs pkg c :
  In c (i_spawned (brewInstall H fs pkg)) -> args c = [lit "install"; pkg].
Proof.
  unfold brewInstall. destruct (getBrewPath fs) as [b|]; [|intros []].
  destruct (truthy b); [|intros []]. intros [<-|[]]. reflexivity.
Qed.

Lemma brewInstall_spawned_length H fs pkg :
  (length (i_spawned (brewInstall H fs pkg)) <= 1)%nat.
Proof.
  unfold brewInstall. destruct (getBrewPath fs) as [b|]; [|apply Nat.le_0_l].
  destruct (truthy b); [apply Nat.le_refl | apply Nat.le_0_l].
Qed.

Lemma installSteps_stages H s :
  Setup.installSteps H s
  = let d := checkDeps (Setup.fs s) in
    Setup.andThen
      (stage Setup.kBrew (Utils.brew d)
         {| Setup.p_state := Some Setup.skipped; Setup.p_log := Some [] |}
         (lit "Installing Homebrew" ++ Setup.ellipsis)
         (lit "Installing Homebrew" ++ Setup.ellipsis)
         (installHomebrew H)
         (lit "Homebrew install failed") Setup.homebrewHint s)
      (fun s =>
         Setup.andThen
           (stage Setup.kYtdlp (Utils.ytdlp d)
              {| Setup.p_state := Some Setup.skipped; Setup.p_log := None |}
              (lit "Installing yt-dlp" ++ Setup.ellipsis)
              (lit "Installing yt-dlp" ++ Setup.ellipsis)
              (fun fs => brewInstall H fs (lit "yt-dlp"))
              (lit "yt-dlp install failed") (lit "Run: brew install yt-dlp") s)
           (fun s =>
              Setup.andThen
                (stage Setup.kFfmpeg (Utils.ffmpeg d)
                   {| Setup.p_state := Some Setup.skipped;
                      Setup.p_log := None |}
                   (lit "Installing ffmpeg (takes a minute)" ++ Setup.ellipsis)
                   (lit "Installing ffmpeg" ++ Setup.ellipsis)
                   (fun fs => brewInstall H fs (lit "ffmpeg"))
                   (lit "ffmpeg install failed")
                   (lit "Run: brew install ffmpeg") s)
                (fun s =>
                   let s :=
                     Setup.setToast
                       (fun _ =>
                          {| Setup.style := Setup.Success;
                             Setup.title := lit "All done!";
                             Setup.message :=
                               Some (lit "clipity is ready to use") |}) s in
                   Setup.Next (Setup.setDeps (checkDeps (Setup.fs s)) s)))).
Proof. reflexivity. Qed.

Lemma stage_spec key present skip rl tm install ft fm s :
  Setup.p_state skip = Some Setup.skipped ->
  let r := install (Setup.fs s) in
  match stage key present skip rl tm install ft fm s with
  | Setup.Next s' =>
      Setup.deps s' = Setup.deps s
      /\ Setup.installing s' = Setup.installing s
      /\ option_map Setup.style (Setup.toast s')
         = option_map Setup.style (Setup.toast s)
      /\ Setup.spawned s'
         = Setup.spawned s ++ (if present then [] else i_spawned r)
      /\ finished (Setup.state (Setup.step key (Setup.steps s')))
      /\ forall k, k <> key ->
           Setup.state (Setup.step k (Setup.steps s'))
           = Setup.state (Setup.step k (Setup.steps s))
  | Setup.Return s' =>
      present = false
      /\ Setup.deps s' = Setup.deps s
      /\ Setup.installing s' = false
      /\ option_map Setup.style (Setup.toast s')
         = option_map (fun _ => Setup.Failure) (Setup.toast s)
      /\ Setup.spawned s' = Setup.spawned s ++ i_spawned r
      /\ Setup.state (Setup.step key (Setup.steps s')) = Setup.error
      /\ forall k, k <> key ->
           Setup.state (Setup.step k (Setup.steps s'))
           = Setup.state (Setup.step k (Setup.steps s))
  end.
Proof.
  intros Sk r. unfold stage. destruct present.
  - unfold Setup.upd, Setup.setSteps.
    cbn [Setup.deps Setup.installing Setup.toast Setup.spawned Setup.steps].
    rewrite app_nil_r. repeat split.
    + right. destruct key; cbn [Setup.step Setup.brew Setup.ytdlp Setup.ffmpeg];
        unfold Setup.patch; cbn [Setup.state]; now rewrite Sk.
    + intros k N. destruct key, k; try reflexivity; congruence.
  - set (s1 := Setup.toastMessage _ _).
    change (install (Setup.fs s1)) with r.
    destruct (await_keeps key r s1) as (D & I & T & _ & Sp & St & _).
    assert (S1 : forall k, k <> key ->
                  Setup.state (Setup.step k (Setup.steps s1))
                  = Setup.state (Setup.step k (Setup.steps s))).
    { intros k N. destruct key, k; try reflexivity; congruence. }
    destruct (i_error r) as [e|].
    + unfold Setup.setInstalling, Setup.toastFail, Setup.setToast, Setup.upd,
        Setup.setSteps.
      cbn [Setup.deps Setup.installing Setup.toast Setup.spawned Setup.steps].
      rewrite D, T, Sp. repeat split.
      * unfold s1. cbn [Setup.toastMessage Setup.setToast Setup.toast Setup.upd
                        Setup.setSteps].
        now destruct (Setup.toast s).
      * destruct key; reflexivity.
      * intros k N. rewrite <- (S1 k N), <- (St k).
        destruct key, k; try reflexivity; congruence.
    + unfold Setup.upd at 1 2 3 4 5 6, Setup.setSteps.
      cbn [Setup.deps Setup.installing Setup.toast Setup.spawned Setup.steps].
      rewrite D, I, T, Sp. repeat split.
      * unfold s1. cbn [Setup.toastMessage Setup.setToast Setup.toast Setup.upd
                        Setup.setSteps].
        now destruct (Setup.toast s).
      * left. destruct key; reflexivity.
      * intros k N. rewrite <- (S1 k N), <- (St k).
        destruct key, k; try reflexivity; congruence.
Qed.

Lemma failed_toast (a b : option Setup.Toast) (st : Setup.ToastStyle) :
  option_map Setup.style b = Some st ->
  option_map Setup.style a = option_map (fun _ => Setup.Failure) b ->
  exists t, a = Some t /\ Setup.style t = Setup.Failure.
Proof.
  destruct b as [tb|]; [|discriminate]. intros _.
  destruct a as [t|]; [|discriminate]. intros E. exists t.
  split; [reflexivity | now injection E].
Qed.

Ltac nextStage s1 :=
  match goal with
  | |- context [Setup.andThen (stage ?k ?p ?sk ?rl ?tm ?i ?ft ?fm ?x) _] =>
      pose proof (stage_spec k p sk rl tm i ft fm x eq_refl) as P;
      cbv zeta in P;
      destruct (stage k p sk rl tm i ft fm x) as [s1|s1];
      cbn [Setup.andThen]
  end.

Ltac stepState :=
  match goal with
  | k : Setup.StepKey |- _ => destruct k
  end;
  repeat match goal with
    | E : Setup.state (Setup.step ?k (Setup.steps ?x)) = Setup.error
      |- Setup.state (Setup.step ?k (Setup.steps ?x)) <> _ =>
        rewrite E; discriminate
    | E : finished (Setup.state (Setup.step ?k (Setup.steps ?x)))
      |- Setup.state (Setup.step ?k (Setup.steps ?x)) <> _ =>
        destruct E as [E|E]; rewrite E; discriminate
    | E : forall k, Setup.state (Setup.step k (Setup.steps ?x)) = Setup.idle
      |- Setup.state (Setup.step ?k (Setup.steps ?x)) <> _ =>
        rewrite (E k); discriminate
    | O : forall k, k <> _ -> Setup.state (Setup.step k (Setup.steps ?x)) = _
      |- Setup.state (Setup.step ?k (Setup.steps ?x)) <> _ =>
        rewrite (O k ltac:(discriminate))
    end.

Lemma installAll_run H s :
  let s' := Setup.installAll H s in
  let d := checkDeps (Setup.fs s) in
  Setup.installing s' = false
  /\ (forall k, Setup.state (Setup.step k (Setup.steps s')) <> Setup.running)
  /\ (exists cs,
        Setup.spawned s' = Setup.spawned s ++ cs
        /\ (length cs <= 3)%nat
        /\ forall c, In c cs -> demanded d c)
  /\ exists t,
       Setup.toast s' = Some t
       /\ ((Setup.style t = Setup.Success
            /\ Setup.deps s' = Some (checkDeps (Setup.fs s'))
            /\ forall k, finished (Setup.state (Setup.step k (Setup.steps s'))))
           \/ (Setup.style t = Setup.Failure
               /\ Setup.deps s' = Setup.deps s
               /\ exists k,
                    Setup.state (Setup.step k (Setup.steps s')) = Setup.error)).
Proof.
  cbv zeta. unfold Setup.installAll. rewrite installSteps_stages. cbv zeta.
  set (s0 := Setup.showToast _ _).
  change (Setup.fs s0) with (Setup.fs s).
  set (d := checkDeps (Setup.fs s)).
  assert (Z : forall k, Setup.state (Setup.step k (Setup.steps s0)) = Setup.idle)
    by (intros k; destruct k; reflexivity).
  assert (Tz : option_map Setup.style (Setup.toast s0) = Some Setup.Animated)
    by reflexivity.
  assert (Hb : forall fs c, In c (i_spawned (installHomebrew H fs)) ->
                            c = homebrewCommand)
    by (intros fs c [<-|[]]; reflexivity).
  nextStage s1.
  2:{ destruct P as (B & D & I & T & Sp & St & Ot).
      destruct (failed_toast _ _ _ Tz T) as (t & Et & Ft).
      split; [exact I|]. split; [intros k; stepState|].
      split.
      - eexists. split; [exact Sp|]. split; [cbn; lia|].
        intros c Ic. left. split; [now apply (Hb (Setup.fs s0)) | exact B].
      - exists t. split; [exact Et|]. right.
        split; [exact Ft|]. split; [exact D|]. now exists Setup.kBrew. }
  destruct P as (D1 & I1 & T1 & Sp1 & F1 & O1). rewrite Tz in T1.
  nextStage s2.
  2:{ destruct P as (B & D & I & T & Sp & St & Ot).
      destruct (failed_toast _ _ _ T1 T) as (t & Et & Ft).
      split; [exact I|]. split; [intros k; stepState|].
      split.
      - eexists. split; [rewrite Sp, Sp1, <- app_assoc; reflexivity|].
        split.
        + rewrite length_app.
          pose proof (brewInstall_spawned_length H (Setup.fs s1) (lit "yt-dlp")).
          destruct (Utils.brew d); cbn [length i_spawned installHomebrew]; lia.
        + intros c Ic. apply in_app_or in Ic. destruct Ic as [Ic|Ic].
          * destruct (Utils.brew d) eqn:Bd; [destruct Ic|].
            left. split; [now apply (Hb (Setup.fs s0)) | exact Bd].
          * right. left. split; [|exact B].
            exact (brewInstall_spawned _ _ _ _ Ic).
      - exists t. split; [exact Et|]. right.
        split; [exact Ft|]. split; [now rewrite D, D1|].
        now exists Setup.kYtdlp. }
  destruct P as (D2 & I2 & T2 & Sp2 & F2 & O2). rewrite T1 in T2.
  nextStage s3.
  2:{ destruct P as (B & D & I & T & Sp & St & Ot).
      destruct (failed_toast _ _ _ T2 T) as (t & Et & Ft).
      split; [exact I|]. split; [intros k; stepState|].
      split.
      - eexists. split; [rewrite Sp, Sp2, Sp1, <- !app_assoc; reflexivity|].
        split.
        + rewrite !length_app.
          pose proof (brewInstall_spawned_length H (Setup.fs s1) (lit "yt-dlp")).
          pose proof (brewInstall_spawned_length H (Setup.fs s2) (lit "ffmpeg")).
          destruct (Utils.brew d), (Utils.ytdlp d);
            cbn [length i_spawned installHomebrew]; lia.
        + intros c Ic. apply in_app_or in Ic. destruct Ic as [Ic|Ic].
          * destruct (Utils.brew d) eqn:Bd; [destruct Ic|].
            left. split; [now apply (Hb (Setup.fs s0)) | exact Bd].
          * apply in_app_or in Ic. destruct Ic as [Ic|Ic].
            -- destruct (Utils.ytdlp d) eqn:Yd; [destruct Ic|].
               right. left. split; [|exact Yd].
               exact (brewInstall_spawned _ _ _ _ Ic).
            -- right. right. split; [|exact B].
               exact (brewInstall_spawned _ _ _ _ Ic).
      - exists t. split; [exact Et|]. right.
        split; [exact Ft|]. split; [now rewrite D, D2, D1|].
        now exists Setup.kFfmpeg. }
  destruct P as (D3 & I3 & T3 & Sp3 & F3 & O3). rewrite T2 in T3.
  cbn [Setup.setInstalling Setup.setDeps Setup.setToast Setup.installing
       Setup.steps Setup.spawned Setup.toast Setup.deps Setup.fs].
  split; [reflexivity|]. split; [intros k; stepState|].
  split.
  - eexists. split; [rewrite Sp3, Sp2, Sp1, <- !app_assoc; reflexivity|].
    split.
    + rewrite !length_app.
      pose proof (brewInstall_spawned_length H (Setup.fs s1) (lit "yt-dlp")).
      pose proof (brewInstall_spawned_length H (Setup.fs s2) (lit "ffmpeg")).
      destruct (Utils.brew d), (Utils.ytdlp d), (Utils.ffmpeg d);
        cbn [length i_spawned installHomebrew]; lia.
    + intros c Ic. apply in_app_or in Ic. destruct Ic as [Ic|Ic].
      * destruct (Utils.brew d) eqn:Bd; [destruct Ic|].
        left. split; [now apply (Hb (Setup.fs s0)) | exact Bd].
      * apply in_app_or in Ic. destruct Ic as [Ic|Ic].
        -- destruct (Utils.ytdlp d) eqn:Yd; [destruct Ic|].
           right. left. split; [|exact Yd].
           exact (brewInstall_spawned _ _ _ _ Ic).
        -- destruct (Utils.ffmpeg d) eqn:Fd; [destruct Ic|].
           right. right. split; [|exact Fd].
           exact (brewInstall_spawned _ _ _ _ Ic).
  - destruct (Setup.toast s3) as [t|]; [|discriminate T3].
    eexists. split; [reflexivity|]. left. cbn [Setup.style].
    split; [reflexivity|]. split; [reflexivity|]. intros k.
    destruct k.
    + rewrite (O3 Setup.kBrew ltac:(discriminate)).
      rewrite (O2 Setup.kBrew ltac:(discriminate)). exact F1.
    + rewrite (O3 Setup.kYtdlp ltac:(discriminate)). exact F2.
    + exact F3.
Qed.

(** C5.  When the fresh check finds no package manager and the bootstrap
    install rejects, [installAll] ends there: the brew step is in state
    [error] with the error as its log, the yt-dlp and ffmpeg steps are idle
    as reset, and the only process spawned is the bootstrap script. *)
Theorem installAll_brew_failure (H : host) (s : Setup.session) (e : str) :
  Utils.brew (checkDeps (Setup.fs s)) = false ->
  rejected (execa H (Setup.fs s) homebrewCommand) = Some e ->
  let s' := Setup.installAll H s in
  Setup.brew (Setup.steps s') = {| Setup.state := Setup.error; Setup.log := e |}
  /\ Setup.ytdlp (Setup.steps s') = Setup.IDLE
  /\ Setup.ffmpeg (Setup.steps s') = Setup.IDLE
  /\ Setup.spawned s' = Setup.spawned s ++ [homebrewCommand]
  /\ Setup.installing s' = false
  /\ Setup.deps s' = Setup.deps s
  /\ Setup.toast s'
     = Some {| Setup.style := Setup.Failure;
               Setup.title := lit "Homebrew install failed";
               Setup.message := Some Setup.homebrewHint |}.
Proof.
  intros B R s'. subst s'. unfold Setup.installAll, Setup.installSteps.
  cbn [Setup.fs Setup.setInstalling Setup.setSteps Setup.showToast].
  rewrite B.
  set (s1 := Setup.toastMessage _ _).
  set (r := installHomebrew H (Setup.fs s)).
  change (Setup.fs s1) with (Setup.fs s). fold r.
  assert (Er : i_error r = Some e) by exact R.
  rewrite Er. cbn [Setup.andThen].
  destruct (await_keeps Setup.kBrew r s1) as (D & I & T & F & Sp & St & Ot).
  pose proof (Ot Setup.kYtdlp ltac:(discriminate)) as Oy.
  pose proof (Ot Setup.kFfmpeg ltac:(discriminate)) as Of.
  cbn [Setup.step] in Oy, Of.
  unfold Setup.toastFail, Setup.setToast, Setup.setInstalling, Setup.upd,
    Setup.setSteps.
  cbn [Setup.steps Setup.brew Setup.ytdlp Setup.ffmpeg Setup.spawned
       Setup.installing Setup.deps Setup.toast Setup.patch Setup.p_state
       Setup.p_log].
  rewrite D, T, Sp, Oy, Of.
  repeat split.
Qed.

Lemma installAll_brew_failure_witness :
  let s' := Setup.installAll
              (hostPrinting [lit "curl: (6) Could not resolve host"]
                 (Some curlFailure))
              (freshSetup bareMac) in
  Setup.brew (Setup.steps s')
  = {| Setup.state := Setup.error; Setup.log := curlFailure |}
  /\ Setup.ytdlp (Setup.steps s') = Setup.IDLE
  /\ Setup.ffmpeg (Setup.steps s') = Setup.IDLE
  /\ Setup.spawned s' = [homebrewCommand].
Proof.
  destruct (installAll_brew_failure
              (hostPrinting [lit "curl: (6) Could not resolve host"]
                 (Some curlFailure))
              (freshSetup bareMac) curlFailure eq_refl eq_refl)
    as (B & Y & F & S & _).
  cbv zeta. rewrite B, Y, F, S. repeat split.
Defined.

(** C9.  When the fresh check finds all three tools, [installAll] marks the
    three steps skipped, spawns no process, leaves the filesystem as it is,
    and publishes a status in which the three flags are true.  The status
    published by a run that succeeds is checked again at the end: it is
    that of the filesystem as the run leaves it, not the one checked at the
    start.  On the machine with Homebrew alone, where the check at the
    start finds no yt-dlp and the installs bring it, the status published
    has yt-dlp and is not the one of the start. *)
Theorem installAll_all_present (H : host) (s : Setup.session) :
  let s' := Setup.installAll H s in
  (Utils.brew (checkDeps (Setup.fs s)) = true ->
   Utils.ytdlp (checkDeps (Setup.fs s)) = true ->
   Utils.ffmpeg (checkDeps (Setup.fs s)) = true ->
   Setup.steps s'
   = {| Setup.brew := skippedStep; Setup.ytdlp := skippedStep;
        Setup.ffmpeg := skippedStep |}
   /\ Setup.spawned s' = Setup.spawned s
   /\ Setup.fs s' = Setup.fs s
   /\ Setup.deps s' = Some (checkDeps (Setup.fs s'))
   /\ (exists d, Setup.deps s' = Some d
                 /\ Utils.brew d = true /\ Utils.ytdlp d = true
                 /\ Utils.ffmpeg d = true)
   /\ Setup.installing s' = false)
  /\ (forall t,
        Setup.toast s' = Some t -> Setup.style t = Setup.Success ->
        Setup.deps s' = Some (checkDeps (Setup.fs s')))
  /\ (let r := Setup.installAll hostInstalling (freshSetup brewOnly) in
      Utils.ytdlp (checkDeps brewOnly) = false
      /\ option_map Setup.style (Setup.toast r) = Some Setup.Success
      /\ option_map Utils.ytdlp (Setup.deps r) = Some true
      /\ Setup.deps r = Some (checkDeps (Setup.fs r))
      /\ Setup.deps r <> Some (checkDeps brewOnly)).
Proof.
  cbv zeta. split; [|split].
  - intros B Y F. unfold Setup.installAll, Setup.installSteps.
    cbn [Setup.fs Setup.setInstalling Setup.setSteps Setup.showToast].
    rewrite B. cbn [Setup.andThen]. rewrite Y. cbn [Setup.andThen].
    rewrite F. cbn [Setup.andThen].
    repeat split.
    exists (checkDeps (Setup.fs s)). repeat split; assumption.
  - intros t Et St.
    destruct (installAll_run H s) as (_ & _ & _ & t' & Et' & R).
    cbv zeta in Et'. rewrite Et in Et'. injection Et' as <-.
    destruct R as [(_ & D & _)|(Fl & _)]; [exact D | congruence].
  - split; [vm_compute; reflexivity|].
    split; [vm_compute; reflexivity|].
    split; [vm_compute; reflexivity|].
    split; [vm_compute; reflexivity|].
    intros N. apply (f_equal (option_map Utils.ytdlp)) in N.
    vm_compute in N. discriminate.
Qed.

Lemma installAll_all_present_witness :
  let s' := Setup.installAll (hostPrinting [] None) (freshSetup intelMac) in
  Setup.steps s'
  = {| Setup.brew := skippedStep; Setup.ytdlp := skippedStep;
       Setup.ffmpeg := skippedStep |}
  /\ Setup.spawned s' = []
  /\ option_map Utils.brewPath (Setup.deps s')
     = Some (Some (lit "/usr/local/bin/brew")).
Proof.
  destruct (proj1 (installAll_all_present (hostPrinting [] None)
                     (freshSetup intelMac)) eq_refl eq_refl eq_refl)
    as (St & Sp & Fs & D & _).
  cbv zeta. rewrite St, Sp, D, Fs. repeat split.
Defined.

(** * Further properties of the code *)

(** ** checkDeps *)

Lemma plain_tools :
  plainName (lit "brew") /\ plainName (lit "yt-dlp") /\ plainName (lit "ffmpeg").
Proof.
  repeat split; try discriminate; intros I; vm_compute in I;
    repeat (destruct I as [I|I]; [discriminate|]); exact I.
Qed.

Lemma notNot_found fs name :
  notNot (getBinPath fs name) = true <-> getBinPath fs name <> None.
Proof.
  unfold notNot. destruct (getBinPath fs name) as [p|] eqn:E.
  - rewrite (getBinPath_truthy _ _ _ E). split; [discriminate | reflexivity].
  - split; [discriminate | congruence].
Qed.

Lemma getBinPath_where fs name p :
  plainName name -> getBinPath fs name = Some p ->
  fs p = true /\ exists dir, In dir BREW_PATHS /\ p = dir ++ lit "/" ++ name.
Proof.
  intros Pl E. apply firstIn_Some in E.
  destruct E as (pre & dir & post & B & -> & F & _).
  split; [exact F|]. exists dir.
  assert (I : In dir BREW_PATHS) by (rewrite B; apply in_elt).
  split; [exact I | now apply join_plain].
Qed.

(** X1.  In the status [checkDeps] returns, a flag is true exactly when the
    path beside it is not [null], and a path that is reported exists and is
    the tool's name under one of the three directories. *)
Theorem checkDeps_consistent (fs : filesystem) :
  let d := checkDeps fs in
  (Utils.brew d = true <-> brewPath d <> None)
  /\ (Utils.ytdlp d = true <-> ytdlpPath d <> None)
  /\ (Utils.ffmpeg d = true <-> ffmpegPath d <> None)
  /\ (forall p, brewPath d = Some p ->
        fs p = true
        /\ exists dir, In dir BREW_PATHS /\ p = dir ++ lit "/brew")
  /\ (forall p, ytdlpPath d = Some p ->
        fs p = true
        /\ exists dir, In dir BREW_PATHS /\ p = dir ++ lit "/yt-dlp")
  /\ (forall p, ffmpegPath d = Some p ->
        fs p = true
        /\ exists dir, In dir BREW_PATHS /\ p = dir ++ lit "/ffmpeg").
Proof.
  destruct plain_tools as (Pb & Py & Pf). cbv zeta. unfold checkDeps.
  cbn [Utils.brew Utils.ytdlp Utils.ffmpeg brewPath ytdlpPath ffmpegPath].
  unfold getBrewPath.
  repeat split; try (apply notNot_found); try (intros E; now apply notNot_found).
  - now apply (getBinPath_where fs (lit "brew") p Pb).
  - destruct (getBinPath_where fs (lit "brew") p Pb H) as (_ & dir & I & E).
    now exists dir.
  - now apply (getBinPath_where fs (lit "yt-dlp") p Py).
  - destruct (getBinPath_where fs (lit "yt-dlp") p Py H) as (_ & dir & I & E).
    now exists dir.
  - now apply (getBinPath_where fs (lit "ffmpeg") p Pf).
  - destruct (getBinPath_where fs (lit "ffmpeg") p Pf H) as (_ & dir & I & E).
    now exists dir.
Qed.

Lemma checkDeps_consistent_witness :
  ffmpegPath (checkDeps intelMac) = Some (lit "/usr/local/bin/ffmpeg")
  /\ intelMac (lit "/usr/local/bin/ffmpeg") = true.
Proof.
  split; [reflexivity|].
  destruct (checkDeps_consistent intelMac) as (_ & _ & _ & _ & _ & F).
  exact (proj1 (F (lit "/usr/local/bin/ffmpeg") eq_refl)).
Defined.

(** ** brewInstall *)

(** X2.  [brewInstall] runs nothing when Homebrew is not found: it rejects
    with "Homebrew not found", forwards no line and leaves the filesystem as
    it is.  When Homebrew is found it spawns that binary, and no other
    process, with the arguments [install] and the package; it rejects exactly
    when the process does. *)
Theorem brewInstall_spawns (H : host) (fs : filesystem) (pkg : str) :
  (getBrewPath fs = None ->
   brewInstall H fs pkg
   = {| i_fs := fs; i_spawned := []; i_lines := [];
        i_error := Some (lit "Error: Homebrew not found") |})
  /\ (forall b,
        getBrewPath fs = Some b ->
        exists c,
          i_spawned (brewInstall H fs pkg) = [c]
          /\ file c = b /\ args c = [lit "install"; pkg]
          /\ In (lit "NONINTERACTIVE", lit "1") (env c)
          /\ i_error (brewInstall H fs pkg) = rejected (execa H fs c)
          /\ i_fs (brewInstall H fs pkg) = fsAfter (execa H fs c)).
Proof.
  split.
  - intros E. unfold brewInstall. now rewrite E.
  - intros b E. unfold brewInstall. rewrite E.
    rewrite (getBinPath_truthy _ _ _ E). eexists. cbn [i_spawned i_error i_fs].
    repeat split. cbn [env]. right. now left.
Qed.

Lemma brewInstall_spawns_witness :
  i_spawned (brewInstall (hostPrinting [] None) bareMac (lit "ffmpeg")) = []
  /\ map file (i_spawned (brewInstall (hostPrinting [] None) intelMac
                            (lit "ffmpeg")))
     = [lit "/usr/local/bin/brew"].
Proof.
  destruct (brewInstall_spawns (hostPrinting [] None) bareMac (lit "ffmpeg"))
    as [No _].
  destruct (brewInstall_spawns (hostPrinting [] None) intelMac (lit "ffmpeg"))
    as [_ Yes].
  split.
  - now rewrite (No eq_refl).
  - destruct (Yes (lit "/usr/local/bin/brew") eq_refl) as (c & -> & F & _).
    cbn [map]. now rewrite F.
Defined.

(** ** downloadVideo: its outcomes *)

Lemma downloadVideo_missing_ytdlp H fs opts :
  getBinPath fs (lit "yt-dlp") = None ->
  downloadVideo H fs opts
  = {| d_fs := fs; d_spawned := []; d_progress := [];
       d_result :=
         inl (lit "Error: yt-dlp not installed. Run the Setup command.") |}.
Proof. intros E. unfold downloadVideo. now rewrite E. Qed.

Lemma downloadVideo_missing_ffmpeg H fs opts y :
  getBinPath fs (lit "yt-dlp") = Some y ->
  getBinPath fs (lit "ffmpeg") = None ->
  downloadVideo H fs opts
  = {| d_fs := fs; d_spawned := []; d_progress := [];
       d_result :=
         inl (lit "Error: ffmpeg not installed. Run the Setup command.") |}.
Proof.
  intros Y F. unfold downloadVideo. rewrite Y, F. unfold notNot.
  now rewrite (getBinPath_truthy _ _ _ Y).
Qed.

(** X3.  [downloadVideo] checks its two binaries before anything else.
    Without yt-dlp it rejects with the yt-dlp message, whether ffmpeg is
    there or not; with yt-dlp and without ffmpeg it rejects with the ffmpeg
    message; in both cases it spawns nothing and calls [onProgress] never.
    It spawns a process, and then exactly one, exactly when both are found. *)
Theorem downloadVideo_dependencies (H : host) (fs : filesystem)
  (opts : DownloadOptions) :
  (getBinPath fs (lit "yt-dlp") = None ->
   d_result (downloadVideo H fs opts)
   = inl (lit "Error: yt-dlp not installed. Run the Setup command.")
   /\ d_spawned (downloadVideo H fs opts) = []
   /\ d_progress (downloadVideo H fs opts) = []
   /\ d_fs (downloadVideo H fs opts) = fs)
  /\ (getBinPath fs (lit "yt-dlp") <> None ->
      getBinPath fs (lit "ffmpeg") = None ->
      d_result (downloadVideo H fs opts)
      = inl (lit "Error: ffmpeg not installed. Run the Setup command.")
      /\ d_spawned (downloadVideo H fs opts) = []
      /\ d_progress (downloadVideo H fs opts) = []
      /\ d_fs (downloadVideo H fs opts) = fs)
  /\ (length (d_spawned (downloadVideo H fs opts)) <= 1)%nat
  /\ (d_spawned (downloadVideo H fs opts) <> [] <->
      getBinPath fs (lit "yt-dlp") <> None
      /\ getBinPath fs (lit "ffmpeg") <> None).
Proof.
  split; [|split; [|split]].
  - intros Y. now rewrite (downloadVideo_missing_ytdlp H fs opts Y).
  - intros Y F. destruct (getBinPath fs (lit "yt-dlp")) as [y|] eqn:Ey;
      [|congruence].
    now rewrite (downloadVideo_missing_ffmpeg H fs opts y Ey F).
  - destruct (getBinPath fs (lit "yt-dlp")) as [y|] eqn:Ey.
    + destruct (getBinPath fs (lit "ffmpeg")) as [f|] eqn:Ef.
      * rewrite (downloadVideo_found H fs opts y f Ey Ef). simpl. lia.
      * rewrite (downloadVideo_missing_ffmpeg H fs opts y Ey Ef). simpl. lia.
    + rewrite (downloadVideo_missing_ytdlp H fs opts Ey). simpl. lia.
  - destruct (getBinPath fs (lit "yt-dlp")) as [y|] eqn:Ey.
    + destruct (getBinPath fs (lit "ffmpeg")) as [f|] eqn:Ef.
      * rewrite (downloadVideo_found H fs opts y f Ey Ef). cbn [d_spawned].
        split; [intros _; split; discriminate | discriminate].
      * rewrite (downloadVideo_missing_ffmpeg H fs opts y Ey Ef).
        cbn [d_spawned]. split; [congruence | intros [_ N]; congruence].
    + rewrite (downloadVideo_missing_ytdlp H fs opts Ey). cbn [d_spawned].
      split; [congruence | intros [N _]; congruence].
Qed.

Lemma downloadVideo_dependencies_witness :
  d_result (downloadVideo (hostPrinting [] None) bareMac someVideo)
  = inl (lit "Error: yt-dlp not installed. Run the Setup command.")
  /\ d_result (downloadVideo (hostPrinting [] None)
                 (fsOf [lit "/usr/bin/yt-dlp"]) someVideo)
     = inl (lit "Error: ffmpeg not installed. Run the Setup command.").
Proof.
  split.
  - apply (proj1 (downloadVideo_dependencies (hostPrinting [] None) bareMac
                    someVideo)). reflexivity.
  - apply (proj1 (proj2 (downloadVideo_dependencies (hostPrinting [] None)
                           (fsOf [lit "/usr/bin/yt-dlp"]) someVideo)));
      [discriminate | reflexivity].
Defined.

(** X4.  When both binaries are found, [downloadVideo] rejects exactly when
    the process does, and with its error; the calls of [onProgress] made
    while the process ran are the same either way.  A path it returns is
    never the empty string. *)
Theorem downloadVideo_outcomes (H : host) (fs : filesystem)
  (opts : DownloadOptions) (y f : str) :
  getBinPath fs (lit "yt-dlp") = Some y ->
  getBinPath fs (lit "ffmpeg") = Some f ->
  let p := execa H fs (downloadCommand H y f opts) in
  (forall e, d_result (downloadVideo H fs opts) = inl e <->
             rejected p = Some e)
  /\ (forall path, d_result (downloadVideo H fs opts) = inr path ->
                   rejected p = None /\ path <> [])
  /\ d_progress (downloadVideo H fs opts)
     = flat_map (fun l => progress (scanLine noCalls l)) (linesOf (chunks p))
  /\ d_fs (downloadVideo H fs opts) = fsAfter p.
Proof.
  intros Y F p. rewrite (downloadVideo_found H fs opts y f Y F).
  cbn [d_result d_progress d_fs]. fold p.
  change {| progress := []; lastFile := [] |} with noCalls.
  split; [|split; [|split]].
  - intros e. destruct (rejected p) as [e'|]; split; congruence.
  - intros path E. destruct (rejected p) as [e'|]; [discriminate|].
    split; [reflexivity|]. injection E as <-.
    destruct (truthy (lastFile _)) eqn:T.
    + now apply truthy_true.
    + apply join_nonempty.
  - now rewrite progress_fold.
  - reflexivity.
Qed.

Lemma downloadVideo_outcomes_witness :
  d_result (downloadVideo (hostPrinting [lit "ERROR: Unsupported URL"]
                             (Some (lit "Error: Command failed")))
              intelMac someVideo)
  = inl (lit "Error: Command failed").
Proof.
  apply (proj1 (downloadVideo_outcomes
                  (hostPrinting [lit "ERROR: Unsupported URL"]
                     (Some (lit "Error: Command failed")))
                  intelMac someVideo (lit "/usr/local/bin/yt-dlp")
                  (lit "/usr/local/bin/ffmpeg") eq_refl eq_refl)).
  reflexivity.
Defined.

(** X5.  The directory handed to yt-dlp after [--ffmpeg-location] is the
    one of the three directories in which [getBinPath] found ffmpeg. *)
Theorem downloadVideo_ffmpeg_location (H : host) (fs : filesystem)
  (opts : DownloadOptions) (y f : str) :
  getBinPath fs (lit "yt-dlp") = Some y ->
  getBinPath fs (lit "ffmpeg") = Some f ->
  exists c dir,
    d_spawned (downloadVideo H fs opts) = [c]
    /\ In dir BREW_PATHS /\ f = dir ++ lit "/ffmpeg"
    /\ nth_error (args c) 4 = Some (lit "--ffmpeg-location")
    /\ nth_error (args c) 5 = Some dir.
Proof.
  intros Y F. rewrite (downloadVideo_found H fs opts y f Y F).
  destruct plain_tools as (_ & _ & Pf).
  destruct (getBinPath_where fs _ f Pf F) as (_ & dir & I & E).
  exists (downloadCommand H y f opts), dir. repeat split; try assumption.
  cbn [downloadCommand args downloadArgs app nth_error]. f_equal.
  rewrite E. simpl in I.
  destruct I as [<-|[<-|[<-|[]]]]; vm_compute; reflexivity.
Qed.

Lemma downloadVideo_ffmpeg_location_witness :
  exists c,
    d_spawned (downloadVideo (hostPrinting [] None) intelMac someVideo) = [c]
    /\ nth_error (args c) 5 = Some (lit "/usr/local/bin").
Proof.
  destruct (downloadVideo_ffmpeg_location (hostPrinting [] None) intelMac
              someVideo (lit "/usr/local/bin/yt-dlp")
              (lit "/usr/local/bin/ffmpeg") eq_refl eq_refl)
    as (c & dir & S & I & E & _ & L).
  exists c. split; [exact S|]. rewrite L. f_equal.
  simpl in I. destruct I as [<-|[<-|[<-|[]]]];
    [discriminate E | reflexivity | discriminate E].
Defined.

(** ** handleSubmit: what a submitted request does *)

Lemma last_cons_default {X} (x : X) l d : last (x :: l) d = last l x.
Proof.
  revert x d. induction l as [|y l IH]; intros x d; [reflexivity|].
  change (last (x :: y :: l) d) with (last (y :: l) d).
  now rewrite (IH y d), (IH y x).
Qed.

Lemma onProgress_fold info calls : forall s,
  let s' := fold_left (Download.onProgress info) calls s in
  Download.isDownloading s' = Download.isDownloading s
  /\ Download.progress s' = last (map fst calls) (Download.progress s)
  /\ Download.huds s' = Download.huds s
  /\ Download.popped s' = Download.popped s
  /\ Download.invoked s' = Download.invoked s
  /\ Download.fs s' = Download.fs s
  /\ Download.spawned s' = Download.spawned s
  /\ (forall t rest, Download.toasts s = t :: rest ->
        exists t', Download.toasts s' = t' :: rest
                   /\ Setup.style t' = Setup.style t
                   /\ Setup.title t' = Setup.title t).
Proof.
  induction calls as [|c calls IH]; intros s.
  - cbn. repeat split. intros t rest E. now exists t.
  - cbn [fold_left]. specialize (IH (Download.onProgress info s c)).
    cbv zeta in IH. destruct IH as (A & B & C & D & E & F & G & T).
    cbv zeta. rewrite A, B, C, D, E, F, G. repeat split.
    + cbn [map]. now rewrite last_cons_default.
    + intros t rest Et.
      destruct (T {| Setup.style := Setup.style t; Setup.title := Setup.title t;
                     Setup.message :=
                       Some (ToString (fst c) ++ lit "% " ++ Download.emDash
                               ++ lit " "
                               ++ slice0 40 (Download.v_title info)) |} rest)
        as (t' & Et' & St & Tt).
      * unfold Download.onProgress, Download.setToast, Download.setProgress.
        cbn [Download.toasts]. now rewrite Et.
      * exists t'. repeat split; assumption.
Qed.

Lemma passes_condition values :
  passes values ->
  match parseTimeToSeconds (Download.f_startTime values),
        parseTimeToSeconds (Download.f_endTime values) with
  | Some a, Some b => (a >= b)%js
  | _, _ => false
  end = false.
Proof.
  unfold passes.
  destruct (parseTimeToSeconds (Download.f_startTime values)),
    (parseTimeToSeconds (Download.f_endTime values)); tauto.
Qed.

(** X6.  A request that passes the validation ends with the form no longer
    downloading, whatever happens.  The progress shown is that of the last
    call of [onProgress] (0 if there was none).  When [downloadVideo]
    returns a path, the toast is the success toast, one HUD is shown and the
    form is popped once; when it rejects, the toast is the failure toast
    with the first 120 characters of the error, and nothing is popped. *)
Theorem handleSubmit_outcome (H : host) (info : Download.VideoInfo)
  (values : Download.FormValues) (s : Download.session) :
  passes values ->
  let d := downloadVideo H (Download.fs s) (requestOf info values) in
  let s' := Download.handleSubmit H info values s in
  Download.isDownloading s' = false
  /\ Download.progress s' = last (map fst (d_progress d)) (ofZ 0)
  /\ Download.spawned s' = Download.spawned s ++ d_spawned d
  /\ Download.fs s' = d_fs d
  /\ (forall path,
        d_result d = inr path ->
        Download.popped s' = S (Download.popped s)
        /\ Download.huds s'
           = Download.huds s
               ++ [Download.checkMark
                     ++ lit " Downloaded to ~/Downloads/clipity/"]
        /\ Download.toasts s'
           = {| Setup.style := Setup.Success;
                Setup.title := lit "Download complete!";
                Setup.message := Some (lit "Saved to ~/Downloads/clipity/") |}
             :: Download.toasts s)
  /\ (forall e,
        d_result d = inl e ->
        Download.popped s' = Download.popped s
        /\ Download.huds s' = Download.huds s
        /\ Download.toasts s'
           = {| Setup.style := Setup.Failure;
                Setup.title := lit "Download failed";
                Setup.message := Some (firstn 120 e) |}
             :: Download.toasts s).
Proof.
  intros P d s'. subst s'. unfold Download.handleSubmit.
  rewrite (passes_condition _ P). fold (requestOf info values).
  set (s1 := Download.showToast _ _).
  change (Download.fs s1) with (Download.fs s). fold d.
  set (s2 := Download.call (requestOf info values) d s1).
  destruct (onProgress_fold info (d_progress d) s2)
    as (A & B & C & D & E & F & G & T).
  destruct (T _ _ eq_refl) as (t' & Et & _).
  set (s3 := fold_left (Download.onProgress info) (d_progress d) s2) in *.
  destruct (d_result d) as [e|path] eqn:R.
  - cbn [Download.setIsDownloading Download.setToast Download.isDownloading
         Download.progress Download.spawned Download.fs Download.popped
         Download.huds Download.toasts].
    rewrite B, C, D, F, G, Et.
    repeat match goal with |- _ /\ _ => split end; try reflexivity.
    + intros path Ep. discriminate Ep.
    + intros e' Ee. injection Ee as <-. repeat split.
  - cbn [Download.setIsDownloading Download.setToast Download.pop
         Download.showHUD Download.isDownloading
         Download.progress Download.spawned Download.fs Download.popped
         Download.huds Download.toasts].
    rewrite B, C, D, F, G, Et.
    repeat match goal with |- _ /\ _ => split end; try reflexivity.
    + intros path' Ep. repeat split.
    + intros e Ee. discriminate Ee.
Qed.

Lemma handleSubmit_outcome_witness :
  let s' := Download.handleSubmit (hostPrinting mergedOutput None) aVideo
              properRange (freshForm intelMac) in
  Download.isDownloading s' = false
  /\ Download.progress s' = ofZ 100
  /\ Download.popped s' = 1%nat.
Proof.
  destruct (handleSubmit_outcome (hostPrinting mergedOutput None) aVideo
              properRange (freshForm intelMac)) as (A & B & _ & _ & Ok & _).
  - vm_compute. reflexivity.
  - cbv zeta. rewrite A, B.
    rewrite (proj1 (Ok (lit "/Users/dean/Downloads/clipity/a.mp4") eq_refl)).
    repeat split.
Defined.

Lemma handleSubmit_spawned H info values s y f :
  passes values ->
  getBinPath (Download.fs s) (lit "yt-dlp") = Some y ->
  getBinPath (Download.fs s) (lit "ffmpeg") = Some f ->
  Download.spawned (Download.handleSubmit H info values s)
  = Download.spawned s ++ [downloadCommand H y f (requestOf info values)].
Proof.
  intros P Y F. unfold Download.handleSubmit.
  rewrite (passes_condition _ P). fold (requestOf info values).
  set (s1 := Download.showToast _ _).
  change (Download.fs s1) with (Download.fs s).
  set (d := downloadVideo H (Download.fs s) (requestOf info values)).
  set (s2 := Download.call (requestOf info values) d s1).
  destruct (onProgress_fold info (d_progress d) s2)
    as (_ & _ & _ & _ & _ & _ & G & _).
  assert (D : d_spawned d = [downloadCommand H y f (requestOf info values)]).
  { unfold d. now rewrite (downloadVideo_found H _ _ y f Y F). }
  destruct (d_result d);
    cbn [Download.setIsDownloading Download.setToast Download.pop
         Download.showHUD Download.spawned];
    rewrite G; unfold s2; cbn [Download.call Download.spawned];
    now rewrite D.
Qed.

(** X7.  The command line of a request that passes the validation, when
    both binaries are found: the six fixed arguments; for the format
    ["audio"] the extraction to mp3, and for every other format string the
    video selection without a height cap (the form never sets a quality); the
    section arguments, built from the times as they were typed; the URL of
    the video last. *)
Theorem handleSubmit_command (H : host) (info : Download.VideoInfo)
  (values : Download.FormValues) (s : Download.session) (y f : str) :
  passes values ->
  getBinPath (Download.fs s) (lit "yt-dlp") = Some y ->
  getBinPath (Download.fs s) (lit "ffmpeg") = Some f ->
  let st := Download.f_startTime values in
  let en := Download.f_endTime values in
  Download.spawned (Download.handleSubmit H info values s)
  = Download.spawned s
      ++ [{| file := y;
             args :=
               [lit "--no-playlist"; lit "--newline"; lit "-o";
                join [outDirOf H; lit "%(title)s.%(ext)s"];
                lit "--ffmpeg-location"; join [f; lit ".."]]
               ++ (if str_eqb (Download.f_format values) (lit "audio")
                   then [lit "-x"; lit "--audio-format"; lit "mp3";
                         lit "--audio-quality"; lit "0"]
                   else [lit "-f";
                         lit "bestvideo[ext=mp4]+bestaudio[ext=m4a]/best[ext=mp4]/best";
                         lit "--merge-output-format"; lit "mp4"])
               ++ (if truthy st && negb (str_eqb st (lit "00:00")) || truthy en
                   then [lit "--download-sections";
                         lit "*" ++ (if truthy st then st else lit "0")
                           ++ lit "-" ++ (if truthy en then en else lit "inf");
                         lit "--force-keyframes-at-cuts"]
                   else [])
               ++ [Download.v_url info];
             env := [(lit "PATH", pathPrefix ++ envPATH H)] |}].
Proof.
  intros P Y F st en. rewrite (handleSubmit_spawned H info values s y f P Y F).
  unfold downloadCommand, downloadArgs.
  assert (A : formatArgs (requestOf info values)
              = if str_eqb (Download.f_format values) (lit "audio")
                then [lit "-x"; lit "--audio-format"; lit "mp3";
                      lit "--audio-quality"; lit "0"]
                else [lit "-f";
                      lit "bestvideo[ext=mp4]+bestaudio[ext=m4a]/best[ext=mp4]/best";
                      lit "--merge-output-format"; lit "mp4"]).
  { unfold formatArgs, requestOf. cbn [format quality].
    destruct (str_eqb _ _); reflexivity. }
  rewrite A. clear A.
  assert (B : sectionArgs (requestOf info values)
              = if truthy st && negb (str_eqb st (lit "00:00")) || truthy en
                then [lit "--download-sections";
                      lit "*" ++ (if truthy st then st else lit "0")
                        ++ lit "-" ++ (if truthy en then en else lit "inf");
                      lit "--force-keyframes-at-cuts"]
                else []); [|rewrite B; reflexivity].
  - unfold sectionArgs, hasStart, hasEnd, notNot, orDefault, requestOf,
      Download.orUndefined. cbn [startTime endTime]. fold st en.
    destruct (truthy st) eqn:Ts, (truthy en) eqn:Te; cbn [andb orb];
      rewrite ?Ts, ?Te; try reflexivity;
      destruct (str_eqb st (lit "00:00")); reflexivity.
Qed.

Lemma handleSubmit_command_witness :
  map args (Download.spawned
              (Download.handleSubmit (hostPrinting [] None) aVideo zeroStart
                 (freshForm intelMac)))
  = [[lit "--no-playlist"; lit "--newline"; lit "-o";
      lit "/Users/dean/Downloads/clipity/%(title)s.%(ext)s";
      lit "--ffmpeg-location"; lit "/usr/local/bin";
      lit "-f"; lit "bestvideo[ext=mp4]+bestaudio[ext=m4a]/best[ext=mp4]/best";
      lit "--merge-output-format"; lit "mp4"; lit "https://example.com/v"]].
Proof.
  rewrite (handleSubmit_command (hostPrinting [] None) aVideo zeroStart
             (freshForm intelMac) (lit "/usr/local/bin/yt-dlp")
             (lit "/usr/local/bin/ffmpeg")).
  - reflexivity.
  - vm_compute. exact I.
  - reflexivity.
  - reflexivity.
Defined.

(** X8.  A start time that is not empty but holds only white space does not
    parse, so the request passes the validation whatever the end time is;
    being a non-empty string it still counts as given, and yt-dlp receives a
    range argument made of that white space. *)
Theorem handleSubmit_blank_start (H : host) (info : Download.VideoInfo)
  (values : Download.FormValues) (s : Download.session) (y f : str) :
  Download.f_startTime values <> [] ->
  trim (Download.f_startTime values) = [] ->
  getBinPath (Download.fs s) (lit "yt-dlp") = Some y ->
  getBinPath (Download.fs s) (lit "ffmpeg") = Some f ->
  passes values
  /\ exists c,
       Download.spawned (Download.handleSubmit H info values s)
       = Download.spawned s ++ [c]
       /\ In (lit "--download-sections") (args c)
       /\ In (lit "*" ++ Download.f_startTime values ++ lit "-"
                ++ (if truthy (Download.f_endTime values)
                    then Download.f_endTime values else lit "inf"))
            (args c).
Proof.
  intros N B Y F.
  assert (P : passes values).
  { unfold passes, parseTimeToSeconds at 1. now rewrite B. }
  split; [exact P|].
  rewrite (handleSubmit_spawned H info values s y f P Y F).
  eexists. split; [reflexivity|].
  assert (S : sectionArgs (requestOf info values)
              = [lit "--download-sections";
                 lit "*" ++ Download.f_startTime values ++ lit "-"
                   ++ (if truthy (Download.f_endTime values)
                       then Download.f_endTime values else lit "inf");
                 lit "--force-keyframes-at-cuts"]).
  { unfold sectionArgs, hasStart, hasEnd, notNot, orDefault, requestOf,
      Download.orUndefined. cbn [startTime endTime].
    pose proof (proj2 (truthy_true _) N) as T.
    assert (Z : str_eqb (Download.f_startTime values) (lit "00:00") = false).
    { apply str_eqb_neq. intros E. rewrite E in B. discriminate B. }
    rewrite T. cbv iota. rewrite ?T, Z. cbn [andb negb orb].
    destruct (truthy (Download.f_endTime values)) eqn:Te; cbv iota;
      rewrite ?T, ?Te; reflexivity. }
  unfold downloadCommand, downloadArgs. cbn [args]. rewrite S.
  split; apply in_or_app; right; apply in_or_app; right; apply in_or_app; left;
    [now left | right; now left].
Qed.

Lemma handleSubmit_blank_start_witness :
  exists c,
    Download.spawned
      (Download.handleSubmit (hostPrinting [] None) aVideo blankStart
         (freshForm intelMac)) = [c]
    /\ In (lit "*  -00:30") (args c).
Proof.
  destruct (handleSubmit_blank_start (hostPrinting [] None) aVideo blankStart
              (freshForm intelMac) (lit "/usr/local/bin/yt-dlp")
              (lit "/usr/local/bin/ffmpeg"))
    as (_ & c & S & _ & R); try reflexivity; try discriminate.
  exists c. split; [exact S | exact R].
Defined.

(** ** installAll: every run *)

(** X9.  However the installs go, [installAll] ends with [installing] false,
    no step left running, and the toast it showed turned into a success or a
    failure.  On success every step is done or skipped and the status
    published is that of the filesystem as the installs left it; on failure a
    step is in error and the status in the state is the one from before the
    run, whatever was installed meanwhile. *)
Theorem installAll_settles (H : host) (s : Setup.session) :
  let s' := Setup.installAll H s in
  Setup.installing s' = false
  /\ (forall k, Setup.state (Setup.step k (Setup.steps s')) <> Setup.running)
  /\ exists t,
       Setup.toast s' = Some t
       /\ ((Setup.style t = Setup.Success
            /\ Setup.deps s' = Some (checkDeps (Setup.fs s'))
            /\ forall k, finished (Setup.state (Setup.step k (Setup.steps s'))))
           \/ (Setup.style t = Setup.Failure
               /\ Setup.deps s' = Setup.deps s
               /\ exists k,
                    Setup.state (Setup.step k (Setup.steps s')) = Setup.error)).
Proof.
  destruct (installAll_run H s) as (I & R & _ & T).
  cbv zeta. split; [exact I|]. split; [exact R | exact T].
Qed.

Lemma installAll_settles_witness :
  Setup.installing
    (Setup.installAll (hostPrinting [] (Some curlFailure)) (freshSetup bareMac))
  = false.
Proof.
  exact (proj1 (installAll_settles (hostPrinting [] (Some curlFailure))
                  (freshSetup bareMac))).
Defined.

(** X10.  [installAll] spawns at most three processes, and each of them for
    a tool that its check at the start found missing: the bootstrap script
    when Homebrew was missing, [install yt-dlp] and [install ffmpeg] when
    these were.  A tool found at the start is never installed again. *)
Theorem installAll_commands (H : host) (s : Setup.session) :
  exists cs,
    Setup.spawned (Setup.installAll H s) = Setup.spawned s ++ cs
    /\ (length cs <= 3)%nat
    /\ forall c, In c cs -> demanded (checkDeps (Setup.fs s)) c.
Proof.
  destruct (installAll_run H s) as (_ & _ & C & _). exact C.
Qed.

Lemma installAll_commands_witness :
  exists cs,
    Setup.spawned (Setup.installAll (hostPrinting [] None) (freshSetup bareMac))
    = cs
    /\ (length cs <= 3)%nat.
Proof.
  destruct (installAll_commands (hostPrinting [] None) (freshSetup bareMac))
    as (cs & E & L & _).
  exists cs. split; [exact E | exact L].
Defined.

(** X11.  Homebrew missing at the start, the bootstrap script resolving, and
    Homebrew still at neither of its known places afterwards: the brew step
    ends done all the same, and the yt-dlp step that follows fails on the
    spot with "Homebrew not found", without spawning; the ffmpeg step stays
    idle and the bootstrap is the only process of the run. *)
Theorem installAll_bootstrap_in_vain (H : host) (s : Setup.session) :
  Utils.brew (checkDeps (Setup.fs s)) = false ->
  Utils.ytdlp (checkDeps (Setup.fs s)) = false ->
  rejected (execa H (Setup.fs s) homebrewCommand) = None ->
  getBrewPath (fsAfter (execa H (Setup.fs s) homebrewCommand)) = None ->
  let s' := Setup.installAll H s in
  Setup.state (Setup.brew (Setup.steps s')) = Setup.done
  /\ Setup.ytdlp (Setup.steps s')
     = {| Setup.state := Setup.error;
          Setup.log := lit "Error: Homebrew not found" |}
  /\ Setup.ffmpeg (Setup.steps s') = Setup.IDLE
  /\ Setup.spawned s' = Setup.spawned s ++ [homebrewCommand]
  /\ Setup.installing s' = false
  /\ Setup.deps s' = Setup.deps s
  /\ Setup.toast s'
     = Some {| Setup.style := Setup.Failure;
               Setup.title := lit "yt-dlp install failed";
               Setup.message := Some (lit "Run: brew install yt-dlp") |}.
Proof.
  intros B Y R G. cbv zeta.
  remember (Setup.installAll H s) as s' eqn:Es.
  unfold Setup.installAll in Es. rewrite installSteps_stages in Es.
  cbv zeta in Es.
  set (s0 := Setup.showToast _ _) in Es.
  change (Setup.fs s0) with (Setup.fs s) in Es. rewrite B, Y in Es.
  unfold stage at 1 in Es. cbv zeta in Es.
  set (s0' := Setup.toastMessage _ _) in Es.
  change (Setup.fs s0') with (Setup.fs s) in Es.
  set (r := installHomebrew H (Setup.fs s)) in Es.
  change (i_error r) with (rejected (execa H (Setup.fs s) homebrewCommand))
    in Es.
  rewrite R in Es. cbn [Setup.andThen] in Es.
  destruct (await_keeps Setup.kBrew r s0') as (D & I & T & F & Sp & St & Ot).
  pose proof (Ot Setup.kFfmpeg ltac:(discriminate)) as Of.
  cbn [Setup.step] in Of.
  change (Setup.spawned s0') with (Setup.spawned s) in Sp.
  change (Setup.deps s0') with (Setup.deps s) in D.
  change (Setup.ffmpeg (Setup.steps s0')) with Setup.IDLE in Of.
  change (i_spawned r) with [homebrewCommand] in Sp.
  change (i_fs r) with (fsAfter (execa H (Setup.fs s) homebrewCommand)) in F.
  set (a := Setup.await Setup.kBrew r s0') in *. clearbody a.
  unfold stage in Es. cbv zeta in Es.
  set (s1 := Setup.toastMessage _ _) in Es.
  assert (F1 : Setup.fs s1 = Setup.fs a) by reflexivity.
  assert (E : brewInstall H (Setup.fs s1) (lit "yt-dlp")
              = {| i_fs := Setup.fs s1; i_spawned := []; i_lines := [];
                   i_error := Some (lit "Error: Homebrew not found") |}).
  { unfold brewInstall. rewrite F1, F, G. reflexivity. }
  rewrite E in Es. cbn [i_error Setup.andThen] in Es.
  set (r2 := {| i_fs := Setup.fs s1; i_spawned := []; i_lines := [];
                i_error := Some (lit "Error: Homebrew not found") |}) in Es.
  destruct (await_keeps Setup.kYtdlp r2 s1)
    as (D2 & _ & T2 & _ & Sp2 & _ & Ot2).
  pose proof (Ot2 Setup.kFfmpeg ltac:(discriminate)) as Of2.
  pose proof (Ot2 Setup.kBrew ltac:(discriminate)) as Ob2.
  cbn [Setup.step] in Of2, Ob2.
  set (a2 := Setup.await Setup.kYtdlp r2 s1) in *. clearbody a2.
  rewrite Es.
  unfold Setup.setInstalling, Setup.toastFail, Setup.setToast, Setup.upd,
    Setup.setSteps.
  cbn [Setup.steps Setup.brew Setup.ytdlp Setup.ffmpeg Setup.spawned
       Setup.installing Setup.deps Setup.toast Setup.patch Setup.p_state
       Setup.p_log Setup.state Setup.log option_map].
  rewrite D2, T2, Sp2, Of2, Ob2.
  unfold s1, Setup.toastMessage, Setup.setToast, Setup.upd, Setup.setSteps.
  cbn [Setup.steps Setup.brew Setup.ytdlp Setup.ffmpeg Setup.spawned
       Setup.installing Setup.deps Setup.toast Setup.patch Setup.p_state
       Setup.p_log Setup.state Setup.log option_map i_spawned].
  rewrite D, T, Sp, Of, app_nil_r. repeat split.
Qed.

Lemma installAll_bootstrap_in_vain_witness :
  let s' := Setup.installAll (hostPrinting [] None) (freshSetup bareMac) in
  Setup.state (Setup.brew (Setup.steps s')) = Setup.done
  /\ Setup.state (Setup.ytdlp (Setup.steps s')) = Setup.error
  /\ Setup.spawned s' = [homebrewCommand].
Proof.
  destruct (installAll_bootstrap_in_vain (hostPrinting [] None)
              (freshSetup bareMac) eq_refl eq_refl eq_refl eq_refl)
    as (B & Y & _ & Sp & _).
  cbv zeta. rewrite B, Y, Sp. repeat split.
Defined.

(** ** installSingle *)

Lemma awaitSingle_keeps key r s :
  let s' := SetupView.awaitSingle key r s in
  Setup.deps s' = Setup.deps s
  /\ Setup.installing s' = Setup.installing s
  /\ (Setup.toast s = None <-> Setup.toast s' = None)
  /\ Setup.fs s' = i_fs r
  /\ Setup.spawned s' = Setup.spawned s ++ i_spawned r
  /\ (forall k, k <> key -> Setup.step k (Setup.steps s')
                            = Setup.step k (Setup.steps s))
  /\ Setup.state (Setup.step key (Setup.steps s'))
     = Setup.state (Setup.step key (Setup.steps s))
  /\ Setup.log (Setup.step key (Setup.steps s'))
     = last (i_lines r) (Setup.log (Setup.step key (Setup.steps s))).
Proof.
  unfold SetupView.awaitSingle.
  cbn [Setup.deps Setup.installing Setup.toast Setup.fs Setup.spawned
       Setup.steps].
  induction (i_lines r) as [|l ls IH] using rev_ind.
  - cbn [fold_left last]. repeat split; auto.
  - rewrite fold_left_app. cbn [fold_left].
    destruct IH as (D & I & T & _ & Sp & Ot & St & Lg).
    rewrite last_last.
    set (a := fold_left (SetupView.onLine key) ls s) in *. clearbody a.
    unfold SetupView.onLine, Setup.toastMessage, Setup.setToast, Setup.upd,
      Setup.setSteps.
    cbn [Setup.deps Setup.installing Setup.toast Setup.spawned Setup.steps].
    repeat split; try assumption.
    + intros E. apply T in E. now rewrite E.
    + intros E. apply T. destruct (Setup.toast a); [discriminate E | reflexivity].
    + intros k N. rewrite <- (Ot k N).
      destruct key, k; try reflexivity; congruence.
    + rewrite <- St. destruct key; reflexivity.
    + destruct key; reflexivity.
Qed.

(** X12.  [installSingle] touches the step of its package only: the other
    two steps are as before (nothing is reset), [installing] ends false, and
    the only process is the one of [brewInstall].  When the install resolves
    the step is done, its log is the last line forwarded (the opening text
    when there was none), the toast is the success toast and the status
    published is the one of the filesystem after the install; when it
    rejects the step is in error with the error as its log, the toast is the
    failure toast with the manual command, and the status is left alone. *)
Theorem installSingle_outcome (H : host) (pkg : SetupView.Pkg)
  (s : Setup.session) :
  let r := brewInstall H (Setup.fs s) (SetupView.pkgName pkg) in
  let key := SetupView.keyOf pkg in
  let s' := SetupView.installSingle H pkg s in
  Setup.installing s' = false
  /\ (forall k, k <> key ->
        Setup.step k (Setup.steps s') = Setup.step k (Setup.steps s))
  /\ Setup.spawned s' = Setup.spawned s ++ i_spawned r
  /\ (length (i_spawned r) <= 1)%nat
  /\ match i_error r with
     | None =>
         Setup.step key (Setup.steps s')
         = {| Setup.state := Setup.done;
              Setup.log := last (i_lines r)
                             (lit "Installing " ++ SetupView.pkgName pkg
                                ++ Setup.ellipsis) |}
         /\ Setup.toast s'
            = Some {| Setup.style := Setup.Success;
                      Setup.title := SetupView.pkgName pkg ++ lit " installed!";
                      Setup.message := Some [] |}
         /\ Setup.deps s' = Some (checkDeps (i_fs r))
     | Some e =>
         Setup.step key (Setup.steps s')
         = {| Setup.state := Setup.error; Setup.log := e |}
         /\ Setup.toast s'
            = Some {| Setup.style := Setup.Failure;
                      Setup.title := lit "Failed to install "
                                       ++ SetupView.pkgName pkg;
                      Setup.message :=
                        Some (lit "Run manually: brew install "
                                ++ SetupView.pkgName pkg) |}
         /\ Setup.deps s' = Setup.deps s
     end.
Proof.
  cbv zeta. remember (SetupView.installSingle H pkg s) as s' eqn:Es.
  unfold SetupView.installSingle in Es. cbv zeta in Es.
  set (s1 := Setup.showToast _ _) in Es.
  change (Setup.fs s1) with (Setup.fs s) in Es.
  set (r := brewInstall H (Setup.fs s) (SetupView.pkgName pkg)) in *.
  set (key := SetupView.keyOf pkg) in *.
  destruct (awaitSingle_keeps key r s1) as (D & I & T & F & Sp & Ot & St & Lg).
  change (Setup.deps s1) with (Setup.deps s) in D.
  change (Setup.spawned s1) with (Setup.spawned s) in Sp.
  assert (O1 : forall k, k <> key ->
                Setup.step k (Setup.steps s1) = Setup.step k (Setup.steps s)).
  { intros k N. unfold key in *. destruct pkg, k; try reflexivity;
      cbn [SetupView.keyOf] in N; congruence. }
  assert (L1 : Setup.log (Setup.step key (Setup.steps s1))
               = lit "Installing " ++ SetupView.pkgName pkg ++ Setup.ellipsis).
  { unfold key. destruct pkg; reflexivity. }
  rewrite L1 in Lg.
  assert (Tn : Setup.toast (SetupView.awaitSingle key r s1) <> None).
  { intros E. apply T in E. discriminate E. }
  set (a := SetupView.awaitSingle key r s1) in *. clearbody a.
  destruct (Setup.toast a) as [t|] eqn:Et; [clear Tn | congruence].
  assert (Fin : forall k, k <> key ->
                  Setup.step k (Setup.steps s') = Setup.step k (Setup.steps s)).
  { intros k N. rewrite <- (O1 k N), <- (Ot k N), Es.
    destruct (i_error r); unfold key in *; destruct pkg, k; try reflexivity;
      cbn [SetupView.keyOf] in N; congruence. }
  split; [rewrite Es; reflexivity|]. split; [exact Fin|].
  split; [rewrite Es, <- Sp; destruct (i_error r); reflexivity|].
  split; [apply brewInstall_spawned_length|].
  destruct (i_error r) as [e|]; rewrite Es;
    unfold Setup.setInstalling, Setup.setDeps, Setup.setToast, Setup.upd,
      Setup.setSteps;
    cbn [Setup.steps Setup.spawned Setup.installing Setup.deps Setup.toast
         Setup.fs];
    rewrite Et, ?D, ?F; cbn [option_map].
  - split; [|split; reflexivity]. unfold key. destruct pkg; reflexivity.
  - split; [|split; reflexivity]. rewrite <- Lg. unfold key.
    destruct pkg; cbn [SetupView.keyOf Setup.step Setup.ytdlp Setup.ffmpeg];
      unfold Setup.patch; cbn [Setup.p_state Setup.p_log]; reflexivity.
Qed.

Lemma installSingle_outcome_witness :
  Setup.installing
    (SetupView.installSingle (hostPrinting [] None) SetupView.Ffmpeg
       (freshSetup intelMac))
  = false.
Proof.
  exact (proj1 (installSingle_outcome (hostPrinting [] None) SetupView.Ffmpeg
                  (freshSetup intelMac))).
Defined.

(** ** The list of steps as it is drawn *)

(** X13.  The list as it is drawn after a run of [installAll], once the
    status is known.  No row carries the progress icon.  The yt-dlp and
    ffmpeg rows show "Already installed" or their fixed description: since
    [installing] is false again, the log of a step, and so the error of a
    failed install, is not shown there.  When the toast reports success each
    of the three rows carries the green check mark. *)
Theorem installAll_rendered (H : host) (s : Setup.session)
  (rows : list SetupView.Item) (t : str) (acts : list SetupView.Item) :
  let s' := Setup.installAll H s in
  SetupView.render s' = SetupView.Sections rows t acts ->
  exists d b y f,
    Setup.deps s' = Some d /\ rows = [b; y; f]
    /\ (forall it, In it rows ->
          fst (SetupView.icon it) <> SetupView.CircleProgress50)
    /\ SetupView.subtitle y
       = (if Utils.ytdlp d then lit "Already installed"
          else lit "Downloads videos from 1000+ sites")
    /\ SetupView.subtitle f
       = (if Utils.ffmpeg d then lit "Already installed"
          else lit "Handles video trimming & conversion")
    /\ (option_map Setup.style (Setup.toast s') = Some Setup.Success ->
        forall it, In it rows ->
          SetupView.icon it = (SetupView.CheckCircle, SetupView.Green)).
Proof.
  cbv zeta. destruct (installAll_run H s) as (I & R & _ & tt & Et & Out).
  cbv zeta in I, R, Et, Out. set (s' := Setup.installAll H s) in *.
  unfold SetupView.render. destruct (Setup.deps s') as [d|]; [|discriminate].
  cbv zeta. intros E. injection E as <- _ _.
  assert (Ic : forall present k,
            fst (SetupView.stepIcon
                   (SetupView.shownStep present
                      (Setup.step k (Setup.steps s'))))
            <> SetupView.CircleProgress50).
  { intros present k. specialize (R k). unfold SetupView.shownStep.
    destruct present; [discriminate|].
    unfold SetupView.stepIcon.
    destruct (Setup.state (Setup.step k (Setup.steps s'))) eqn:St;
      cbn [Setup.state]; rewrite ?St; try discriminate. congruence. }
  assert (Gr : option_map Setup.style (Setup.toast s') = Some Setup.Success ->
               forall present k,
                 SetupView.stepIcon
                   (SetupView.shownStep present
                      (Setup.step k (Setup.steps s')))
                 = (SetupView.CheckCircle, SetupView.Green)).
  { rewrite Et. cbn [option_map]. intros Sc present k.
    destruct Out as [(_ & _ & Fi) | (Fl & _)]; [|congruence].
    unfold SetupView.shownStep. destruct present; [reflexivity|].
    unfold SetupView.stepIcon.
    destruct (Fi k) as [St|St]; rewrite St; cbn [Setup.state]; now rewrite St. }
  exists d, (SetupView.brewItem d s'), (SetupView.ytdlpItem d s'),
    (SetupView.ffmpegItem d s').
  split; [reflexivity|]. split; [reflexivity|]. split; [|split; [|split]].
  - intros it [<-|[<-|[<-|[]]]].
    + exact (Ic (Utils.brew d) Setup.kBrew).
    + exact (Ic (Utils.ytdlp d) Setup.kYtdlp).
    + exact (Ic (Utils.ffmpeg d) Setup.kFfmpeg).
  - unfold SetupView.ytdlpItem, SetupView.toolItem. cbn [SetupView.subtitle].
    now rewrite I.
  - unfold SetupView.ffmpegItem, SetupView.toolItem. cbn [SetupView.subtitle].
    now rewrite I.
  - intros Sc it [<-|[<-|[<-|[]]]].
    + exact (Gr Sc (Utils.brew d) Setup.kBrew).
    + exact (Gr Sc (Utils.ytdlp d) Setup.kYtdlp).
    + exact (Gr Sc (Utils.ffmpeg d) Setup.kFfmpeg).
Qed.

Lemma installAll_rendered_witness :
  match SetupView.render
          (Setup.installAll (hostPrinting [] None) (freshSetup intelMac)) with
  | SetupView.Sections rows _ _ =>
      map SetupView.icon rows
      = [(SetupView.CheckCircle, SetupView.Green);
         (SetupView.CheckCircle, SetupView.Green);
         (SetupView.CheckCircle, SetupView.Green)]
  | SetupView.Loading => False
  end.
Proof.
  destruct (SetupView.render _) as [|rows t acts] eqn:E.
  - vm_compute in E. discriminate E.
  - destruct (installAll_rendered _ _ rows t acts E)
      as (d & b & y & f & _ & -> & _ & _ & _ & Gr).
    assert (Sc : option_map Setup.style
                   (Setup.toast (Setup.installAll (hostPrinting [] None)
                                   (freshSetup intelMac)))
                 = Some Setup.Success) by (vm_compute; reflexivity).
    cbn [map].
    rewrite (Gr Sc b (or_introl eq_refl)).
    rewrite (Gr Sc y (or_intror (or_introl eq_refl))).
    rewrite (Gr Sc f (or_intror (or_intror (or_introl eq_refl)))).
    reflexivity.
Defined.

(** X14.  What the setup list offers does not depend on [installing]: an
    install can be started while another is under way.  "Install
    everything" is offered exactly when the status is known and one of the
    three tools is missing, and the install of a single tool exactly when
    that tool is. *)
Theorem render_offers (s : Setup.session) :
  (forall b, offered (SetupView.render (Setup.setInstalling b s))
             = offered (SetupView.render s))
  /\ (In SetupView.RunInstallAll (offered (SetupView.render s)) <->
      exists d, Setup.deps s = Some d
                /\ Utils.brew d && Utils.ytdlp d && Utils.ffmpeg d = false)
  /\ (forall pkg,
        In (SetupView.RunInstallSingle pkg) (offered (SetupView.render s)) <->
        exists d, Setup.deps s = Some d
                  /\ match pkg with
                     | SetupView.YtDlp => Utils.ytdlp d
                     | SetupView.Ffmpeg => Utils.ffmpeg d
                     end = false).
Proof.
  split.
  { intros b. unfold SetupView.render.
    cbn [Setup.setInstalling Setup.deps].
    destruct (Setup.deps s); reflexivity. }
  unfold SetupView.render. destruct (Setup.deps s) as [d|].
  2:{ split; [|intros pkg]; (split; [intros [] | intros (d & E & _);
                                                  discriminate E]). }
  cbv zeta. unfold SetupView.brewItem, SetupView.ytdlpItem,
    SetupView.ffmpegItem, SetupView.toolItem.
  split; [|intros pkg]; split.
  - intros I. exists d. split; [reflexivity|].
    destruct (Utils.brew d), (Utils.ytdlp d), (Utils.ffmpeg d);
      try reflexivity.
    cbn in I. intuition discriminate.
  - intros (d' & E & Fl). injection E as <-.
    destruct (Utils.brew d), (Utils.ytdlp d), (Utils.ffmpeg d);
      try discriminate Fl; cbn; auto 10.
  - intros I. exists d. split; [reflexivity|].
    destruct pkg, (Utils.brew d), (Utils.ytdlp d), (Utils.ffmpeg d);
      try reflexivity; cbn in I; intuition discriminate.
  - intros (d' & E & Fl). injection E as <-.
    destruct pkg, (Utils.brew d), (Utils.ytdlp d), (Utils.ffmpeg d);
      try discriminate Fl; cbn; auto 10.
Qed.

Lemma render_offers_witness :
  offered (SetupView.render
             (Setup.setInstalling true
                (SetupView.onMount (freshSetup noFfmpeg))))
  = offered (SetupView.render (SetupView.onMount (freshSetup noFfmpeg))).
Proof.
  exact (proj1 (render_offers (SetupView.onMount (freshSetup noFfmpeg))) true).
Defined.

(** ** Durations that are not whole *)

Lemma Qfloor_div_Z q k :
  (0 < k)%Z -> Qfloor (q / inject_Z k) = (Qfloor q / k)%Z.
Proof.
  intros K. destruct q as [a b]. destruct k as [|p|p]; try lia.
  unfold Qdiv, Qinv, Qmult, inject_Z, Qfloor. cbn [Qnum Qden].
  rewrite Z.mul_1_r, Pos2Z.inj_mul. symmetry. apply Z.div_div; lia.
Qed.

Lemma Qtrunc_nonneg q : (0 <= q)%Q -> Qtrunc q = Qfloor q.
Proof.
  intros P. destruct q as [a b]. unfold Qtrunc, Qfloor. cbn [Qnum Qden].
  unfold Qle in P. cbn [Qnum Qden] in P.
  apply Z.quot_div_nonneg; lia.
Qed.

Lemma fin_dyadic M j :
  (0 <= M < 2 ^ 53)%Z -> (0 <= j <= 1074)%Z ->
  fin (M # Z.to_pos (2 ^ j)) = Fin (Qred (M # Z.to_pos (2 ^ j))).
Proof. exact (round64_dyadic M j). Qed.

Section Dyadic.
Variables (q : Q) (M j : Z).
Hypothesis BM : (0 <= M < 2 ^ 53)%Z.
Hypothesis Bj : (0 <= j <= 52)%Z.
Hypothesis Eq : (q == M # Z.to_pos (2 ^ j))%Q.

Lemma dyadic_floor : Qfloor q = (M / 2 ^ j)%Z.
Proof.
  rewrite (Qfloor_comp _ _ Eq). apply Qfloor_make.
  apply Z.pow_pos_nonneg; lia.
Qed.

Lemma dyadic_nonneg : (0 <= q)%Q.
Proof. rewrite Eq. unfold Qle. cbn [Qnum Qden]. lia. Qed.

Lemma floor_div_Fin k :
  (0 < k <= 2 ^ 53)%Z -> Math_floor (Fin q / ofZ k)%js = ofZ (Qfloor q / k).
Proof.
  intros K. cbv beta iota delta [div ofZ].
  rewrite inject_Z_nonzero by lia.
  assert (Pj : (0 < 2 ^ j)%Z) by (apply Z.pow_pos_nonneg; lia).
  assert (Uj : (2 ^ j <= 2 ^ 52)%Z) by (apply Z.pow_le_mono_r; lia).
  assert (E : (q / inject_Z k == M # Z.to_pos (2 ^ j * k))%Q).
  { rewrite Eq. unfold Qeq, Qdiv, Qmult, Qinv, inject_Z.
    destruct k as [|pk|pk]; try lia. cbn [Qnum Qden].
    rewrite !Pos2Z.inj_mul, !Z2Pos.id by lia. ring. }
  rewrite (fin_comp _ _ E), dyadic_floor, Z.div_div by lia.
  destruct (Z.eq_dec M 0) as [->|NM].
  { rewrite Z.div_0_l by lia. reflexivity. }
  pose proof (Z.div_mod M (2 ^ j * k) ltac:(lia)) as Dm.
  pose proof (Z.mod_pos_bound M (2 ^ j * k) ltac:(lia)) as Mb.
  assert (P1074 : (2 ^ 52 * 2 ^ 53 <= 2 ^ 1074)%Z).
  { rewrite <- Z.pow_add_r by lia. apply Z.pow_le_mono_r; lia. }
  destruct (fin_grid M (2 ^ j * k) 0 (M / (2 ^ j * k)))
    as (m & dn & Pd & -> & Lo & Hi);
    rewrite ?Z.pow_0_r, ?Z.mul_1_r in *; try nia.
  unfold Math_floor.
  rewrite (Qfloor_comp _ _ (Qred_correct _)), Qfloor_make by exact Pd.
  unfold ofZ. do 2 f_equal. symmetry.
  apply (Z.div_unique_pos m dn _ (m - dn * (M / (2 ^ j * k)))); lia.
Qed.

Lemma rem_Fin k :
  (0 < k)%Z ->
  exists M',
    (Fin q mod ofZ k)%js = Fin (Qred (M' # Z.to_pos (2 ^ j)))
    /\ (0 <= M' <= M)%Z
    /\ (M' / 2 ^ j = Qfloor q mod k)%Z.
Proof.
  intros K. cbv beta iota delta [rem ofZ].
  rewrite inject_Z_nonzero by lia.
  assert (Pj : (0 < 2 ^ j)%Z) by (apply Z.pow_pos_nonneg; lia).
  set (n := (M / 2 ^ j)%Z).
  pose proof (Z.div_mod M (2 ^ j) ltac:(lia)) as Dm.
  pose proof (Z.mod_pos_bound M (2 ^ j) Pj) as Mb. fold n in Dm.
  assert (Nn : (0 <= n)%Z) by (apply Z.div_pos; lia).
  pose proof (Z.div_mod n k ltac:(lia)) as Dk.
  pose proof (Z.mod_pos_bound n k K) as Mk.
  assert (T : Qtrunc (q / inject_Z k) = (n / k)%Z).
  { rewrite Qtrunc_nonneg.
    - now rewrite Qfloor_div_Z, dyadic_floor by exact K.
    - apply Qle_shift_div_l; [|rewrite Qmult_0_l; exact dyadic_nonneg].
      change 0%Q with (inject_Z 0). rewrite <- Zlt_Qlt. exact K. }
  rewrite T. set (M' := (M - k * (n / k) * 2 ^ j)%Z).
  assert (E : (q - inject_Z k * inject_Z (n / k) == M' # Z.to_pos (2 ^ j))%Q).
  { rewrite Eq. unfold Qeq, Qminus, Qplus, Qopp, Qmult, inject_Z.
    cbn [Qnum Qden]. rewrite !Pos2Z.inj_mul, !Z2Pos.id by lia.
    unfold M'. ring. }
  assert (B' : (0 <= M' <= M)%Z).
  { assert (A : (k * (n / k) <= n)%Z) by lia.
    assert (A0 : (0 <= k * (n / k))%Z)
      by (apply Z.mul_nonneg_nonneg; [lia | apply Z.div_pos; lia]).
    pose proof (Z.mul_le_mono_nonneg_r _ _ (2 ^ j) ltac:(lia) A) as A1.
    assert (A2 : (0 <= k * (n / k) * 2 ^ j)%Z)
      by (apply Z.mul_nonneg_nonneg; lia).
    unfold M'. lia. }
  exists M'. split; [|split; [exact B'|]].
  - rewrite (fin_comp _ _ E). apply fin_dyadic; lia.
  - rewrite dyadic_floor. fold n. unfold M'.
    replace (M - k * (n / k) * 2 ^ j)%Z
      with (M + (- (k * (n / k))) * 2 ^ j)%Z by ring.
    rewrite Z.div_add by lia. fold n. rewrite Z.mod_eq by lia. lia.
Qed.

End Dyadic.

Lemma formatDuration_Fin q :
  smallDouble q -> (0 <= q)%Q ->
  formatDuration (Fin q) = formatDuration (ofZ (Qfloor q))
  /\ (0 <= Qfloor q < 2 ^ 53)%Z.
Proof.
  intros (M & j & BM & Bj & E) P.
  assert (Pj : (0 < 2 ^ j)%Z) by (apply Z.pow_pos_nonneg; lia).
  assert (M0 : (0 <= M)%Z).
  { rewrite E in P. unfold Qle in P. cbn [Qnum Qden] in P. lia. }
  assert (BM' : (0 <= M < 2 ^ 53)%Z) by lia.
  pose proof (dyadic_floor q M j Bj E) as Fq.
  assert (N : (0 <= Qfloor q < 2 ^ 53)%Z).
  { rewrite Fq. split; [apply Z.div_pos; lia|].
    apply Z.div_lt_upper_bound; nia. }
  split; [|exact N]. unfold formatDuration.
  destruct (rem_Fin q M j BM' Bj E 3600 ltac:(lia)) as (M1 & E1 & B1 & F1).
  destruct (rem_Fin q M j BM' Bj E 60 ltac:(lia)) as (M2 & E2 & B2 & F2).
  rewrite E1, E2.
  rewrite (floor_div_Fin q M j BM' Bj E) by lia.
  rewrite (floor_div_Fin _ M1 j ltac:(lia) Bj (Qred_correct _)) by lia.
  rewrite (dyadic_floor _ M1 j Bj (Qred_correct _)), F1.
  assert (F3 : Math_floor (Fin (Qred (M2 # Z.to_pos (2 ^ j))))
               = ofZ (Qfloor q mod 60)).
  { unfold Math_floor.
    now rewrite (dyadic_floor _ M2 j Bj (Qred_correct _)), F2. }
  rewrite !F3.
  assert (M3600 : (0 <= Qfloor q mod 3600 < 3600)%Z)
    by (apply Z.mod_pos_bound; lia).
  rewrite !rem_ofZ, !floor_div_ofZ by lia.
  assert (Fl : forall z, Math_floor (ofZ z) = ofZ z).
  { intros z. unfold Math_floor, ofZ at 1. now rewrite Qfloor_Z. }
  now rewrite !Fl.
Qed.

(** X15.  [formatDuration] drops the fraction of a second: a duration
    [q >= 0] below [2^53] with its fraction, as binary64 holds it, is
    written as its whole part [n] is, never rounded up; the text is the
    hours, if [n >= 3600], then the minutes and the seconds of [n] on two
    digits. *)
Theorem formatDuration_floor (q : Q) :
  smallDouble q -> (0 <= q)%Q ->
  let n := Qfloor q in
  formatDuration (Fin q) = formatDuration (ofZ n)
  /\ formatDuration (Fin q)
     = (if (3600 <=? n)%Z then decimal (n / 3600) ++ lit ":" else [])
         ++ twoDigits (n mod 3600 / 60) ++ lit ":" ++ twoDigits (n mod 60).
Proof.
  intros S P n. destruct (formatDuration_Fin q S P) as [E B].
  rewrite E. fold n in B |- *. split; [reflexivity|].
  rewrite formatDuration_ofZ by exact B.
  destruct (3600 <=? n)%Z; [|reflexivity].
  now rewrite <- app_assoc.
Qed.

Lemma formatDuration_floor_witness :
  formatDuration (Fin (851 # 4)) = lit "03:32".
Proof.
  rewrite (proj1 (formatDuration_floor (851 # 4)
                    ltac:(exists 851%Z, 2%Z; repeat split; discriminate)
                    ltac:(discriminate))).
  reflexivity.
Defined.

Lemma parse_format_ofZ n :
  (0 <= n < 2 ^ 53)%Z ->
  parseTimeToSeconds (formatDuration (ofZ n)) = Some (ofZ n).
Proof.
  intros P. rewrite formatDuration_ofZ by assumption.
  assert (M : (0 <= n mod 3600 < 3600)%Z) by (apply Z.mod_pos_bound; lia).
  assert (S : (0 <= n mod 60 < 60)%Z) by (apply Z.mod_pos_bound; lia).
  assert (M' : (0 <= n mod 3600 / 60 < 60)%Z).
  { split; [apply Z.div_pos; lia | apply Z.div_lt_upper_bound; lia]. }
  destruct (twoDigits_spec (n mod 3600 / 60)) as [Dm Vm]; [lia|].
  destruct (twoDigits_spec (n mod 60)) as [Ds Vs]; [lia|].
  assert (E : (n mod 60 = (n mod 3600) mod 60)%Z).
  { symmetry. apply Z.mod_mod_divide. exists 60%Z. reflexivity. }
  pose proof (Z.div_mod n 3600 ltac:(lia)) as Eh.
  pose proof (Z.div_mod (n mod 3600) 60 ltac:(lia)) as Em.
  destruct (Z.leb_spec 3600 n) as [G|G].
  - destruct (decimal_spec (n / 3600)) as (Dh & Vh & Nh).
    { apply Z.div_pos; lia. }
    rewrite parse_three; try assumption; try discriminate;
      rewrite Vh, Vm, Vs; [|lia].
    do 2 f_equal. lia.
  - rewrite Z.mod_small in * by lia.
    rewrite parse_two; try assumption; try discriminate;
      rewrite Vm, Vs; [|lia].
    do 2 f_equal. lia.
Qed.

(** X16.  [secondsToTimestamp] writes a number of seconds below [2^53] in
    magnitude as the whole seconds in it, and a negative one as zero: the
    text is the one of [max 0 (floor q)], [parseTimeToSeconds] reads it back
    as that number, and for [q <= 0] it is ["00:00"]. *)
Theorem secondsToTimestamp_clamps (q : Q) :
  smallDouble q ->
  let n := Z.max 0 (Qfloor q) in
  secondsToTimestamp (Fin q) = formatDuration (ofZ n)
  /\ parseTimeToSeconds (secondsToTimestamp (Fin q)) = Some (ofZ n)
  /\ ((q <= 0)%Q -> secondsToTimestamp (Fin q) = lit "00:00").
Proof.
  intros S. cbv zeta.
  assert (E : secondsToTimestamp (Fin q)
              = formatDuration (ofZ (Z.max 0 (Qfloor q)))
              /\ (0 <= Z.max 0 (Qfloor q) < 2 ^ 53)%Z).
  { unfold secondsToTimestamp.
    change (Math_max (ofZ 0) (Fin q))
      with (if Qle_bool q (inject_Z 0) then ofZ 0 else Fin q).
    destruct (Qle_bool q (inject_Z 0)) eqn:L.
    - apply Qle_bool_iff in L.
      assert (F : (Qfloor q <= 0)%Z).
      { change 0%Z with (Qfloor (inject_Z 0)). now apply Qfloor_resp_le. }
      rewrite Z.max_l by exact F. split; [reflexivity | lia].
    - assert (P : (0 <= q)%Q).
      { destruct (Qlt_le_dec q 0) as [Lt|Ge]; [|exact Ge].
        apply Qlt_le_weak in Lt. apply Qle_bool_iff in Lt.
        change (inject_Z 0) with 0%Q in L. congruence. }
      destruct (formatDuration_Fin q S P) as [F B].
      rewrite F, Z.max_r by lia. split; [reflexivity | exact B]. }
  destruct E as [E B].
  split; [exact E|]. split.
  - rewrite E. now apply parse_format_ofZ.
  - intros L. rewrite E.
    assert (F : (Qfloor q <= 0)%Z).
    { change 0%Z with (Qfloor 0). now apply Qfloor_resp_le. }
    now rewrite Z.max_l by exact F.
Qed.

Lemma secondsToTimestamp_clamps_witness :
  secondsToTimestamp (Fin (-5 # 2)) = lit "00:00".
Proof.
  destruct (secondsToTimestamp_clamps (-5 # 2)) as (_ & _ & Z).
  - exists (-5)%Z, 1%Z. repeat split; discriminate.
  - apply Z. discriminate.
Defined.

(** ** parseTimeToSeconds: white space and infinite components *)

Lemma dropWhile_idem p s : dropWhile p (dropWhile p s) = dropWhile p s.
Proof.
  pose proof (dropWhile_head_false p s) as F.
  destruct (dropWhile p s) as [|c t]; [reflexivity | now apply dropWhile_head].
Qed.

Lemma trimEnd_idem s : trimEnd (trimEnd s) = trimEnd s.
Proof. unfold trimEnd. now rewrite rev_involutive, dropWhile_idem. Qed.

Lemma trim_idem s : trim (trim s) = trim s.
Proof.
  unfold trim at 2 3. pose proof (dropWhile_head_false isWhiteSpace s) as F.
  unfold trimStart at 1 2. destruct (dropWhile isWhiteSpace s) as [|c t].
  - reflexivity.
  - rewrite (trimEnd_cons _ _ F). unfold trim, trimStart.
    rewrite (dropWhile_head _ _ _ F), (trimEnd_cons _ _ F).
    now rewrite trimEnd_idem.
Qed.

Lemma dropWhile_padded p s b :
  Forall (fun c => p c = true) b ->
  dropWhile p (s ++ b)
  = match dropWhile p s with [] => [] | _ :: _ => dropWhile p s ++ b end.
Proof.
  intros B. induction s as [|c s IH]; simpl.
  - now apply dropWhile_all.
  - destruct (p c); [exact IH | reflexivity].
Qed.

Lemma trim_padded a s b :
  Forall (fun c => isWhiteSpace c = true) a ->
  Forall (fun c => isWhiteSpace c = true) b ->
  trim (a ++ s ++ b) = trim s.
Proof.
  intros A B. unfold trim, trimStart.
  rewrite (dropWhile_app _ _ _ A), (dropWhile_padded _ _ _ B).
  destruct (dropWhile isWhiteSpace s) as [|c t]; [reflexivity|].
  unfold trimEnd. rewrite rev_app_distr.
  rewrite dropWhile_app; [reflexivity|].
  apply Forall_forall. intros x I. apply in_rev in I.
  rewrite Forall_forall in B. now apply B.
Qed.

(** X17.  White space around a time makes no difference to
    [parseTimeToSeconds]: the string and its trimmed text parse alike, and
    so does the string between any white space put before and after it. *)
Theorem parseTimeToSeconds_trim (s a b : str) :
  Forall (fun c => isWhiteSpace c = true) a ->
  Forall (fun c => isWhiteSpace c = true) b ->
  parseTimeToSeconds (trim s) = parseTimeToSeconds s
  /\ parseTimeToSeconds (a ++ s ++ b) = parseTimeToSeconds s.
Proof.
  intros A B. unfold parseTimeToSeconds.
  rewrite trim_idem, (trim_padded a s b A B). split; reflexivity.
Qed.

Lemma parseTimeToSeconds_trim_witness :
  parseTimeToSeconds (lit "  " ++ lit "1:30" ++ lit " ")
  = parseTimeToSeconds (lit "1:30").
Proof.
  apply (parseTimeToSeconds_trim (lit "1:30") (lit "  ") (lit " "));
    repeat constructor.
Defined.

Lemma divHalfEven_nonneg n d :
  (0 <= n)%Z -> (0 < d)%Z -> (0 <= divHalfEven n d)%Z.
Proof.
  intros N D. unfold divHalfEven.
  pose proof (Z.div_pos n d N D) as P.
  destruct (2 * (n mod d) ?= d)%Z; [destruct (Z.even (n / d))| |]; lia.
Qed.

Lemma fin_nonneg q : (0 <= q)%Q -> nonNegative (fin q).
Proof.
  intros P. unfold fin, round64.
  assert (N : (0 <= Qnum q)%Z).
  { unfold Qle in P. cbn [Qnum Qden] in P. lia. }
  destruct (Z.eqb_spec (Z.abs (Qnum q)) 0) as [|NZ].
  { right. exists 0%Q. split; [reflexivity | apply Qle_refl]. }
  unfold roundPos. cbv zeta.
  match goal with |- nonNegative (if ?b then _ else _) => destruct b end.
  - left. destruct (Z.ltb_spec 0 (Qnum q)); [reflexivity | lia].
  - right. eexists. split; [reflexivity|].
    rewrite Qred_correct. unfold Qle. cbn [Qnum Qden].
    rewrite Z.mul_0_l, Z.mul_1_r, Z.sgn_pos by lia.
    rewrite Z.mul_1_l. apply Z.mul_nonneg_nonneg.
    + apply divHalfEven_nonneg.
      * apply Z.mul_nonneg_nonneg; [lia | apply Z.pow_nonneg; lia].
      * apply Z.mul_pos_pos; [reflexivity | apply pow2_pos; lia].
    + apply Z.pow_nonneg; lia.
Qed.

Lemma mul_nonNegative x k :
  (0 < k)%Z -> nonNegative x -> nonNegative (x * ofZ k)%js.
Proof.
  intros K [->|(q & -> & P)].
  - left. destruct k; try lia. reflexivity.
  - cbv beta iota delta [mul ofZ]. apply fin_nonneg.
    apply Qmult_le_0_compat; [exact P|].
    change 0%Q with (inject_Z 0). rewrite <- Zle_Qle. lia.
Qed.

Lemma add_nonNegative x y :
  nonNegative x -> nonNegative y -> nonNegative (x + y)%js.
Proof.
  intros [->|(q & -> & P)] [->|(r & -> & R)];
    try (left; reflexivity).
  cbv beta iota delta [add]. apply fin_nonneg.
  change 0%Q with (0 + 0)%Q. now apply Qplus_le_compat.
Qed.



(** ** fetchVideoInfo *)

Lemma fetchVideoInfo_missing F fs url0 :
  getBinPath fs (lit "yt-dlp") = None ->
  Fetch.fetchVideoInfo F fs url0
  = {| Fetch.f_fs := fs; Fetch.f_spawned := [];
       Fetch.f_result :=
         inl (lit "Error: yt-dlp not installed. Run the Setup command first.") |}.
Proof. intros E. unfold Fetch.fetchVideoInfo. now rewrite E. Qed.

Lemma fetchVideoInfo_found F fs url0 y :
  getBinPath fs (lit "yt-dlp") = Some y ->
  Fetch.fetchVideoInfo F fs url0
  = let c := Fetch.fetchCommand F y url0 in
    let p := execa (Fetch.base F) fs c in
    {| Fetch.f_fs := fsAfter p; Fetch.f_spawned := [c];
       Fetch.f_result :=
         match rejected p with
         | Some e => inl e
         | None =>
             match Fetch.JSON_parse F (Fetch.stdoutOf F fs c) with
             | inl e => inl e
             | inr info => Fetch.describe info url0
             end
         end |}.
Proof.
  intros E. unfold Fetch.fetchVideoInfo.
  now rewrite E, (getBinPath_truthy _ _ _ E).
Qed.

Lemma orJ_truthy a d : Json.truthyJ d = true -> Json.truthyJ (Json.orJ a d) = true.
Proof. intros D. unfold Json.orJ. now destruct (Json.truthyJ a) eqn:E. Qed.

Lemma orJ_defined a d : d <> None -> Json.orJ a d <> None.
Proof.
  intros D. unfold Json.orJ. destruct (Json.truthyJ a) eqn:E; [|exact D].
  destruct a; [discriminate | discriminate E].
Qed.

Lemma describe_fields j url0 info :
  Fetch.describe j url0 = inr info ->
  Fetch.url info = url0
  /\ Json.truthyJ (Fetch.title info) = true
  /\ Fetch.duration info <> None
  /\ Fetch.thumbnail info <> None
  /\ Fetch.uploader info <> None.
Proof.
  unfold Fetch.describe.
  destruct (Json.get j (lit "title")) as [e|t]; [discriminate|].
  destruct (Json.get j (lit "duration")) as [e|d],
           (Json.get j (lit "thumbnail")) as [e'|th],
           (Json.get j (lit "uploader")) as [e''|u],
           (Json.get j (lit "channel")) as [e'''|c]; try discriminate.
  intros E. injection E as <-.
  cbn [Fetch.url Fetch.title Fetch.duration Fetch.thumbnail Fetch.uploader].
  split; [reflexivity|]. split; [now apply orJ_truthy|].
  repeat split; now apply orJ_defined.
Qed.



(** X20.  What the standard output parses to need not be an object.  For
    [null] the first property read throws, and [fetchVideoInfo] rejects with
    that type error; for a number, a string, a boolean or an array every
    property is [undefined], and the descriptor returned is the one of
    defaults: "Untitled", 0, no thumbnail, no uploader. *)
Theorem fetchVideoInfo_not_an_object (F : Fetch.fetcher) (fs : filesystem)
  (url0 y : str) (j : Json.json) :
  getBinPath fs (lit "yt-dlp") = Some y ->
  rejected (execa (Fetch.base F) fs (Fetch.fetchCommand F y url0)) = None ->
  Fetch.JSON_parse F (Fetch.stdoutOf F fs (Fetch.fetchCommand F y url0))
  = inr j ->
  (forall members, j <> Json.JObj members) ->
  Fetch.f_result (Fetch.fetchVideoInfo F fs url0)
  = match j with
    | Json.JNull =>
        inl (lit "TypeError: Cannot read properties of null (reading 'title')")
    | _ =>
        inr {| Fetch.title := Some (Json.JStr (lit "Untitled"));
               Fetch.duration := Some (Json.JNum (ofZ 0));
               Fetch.thumbnail := Some (Json.JStr []);
               Fetch.uploader := Some (Json.JStr []);
               Fetch.url := url0 |}
    end.
Proof.
  intros Y R P N. rewrite (fetchVideoInfo_found F fs url0 y Y). cbv zeta.
  cbn [Fetch.f_result]. rewrite R, P.
  destruct j; try reflexivity. now destruct (N members).
Qed.

Lemma fetchVideoInfo_not_an_object_witness :
  Fetch.f_result
    (Fetch.fetchVideoInfo (fetcherGiving "5" (inr (Json.JNum (ofZ 5))))
       intelMac (lit "https://example.com/v"))
  = inr {| Fetch.title := Some (Json.JStr (lit "Untitled"));
           Fetch.duration := Some (Json.JNum (ofZ 0));
           Fetch.thumbnail := Some (Json.JStr []);
           Fetch.uploader := Some (Json.JStr []);
           Fetch.url := lit "https://example.com/v" |}.
Proof.
  apply (fetchVideoInfo_not_an_object
           (fetcherGiving "5" (inr (Json.JNum (ofZ 5))))
           intelMac (lit "https://example.com/v")
           (lit "/usr/local/bin/yt-dlp") (Json.JNum (ofZ 5)));
    try reflexivity.
  discriminate.
Defined.

(** ** handleFetch and the effect on mount *)

Lemma fetch_facts F fs url0 :
  let r := Fetch.fetchVideoInfo F fs url0 in
  (length (Fetch.f_spawned r) <= 1)%nat
  /\ (forall c, In c (Fetch.f_spawned r) ->
        args c = [lit "--dump-json"; lit "--no-playlist"; url0])
  /\ (forall info, Fetch.f_result r = inr info ->
        Fetch.url info = url0 /\ Json.truthyJ (Fetch.title info) = true).
Proof.
  cbv zeta. destruct (getBinPath fs (lit "yt-dlp")) as [y|] eqn:Y.
  - rewrite (fetchVideoInfo_found F fs url0 y Y). cbv zeta.
    cbn [Fetch.f_spawned Fetch.f_result length].
    split; [apply Nat.le_refl|]. split.
    + intros c [<-|[]]. reflexivity.
    + intros info E. destruct (rejected _); [discriminate|].
      destruct (Fetch.JSON_parse F _) as [e|j]; [discriminate|].
      destruct (describe_fields j url0 info E) as (U & T & _).
      now split.
  - rewrite (fetchVideoInfo_missing F fs url0 Y).
    cbn [Fetch.f_spawned Fetch.f_result length].
    split; [apply Nat.le_0_l|]. split; [intros c []|discriminate].
Qed.

(** X21.  [handleFetch] leaves [isFetching], the search text and the
    dependency flag as it found them.  It spawns at most one process, and one
    only for a URL that is not blank, while no fetch is under way and the
    dependencies are known to be there; the URL on the command line is the
    trimmed one.  Either no form is pushed and the video in the state is
    the old one, or one form is pushed, for the video now in the state, whose
    URL is the trimmed one and whose title is truthy, and the progress toast
    is hidden. *)
Theorem handleFetch_outcome (F : Fetch.fetcher) (url0 : str)
  (s : DownloadView.session) :
  let s' := DownloadView.handleFetch F url0 s in
  DownloadView.isFetching s' = DownloadView.isFetching s
  /\ DownloadView.searchText s' = DownloadView.searchText s
  /\ DownloadView.depsOk s' = DownloadView.depsOk s
  /\ (exists cs,
        DownloadView.spawned s' = DownloadView.spawned s ++ cs
        /\ (length cs <= 1)%nat
        /\ forall c, In c cs ->
             args c = [lit "--dump-json"; lit "--no-playlist"; trim url0]
             /\ trim url0 <> []
             /\ DownloadView.isFetching s = false
             /\ DownloadView.depsOk s = Some true)
  /\ ((DownloadView.pushed s' = DownloadView.pushed s
       /\ DownloadView.videoInfo s' = DownloadView.videoInfo s)
      \/ exists info,
           DownloadView.pushed s' = DownloadView.pushed s ++ [info]
           /\ DownloadView.videoInfo s' = Some info
           /\ Fetch.url info = trim url0
           /\ Json.truthyJ (Fetch.title info) = true
           /\ exists t, DownloadView.toasts s'
                        = (t, false) :: DownloadView.toasts s).
Proof.
  cbv zeta. unfold DownloadView.handleFetch.
  assert (Idle : forall x : DownloadView.session,
            DownloadView.isFetching x = DownloadView.isFetching s
            /\ DownloadView.searchText x = DownloadView.searchText s
            /\ DownloadView.depsOk x = DownloadView.depsOk s
            /\ DownloadView.spawned x = DownloadView.spawned s
            /\ DownloadView.pushed x = DownloadView.pushed s
            /\ DownloadView.videoInfo x = DownloadView.videoInfo s ->
            DownloadView.isFetching x = DownloadView.isFetching s
            /\ DownloadView.searchText x = DownloadView.searchText s
            /\ DownloadView.depsOk x = DownloadView.depsOk s
            /\ (exists cs,
                  DownloadView.spawned x = DownloadView.spawned s ++ cs
                  /\ (length cs <= 1)%nat
                  /\ forall c, In c cs ->
                       args c = [lit "--dump-json"; lit "--no-playlist";
                                 trim url0]
                       /\ trim url0 <> []
                       /\ DownloadView.isFetching s = false
                       /\ DownloadView.depsOk s = Some true)
            /\ ((DownloadView.pushed x = DownloadView.pushed s
                 /\ DownloadView.videoInfo x = DownloadView.videoInfo s)
                \/ exists info,
                     DownloadView.pushed x = DownloadView.pushed s ++ [info]
                     /\ DownloadView.videoInfo x = Some info
                     /\ Fetch.url info = trim url0
                     /\ Json.truthyJ (Fetch.title info) = true
                     /\ exists t, DownloadView.toasts x
                                  = (t, false) :: DownloadView.toasts s)).
  { intros x (A & B & C & D & E & G). repeat split; try assumption.
    - exists []. rewrite app_nil_r. split; [exact D|].
      split; [apply Nat.le_0_l | intros c []].
    - left. now split. }
  destruct (truthy (trim url0)) eqn:Tu; cbn [negb orb];
    [|apply Idle; repeat split].
  destruct (DownloadView.isFetching s) eqn:If; [apply Idle; now repeat split|].
  destruct (DownloadView.depsOk s) as [[|]|] eqn:Dk; cbn [negb];
    [|apply Idle; now repeat split|apply Idle; now repeat split].
  set (s1 := DownloadView.showToast _ _).
  change (DownloadView.fs s1) with (DownloadView.fs s).
  destruct (fetch_facts F (DownloadView.fs s) (trim url0)) as (Ln & Ar & Re).
  set (r := Fetch.fetchVideoInfo F (DownloadView.fs s) (trim url0)) in *.
  assert (Sp : exists cs,
             DownloadView.spawned s ++ Fetch.f_spawned r
             = DownloadView.spawned s ++ cs
             /\ (length cs <= 1)%nat
             /\ forall c, In c cs ->
                  args c = [lit "--dump-json"; lit "--no-playlist"; trim url0]
                  /\ trim url0 <> []
                  /\ false = false
                  /\ Some true = Some true).
  { exists (Fetch.f_spawned r). split; [reflexivity|]. split; [exact Ln|].
    intros c I. split; [now apply Ar|].
    split; [now apply truthy_true | now split]. }
  destruct (Fetch.f_result r) as [e|info] eqn:Er.
  - cbn [DownloadView.setIsFetching DownloadView.setToast DownloadView.call
         DownloadView.isFetching DownloadView.searchText DownloadView.depsOk
         DownloadView.spawned DownloadView.pushed DownloadView.videoInfo].
    do 2 (split; [reflexivity|]). split; [exact Dk|]. split; [exact Sp|]. left. now split.
  - cbn [DownloadView.setIsFetching DownloadView.setToast DownloadView.call
         DownloadView.push DownloadView.setVideoInfo
         DownloadView.isFetching DownloadView.searchText DownloadView.depsOk
         DownloadView.spawned DownloadView.pushed DownloadView.videoInfo
         DownloadView.toasts].
    do 2 (split; [reflexivity|]). split; [exact Dk|]. split; [exact Sp|]. right. exists info.
    destruct (Re info eq_refl) as (U & T).
    repeat split; try assumption. eexists. reflexivity.
Qed.

Lemma handleFetch_outcome_witness :
  DownloadView.isFetching
    (DownloadView.handleFetch (fetcherGiving "null" (inr Json.JNull))
       (lit "https://example.com/v")
       (DownloadView.onMount None (freshView intelMac)))
  = false.
Proof.
  exact (proj1 (handleFetch_outcome (fetcherGiving "null" (inr Json.JNull))
                  (lit "https://example.com/v")
                  (DownloadView.onMount None (freshView intelMac)))).
Defined.

Lemma onMount_keeps clip s :
  let s1 := DownloadView.onMount clip s in
  DownloadView.depsOk s1
  = Some (Utils.ytdlp (checkDeps (DownloadView.fs s))
          && Utils.ffmpeg (checkDeps (DownloadView.fs s)))
  /\ DownloadView.isFetching s1 = DownloadView.isFetching s
  /\ DownloadView.fs s1 = DownloadView.fs s
  /\ DownloadView.spawned s1 = DownloadView.spawned s
  /\ DownloadView.pushed s1 = DownloadView.pushed s
  /\ DownloadView.toasts s1 = DownloadView.toasts s.
Proof.
  cbv zeta. unfold DownloadView.onMount.
  destruct clip as [c|]; [destruct (truthy c && DownloadView.isUrl c)|];
    repeat split.
Qed.

(** X22.  The view as it stands after its effect on mount.  The search text
    is replaced by the clipboard only when that starts with [http://] or
    [https://].  Fetching is allowed exactly when yt-dlp and ffmpeg were both
    found, Homebrew playing no part: without ffmpeg [handleFetch] spawns
    nothing and, for a URL that is not blank while no fetch is under way,
    shows the missing-dependencies toast, although the fetch itself runs
    yt-dlp alone; with both, and no fetch under way, it spawns yt-dlp on the
    trimmed URL. *)
Theorem fetch_after_mount (F : Fetch.fetcher) (clip : option str)
  (url0 : str) (s : DownloadView.session) :
  let s1 := DownloadView.onMount clip s in
  let s2 := DownloadView.handleFetch F url0 s1 in
  (DownloadView.searchText s1 = DownloadView.searchText s
   \/ (clip = Some (DownloadView.searchText s1)
       /\ DownloadView.isUrl (DownloadView.searchText s1) = true))
  /\ (getBinPath (DownloadView.fs s) (lit "yt-dlp") = None
      \/ getBinPath (DownloadView.fs s) (lit "ffmpeg") = None ->
      DownloadView.spawned s2 = DownloadView.spawned s
      /\ DownloadView.pushed s2 = DownloadView.pushed s
      /\ (trim url0 <> [] -> DownloadView.isFetching s = false ->
          DownloadView.toasts s2
          = (DownloadView.depsMissing, true) :: DownloadView.toasts s))
  /\ (forall y f,
        getBinPath (DownloadView.fs s) (lit "yt-dlp") = Some y ->
        getBinPath (DownloadView.fs s) (lit "ffmpeg") = Some f ->
        trim url0 <> [] -> DownloadView.isFetching s = false ->
        DownloadView.spawned s2
        = DownloadView.spawned s ++ [Fetch.fetchCommand F y (trim url0)]).
Proof.
  cbv zeta.
  destruct (onMount_keeps clip s) as (Dk & If & Fs & Sp & Pu & To).
  split; [|split].
  - unfold DownloadView.onMount.
    destruct clip as [c|]; [|now left].
    destruct (truthy c && DownloadView.isUrl c) eqn:E; [|now left].
    right. cbn [DownloadView.setSearchText DownloadView.searchText].
    split; [reflexivity|]. now apply andb_true_iff in E.
  - intros M.
    assert (No : DownloadView.depsOk (DownloadView.onMount clip s)
                 = Some false).
    { rewrite Dk. unfold checkDeps. cbn [Utils.ytdlp Utils.ffmpeg].
      destruct M as [M|M]; rewrite M; cbn [notNot]; [reflexivity|].
      now rewrite andb_false_r. }
    unfold DownloadView.handleFetch. rewrite No, If. cbn [negb].
    destruct (truthy (trim url0)) eqn:Tu; cbn [negb orb].
    + destruct (DownloadView.isFetching s) eqn:Is.
      * repeat split; try assumption. congruence.
      * cbn [DownloadView.showToast DownloadView.spawned DownloadView.pushed
             DownloadView.toasts].
        rewrite To. repeat split; assumption.
    + repeat split; try assumption. intros N.
      apply truthy_true in N. congruence.
  - intros y f Y Fm N Is.
    assert (Ok : DownloadView.depsOk (DownloadView.onMount clip s)
                 = Some true).
    { rewrite Dk. unfold checkDeps. cbn [Utils.ytdlp Utils.ffmpeg].
      rewrite Y, Fm. cbn [notNot].
      now rewrite (getBinPath_truthy _ _ _ Y), (getBinPath_truthy _ _ _ Fm). }
    unfold DownloadView.handleFetch. rewrite Ok, If, Is.
    rewrite (proj2 (truthy_true _) N). cbn [negb orb].
    set (s3 := DownloadView.showToast _ _).
    change (DownloadView.fs s3)
      with (DownloadView.fs (DownloadView.onMount clip s)).
    rewrite Fs, (fetchVideoInfo_found F _ _ y Y). cbv zeta.
    cbn [Fetch.f_result Fetch.f_spawned].
    match goal with
    | |- context [match ?x with inl _ => _ | inr _ => _ end] => destruct x
    end;
      cbn [DownloadView.setIsFetching DownloadView.setToast DownloadView.call
           DownloadView.push DownloadView.setVideoInfo DownloadView.spawned
           Fetch.f_spawned];
      unfold s3; cbn [DownloadView.showToast DownloadView.setIsFetching
                      DownloadView.spawned]; now rewrite Sp.
Qed.

Lemma fetch_after_mount_witness :
  DownloadView.spawned
    (DownloadView.handleFetch (fetcherGiving "null" (inr Json.JNull))
       (lit "https://example.com/v")
       (DownloadView.onMount None (freshView noFfmpeg)))
  = []
  /\ DownloadView.spawned
       (DownloadView.handleFetch (fetcherGiving "null" (inr Json.JNull))
          (lit " https://example.com/v ")
          (DownloadView.onMount None (freshView intelMac)))
     = [Fetch.fetchCommand (fetcherGiving "null" (inr Json.JNull))
          (lit "/usr/local/bin/yt-dlp") (lit "https://example.com/v")].
Proof.
  split.
  - destruct (fetch_after_mount (fetcherGiving "null" (inr Json.JNull)) None
                (lit "https://example.com/v") (freshView noFfmpeg))
      as (_ & No & _).
    exact (proj1 (No (or_intror eq_refl))).
  - destruct (fetch_after_mount (fetcherGiving "null" (inr Json.JNull)) None
                (lit " https://example.com/v ") (freshView intelMac))
      as (_ & _ & Yes).
    apply (Yes (lit "/usr/local/bin/yt-dlp") (lit "/usr/local/bin/ffmpeg"));
      try reflexivity.
    discriminate.
Defined.

(** ** Pasting from the clipboard *)

Lemma isUrl_not_blank t : DownloadView.isUrl t = true -> trim t <> [].
Proof.
  intros U.
  assert (E : exists r, t = ch "h" :: r).
  { unfold DownloadView.isUrl in U. apply orb_true_iff in U.
    destruct U as [U|U]; apply isPrefix_app in U; rewrite U; eexists;
      reflexivity. }
  destruct E as (r & ->). unfold trim, trimStart.
  rewrite dropWhile_head by reflexivity.
  rewrite trimEnd_cons by reflexivity. discriminate.
Qed.

(** X23.  Text that starts with [http://] or [https://] is never blank, so
    the blank test of [handleFetch] cannot stop the "Fetch Video" action; it
    can stop pasted text only.  "Paste URL and Fetch" takes whatever the
    clipboard holds, a URL or not: an empty clipboard gives the "No URL"
    toast; any other text becomes the search text and goes to [handleFetch]
    as it is, so that white space alone changes the search text and nothing
    else, without a toast, and any other text reaches yt-dlp, trimmed, when
    a process is spawned. *)
Theorem pasteAndFetch_outcome (F : Fetch.fetcher) (clip : option str)
  (s : DownloadView.session) :
  let s' := DownloadView.pasteAndFetch F clip s in
  (forall t, DownloadView.isUrl t = true -> trim t <> [])
  /\ (clip = None \/ clip = Some [] ->
      s' = DownloadView.showToast DownloadView.noUrlInClipboard s)
  /\ (forall c, clip = Some c -> c <> [] ->
        DownloadView.searchText s' = c
        /\ (trim c = [] -> s' = DownloadView.setSearchText c s)
        /\ exists cs,
             DownloadView.spawned s' = DownloadView.spawned s ++ cs
             /\ forall cmd, In cmd cs ->
                  args cmd = [lit "--dump-json"; lit "--no-playlist"; trim c]).
Proof.
  cbv zeta. split; [exact isUrl_not_blank|]. split.
  - intros [->| ->]; reflexivity.
  - intros c -> N. unfold DownloadView.pasteAndFetch.
    rewrite (proj2 (truthy_true _) N).
    set (s1 := DownloadView.setSearchText c s).
    split; [|split].
    + unfold DownloadView.handleFetch.
      destruct (negb (truthy (trim c)) || DownloadView.isFetching s1);
        [reflexivity|].
      destruct (negb _); [reflexivity|].
      match goal with
      | |- context [match ?x with inl _ => _ | inr _ => _ end] => destruct x
      end; reflexivity.
    + intros B. unfold DownloadView.handleFetch. now rewrite B.
    + unfold DownloadView.handleFetch.
      destruct (negb (truthy (trim c)) || DownloadView.isFetching s1).
      { exists []. rewrite app_nil_r. split; [reflexivity | intros cmd []]. }
      destruct (negb _).
      { exists []. rewrite app_nil_r. split; [reflexivity | intros cmd []]. }
      set (s2 := DownloadView.showToast _ _).
      change (DownloadView.fs s2) with (DownloadView.fs s).
      destruct (fetch_facts F (DownloadView.fs s) (trim c)) as (_ & Ar & _).
      set (r := Fetch.fetchVideoInfo F (DownloadView.fs s) (trim c)) in *.
      exists (Fetch.f_spawned r). split; [|exact Ar].
      destruct (Fetch.f_result r); reflexivity.
Qed.

Lemma pasteAndFetch_outcome_witness :
  DownloadView.pasteAndFetch (fetcherGiving "null" (inr Json.JNull))
    (Some (lit "  "))
    (DownloadView.onMount None (freshView intelMac))
  = DownloadView.setSearchText (lit "  ")
      (DownloadView.onMount None (freshView intelMac)).
Proof.
  destruct (pasteAndFetch_outcome (fetcherGiving "null" (inr Json.JNull))
              (Some (lit "  "))
              (DownloadView.onMount None (freshView intelMac)))
    as (_ & _ & P).
  destruct (P (lit "  ") eq_refl) as (_ & B & _); [discriminate|].
  exact (B eq_refl).
Defined.
